(** * snooker_stats: pollers, player cache and payload normalisation

    A shallow embedding of [custom_components/snooker_stats/api.py] and
    [custom_components/snooker_stats/coordinator.py], and of what
    [sensor.py] and [calendar.py] show of the pollers' data.

    Modelling conventions.
    - A decoded JSON payload is a [pyobj]: [None], [bool], [int],
      [float], [str], [list] and [dict].  An [int] is a [Z].  A finite
      [float] is [m * 2^e]; the text [repr()] prints for it is not
      computed but carried with the number, one character at least, so
      that every statement holds whatever that text is; the two
      infinities and the NaN that the decoder reads from [1e999],
      [Infinity] and [NaN] are values of their own.  Strings are ASCII
      text.  [int()] and [str()] convert numerals of any length: the
      limit of 4300 digits that CPython puts on both is outside this
      model.
    - A Python [dict] with string keys keeps insertion order and is an
      association list read from the left; the player cache and the
      event index, whose keys are integers and whose order reaches no
      result, are [gmap]s.
    - A Python exception is a [Raise] of the [result] type; the
      coroutines of the pollers run in a small state-and-error monad over
      the shared player cache and the persisted store.
    - What lies behind the HTTP session, the store and the clock is an
      [Env] record handed to the code.  A [datetime] with an offset is an
      instant in microseconds; one without is a wall-clock reading, which
      the local zone of the [Env] turns into an instant. *)

From Stdlib Require Import ZArith String Ascii List Bool Lia Permutation Sorted DecimalString DecimalPos OrderedTypeEx.
From stdpp Require Import base option list gmap strings.

Set Warnings "-register-all".
Local Open Scope Z_scope.

(** ** Python objects and exceptions *)

(** A [float]: [m * 2^e] with the text of its [repr()] (first character
    and rest), an infinity, or the NaN *)
Inductive pyfloat : Type :=
| Finite (m e : Z) (repr_first : ascii) (repr_rest : string)
| Infinity (negative : bool)
| NaN.

Inductive pyobj : Type :=
| PNone
| PBool (b : bool)
| PInt (n : Z)
| PStr (s : string)
| PList (items : list pyobj)
| PDict (fields : list (string * pyobj))
| PFloat (f : pyfloat).

(** [dict[str, Any]] *)
Abbreviation pydict := (list (string * pyobj)).

Inductive exn : Type :=
| TypeError
| AttributeError
| ValueError (msg : string)
| OverflowError
| ClientError (msg : string)
| StoreError (msg : string)
| UpdateFailed (what : string) (cause : exn).

Inductive result (A : Type) : Type :=
| Ok (a : A)
| Raise (e : exn).
Arguments Ok {A} a.
Arguments Raise {A} e.

Definition is_ok {A} (r : result A) : bool :=
  match r with Ok _ => true | Raise _ => false end.

Module Py.

(** *** Characters and strings *)

Definition code (c : ascii) : nat := nat_of_ascii c.

Definition between (lo hi : nat) (c : ascii) : bool :=
  (lo <=? code c)%nat && (code c <=? hi)%nat.

(** [str.isspace] on ASCII: tab to carriage return, the four separators
    1C to 1F, and the space. *)
Definition isspace (c : ascii) : bool := between 9 13 c || between 28 32 c.

(** The C [isspace] that [int()] skips around a literal. *)
Definition c_isspace (c : ascii) : bool := between 9 13 c || between 32 32 c.

Fixpoint lstrip_by (sp : ascii -> bool) (s : string) : string :=
  match s with
  | String c r => if sp c then lstrip_by sp r else s
  | EmptyString => EmptyString
  end.

Fixpoint rstrip_by (sp : ascii -> bool) (s : string) : string :=
  match s with
  | EmptyString => EmptyString
  | String c r =>
      match rstrip_by sp r with
      | EmptyString => if sp c then EmptyString else String c EmptyString
      | r' => String c r'
      end
  end.

(** [s.strip()] *)
Definition strip (s : string) : string := lstrip_by isspace (rstrip_by isspace s).

Definition backslash : ascii := ascii_of_nat 92.
Definition dquote : ascii := ascii_of_nat 34.
Definition squote : ascii := ascii_of_nat 39.

Fixpoint contains (q : ascii) (s : string) : bool :=
  match s with
  | EmptyString => false
  | String c r => Ascii.eqb c q || contains q r
  end.

Definition hex_digit (n : nat) : ascii :=
  nth n (list_ascii_of_string "0123456789abcdef") "0"%char.

Definition repr_char (q c : ascii) : string :=
  if Ascii.eqb c q || Ascii.eqb c backslash then String backslash (String c "")
  else if (code c =? 9)%nat then String backslash "t"
  else if (code c =? 10)%nat then String backslash "n"
  else if (code c =? 13)%nat then String backslash "r"
  else if (code c <? 32)%nat || (code c =? 127)%nat then
    String backslash
      (String "x" (String (hex_digit (code c / 16)) (String (hex_digit (code c mod 16)) "")))
  else String c "".

Fixpoint repr_chars (q : ascii) (s : string) : string :=
  match s with
  | EmptyString => ""
  | String c r => repr_char q c +:+ repr_chars q r
  end.

(** [repr(s)] for a [str]: single quotes unless the text has one and no
    double quote. *)
Definition repr_str (s : string) : string :=
  let q := if contains squote s && negb (contains dquote s) then dquote else squote in
  String q (repr_chars q s +:+ String q "").

(** [str(n)] for an [int] *)
Definition str_of_int (n : Z) : string := NilZero.string_of_int (Z.to_int n).

(** *** [int(s)] for a [str] *)

Definition digit_val (c : ascii) : option Z :=
  if between 48 57 c then Some (Z.of_nat (code c - 48)) else None.

(** Digits, with single underscores allowed between two digits. *)
Fixpoint parse_digits (s : string) (acc : Z) (after_digit : bool) : option Z :=
  match s with
  | EmptyString => if after_digit then Some acc else None
  | String c r =>
      match digit_val c with
      | Some d => parse_digits r (10 * acc + d) true
      | None =>
          if Ascii.eqb c "_" && after_digit then parse_digits r acc false else None
      end
  end.

Definition int_of_str (s : string) : option Z :=
  match lstrip_by c_isspace (rstrip_by c_isspace s) with
  | String "-" r => Z.opp <$> parse_digits r 0 false
  | String "+" r => parse_digits r 0 false
  | t => parse_digits t 0 false
  end.

(** *** Objects *)

(** [bool(v)] *)
Definition truthy (v : pyobj) : bool :=
  match v with
  | PNone => false
  | PBool b => b
  | PInt n => negb (n =? 0)
  | PStr s => negb (String.eqb s "")
  | PList l => match l with [] => false | _ => true end
  | PDict d => match d with [] => false | _ => true end
  | PFloat (Finite m _ _ _) => negb (m =? 0)
  | PFloat _ => true
  end.

(** [a or b] *)
Definition or_ (a b : pyobj) : pyobj := if truthy a then a else b.

(** [int(f)] for a finite [float]: towards zero *)
Definition float_trunc (m e : Z) : Z :=
  if 0 <=? e then m * 2 ^ e else Z.quot m (2 ^ (- e)).

(** [repr(f)] for a [float] *)
Definition float_repr (f : pyfloat) : string :=
  match f with
  | Finite _ _ c r => String c r
  | Infinity negative => if negative then "-inf" else "inf"
  | NaN => "nan"
  end.

(** [int(v)]; the message of a bad literal shows 200 characters of its
    [repr] at most. *)
Definition int (v : pyobj) : result Z :=
  match v with
  | PNone => Raise TypeError
  | PBool b => Ok (if b then 1 else 0)
  | PInt n => Ok n
  | PStr s =>
      match int_of_str s with
      | Some n => Ok n
      | None =>
          Raise (ValueError ("invalid literal for int() with base 10: "
                             +:+ String.substring 0 200 (repr_str s)))
      end
  | PList _ | PDict _ => Raise TypeError
  | PFloat (Finite m e _ _) => Ok (float_trunc m e)
  | PFloat (Infinity _) => Raise OverflowError
  | PFloat NaN => Raise (ValueError "cannot convert float NaN to integer")
  end.

Definition join_comma (parts : list string) : string :=
  match parts with
  | [] => ""
  | p :: ps => p +:+ fold_right (fun x acc => ", " +:+ x +:+ acc) "" ps
  end.

(** [repr(v)] *)
Fixpoint repr (v : pyobj) : string :=
  match v with
  | PNone => "None"
  | PBool b => if b then "True" else "False"
  | PInt n => str_of_int n
  | PStr s => repr_str s
  | PList l => "[" +:+ join_comma (List.map repr l) +:+ "]"
  | PDict d =>
      "{" +:+ join_comma (List.map (fun kv => repr_str (fst kv) +:+ ": " +:+ repr (snd kv)) d) +:+ "}"
  | PFloat f => float_repr f
  end.

(** [str(v)], also what an f-string field prints *)
Definition str (v : pyobj) : string :=
  match v with
  | PStr s => s
  | _ => repr v
  end.

(** *** [dict] with [str] keys *)

Fixpoint find (d : pydict) (k : string) : option pyobj :=
  match d with
  | [] => None
  | (k', v) :: r => if String.eqb k' k then Some v else find r k
  end.

(** [k in d] *)
Definition has_key (d : pydict) (k : string) : bool :=
  match find d k with Some _ => true | None => false end.

(** [d.get(k, dflt)] *)
Definition get_or (d : pydict) (k : string) (dflt : pyobj) : pyobj :=
  match find d k with Some v => v | None => dflt end.

(** [d.get(k)] *)
Definition get (d : pydict) (k : string) : pyobj := get_or d k PNone.

(** [d[k] = v]: in place when the key exists, else appended *)
Fixpoint setitem (d : pydict) (k : string) (v : pyobj) : pydict :=
  match d with
  | [] => [(k, v)]
  | (k', v') :: r => if String.eqb k' k then (k', v) :: r else (k', v') :: setitem r k v
  end.

(** [list(d.keys())] *)
Definition keys (d : pydict) : list string := List.map fst d.

(** What [for x in v] and [list.extend(v)] go through: the items of a
    [list], the keys of a [dict], the characters of a [str]; the other
    objects are not iterable (and have no [len]). *)
Definition iter (v : pyobj) : result (list pyobj) :=
  match v with
  | PList l => Ok l
  | PDict d => Ok (List.map PStr (keys d))
  | PStr s => Ok (List.map (fun c => PStr (String c "")) (list_ascii_of_string s))
  | _ => Raise TypeError
  end.

(** [{**m, k: v}]: [m] has to be a mapping *)
Definition spread_with (m : pyobj) (k : string) (v : pyobj) : result pydict :=
  match m with
  | PDict d => Ok (setitem d k v)
  | _ => Raise TypeError
  end.

(** [sorted(l, key=...)] and [l.sort(key=...)]: stable, by insertion. *)
Section Sorting.
Context {A : Type} (le : A -> A -> bool).

Fixpoint insert_sorted (x : A) (l : list A) : list A :=
  match l with
  | [] => [x]
  | y :: r => if le x y then x :: y :: r else y :: insert_sorted x r
  end.

Fixpoint sorted (l : list A) : list A :=
  match l with
  | [] => []
  | x :: r => insert_sorted x (sorted r)
  end.
End Sorting.

End Py.

(** ** Datetimes *)

(** With an offset a [datetime] is an instant; without one it is the
    reading of a wall clock, both in microseconds. *)
Inductive datetime : Type :=
| Aware (instant : Z)
| Naive (wall : Z).

(** ** The state-and-error monad of the coroutines *)

(** [PlayerCache]: [players] maps a player id to a display name,
    [last_refreshed] is an ISO string or [None]. *)
Record PlayerCache : Type := {
  players : gmap Z string;
  last_refreshed : pyobj
}.

(** What the code reaches through [hass] and the HTTP session.
    - [get_json params] is the outcome of [_get_json] for these query
      parameters once the 403 waits are over: a decoded payload, or the
      error the session raised.
    - [async_save doc] is the outcome of [Store.async_save].
    - [utcnow] is [dt_util.utcnow()], an instant in microseconds since
      the epoch; [parse_datetime] is [dt_util.parse_datetime], giving a
      [datetime], [None], or an error; [isoformat] prints an instant;
      [as_local] is the instant of a wall-clock reading in the local
      zone, [dt_util.as_utc(dt_util.as_local(dt))]. *)
Record Env : Type := {
  get_json : pydict -> result pyobj;
  async_save : pyobj -> result unit;
  utcnow : Z;
  parse_datetime : string -> result (option datetime);
  isoformat : Z -> string;
  as_local : Z -> Z
}.

(** The shared player cache object, the persisted record, and the
    requests sent so far (latest first). *)
Record State : Type := {
  player_cache : PlayerCache;
  storage : option pyobj;
  requests : list pydict
}.

Definition M (A : Type) : Type := State -> result A * State.

Definition ret {A} (a : A) : M A := fun s => (Ok a, s).

Definition raise {A} (e : exn) : M A := fun s => (Raise e, s).

Definition bind {A B} (m : M A) (k : A -> M B) : M B :=
  fun s => match m s with
           | (Ok a, s') => k a s'
           | (Raise e, s') => (Raise e, s')
           end.

(** [try: m except Exception: h] *)
Definition try_except {A} (m : M A) (h : exn -> M A) : M A :=
  fun s => match m s with
           | (Ok a, s') => (Ok a, s')
           | (Raise e, s') => h e s'
           end.

Definition lift {A} (r : result A) : M A := fun s => (r, s).

Definition get_cache : M PlayerCache := fun s => (Ok (player_cache s), s).

Definition rbind {A B} (r : result A) (k : A -> result B) : result B :=
  match r with
  | Ok a => k a
  | Raise e => Raise e
  end.

Notation "'let*' x := m 'in' k" := (bind m (fun x => k))
  (at level 10, x name, m at level 100, k at level 200, only parsing).
Notation "'let?' x := r 'in' k" := (rbind r (fun x => k))
  (at level 10, x name, r at level 100, k at level 200, only parsing).

(** [for x in xs: body x] *)
Fixpoint for_each {A} (xs : list A) (body : A -> M unit) : M unit :=
  match xs with
  | [] => ret tt
  | x :: r => let* _ := body x in for_each r body
  end.

(** [[f(x) for x in xs]] where [f] may raise *)
Fixpoint map_result {A B} (f : A -> result B) (xs : list A) : result (list B) :=
  match xs with
  | [] => Ok []
  | x :: r => let? y := f x in let? ys := map_result f r in Ok (y :: ys)
  end.

(** ** api.py *)

Module Api.

Definition _first_dict (payload : pyobj) : pydict :=
  match payload with
  | PList (PDict d :: _) => d
  | PList _ => []
  | PDict d => d
  | _ => []
  end.

Definition _as_list (payload : pyobj) : list pydict :=
  match payload with
  | PList l => omap (fun x => match x with PDict d => Some d | _ => None end) l
  | PDict d => [d]
  | _ => []
  end.

(** [_get_json]: the request is recorded, the session answers. *)
Definition _get_json (env : Env) (params : pydict) : M pyobj :=
  fun s =>
    (get_json env params,
     {| player_cache := player_cache s; storage := storage s;
        requests := params :: requests s |}).

(** [if tour: params["tr"] = tour] *)
Definition with_tour (params : pydict) (tour : option string) : pydict :=
  match tour with
  | Some tr => if Py.truthy (PStr tr) then Py.setitem params "tr" (PStr tr) else params
  | None => params
  end.

Section Client.
Context (env : Env).

Definition get_current_season : M pydict :=
  let* payload := _get_json env [("t", PInt 20)] in
  ret (_first_dict payload).

Definition get_rankings (season : Z) (ranking_type : string) : M (list pydict) :=
  let* payload := _get_json env [("rt", PStr ranking_type); ("s", PInt season)] in
  ret (_as_list payload).

Definition get_upcoming_matches (tour : option string) : M pyobj :=
  _get_json env (with_tour [("t", PInt 14)] tour).

Definition get_events_in_season (season : Z) (tour : option string) : M pyobj :=
  _get_json env (with_tour [("t", PInt 5); ("s", PInt season)] tour).

Definition get_current_matches (tour : option string) : M (list pydict) :=
  let* payload := _get_json env (with_tour [("t", PInt 17)] tour) in
  ret (_as_list payload).

Definition get_matches_of_event (event_id : Z) : M pyobj :=
  _get_json env [("t", PInt 6); ("e", PInt event_id)].

Definition get_player (player_id : Z) : M pydict :=
  let* payload := _get_json env [("p", PInt player_id)] in
  ret (_first_dict payload).

(** [out[pid] = ...] on the [dict[int, dict]] being filled *)
Fixpoint set_player (out : list (Z * pydict)) (pid : Z) (p : pydict) : list (Z * pydict) :=
  match out with
  | [] => [(pid, p)]
  | (k, v) :: r => if (k =? pid)%Z then (k, p) :: r else (k, v) :: set_player r pid p
  end.

Fixpoint paced_loop (player_ids : list Z) (out : list (Z * pydict)) : M (list (Z * pydict)) :=
  match player_ids with
  | [] => ret out
  | pid :: r =>
      let* p := get_player pid in
      paced_loop r (set_player out pid p)
  end.

(** The pauses between two calls take time and nothing else. *)
Definition paced_player_fetch (player_ids : list Z) : M (list (Z * pydict)) :=
  paced_loop player_ids [].
End Client.

End Api.

(** ** coordinator.py *)

Module Coordinator.

Definition MONTHLY_REFRESH_DAYS : Z := 30.

(** const.py *)
Definition RANKING_MONEY : string := "MoneyRankings".
Definition RANKING_ONE_YEAR_MONEY : string := "OneYearMoneyRankings".

(** [timedelta(days=n)], in microseconds *)
Definition timedelta_days (n : Z) : Z := n * 86400 * 1000000.

(** *** The persisted player cache *)

(** [{int(k): str(v) for k, v in players_raw.items()}] *)
Fixpoint load_items (items : pydict) (acc : gmap Z string) : result (gmap Z string) :=
  match items with
  | [] => Ok acc
  | (k, v) :: r =>
      let? n := Py.int (PStr k) in
      load_items r (<[n := Py.str v]> acc)
  end.

(** An absent record reads as [None]; [.get] and [.items] need a [dict]. *)
Definition load_player_cache : M PlayerCache :=
  fun s =>
    let data := Py.or_ (default PNone (storage s)) (PDict []) in
    (match data with
     | PDict d =>
         match Py.get_or d "players" (PDict []) with
         | PDict players_raw =>
             let? ps := load_items players_raw ∅ in
             Ok {| players := ps; last_refreshed := Py.get d "last_refreshed" |}
         | _ => Raise AttributeError
         end
     | _ => Raise AttributeError
     end, s).

(** The record handed to [Store.async_save] *)
Definition dump (cache : PlayerCache) : pyobj :=
  PDict [("players",
          PDict (List.map (fun kv : Z * string => (Py.str (PInt (fst kv)), PStr (snd kv)))
                   (map_to_list (players cache))));
         ("last_refreshed", last_refreshed cache)].

Definition save_player_cache (env : Env) (cache : PlayerCache) : M unit :=
  fun s =>
    match async_save env (dump cache) with
    | Ok _ =>
        (Ok tt, {| player_cache := player_cache s; storage := Some (dump cache);
                   requests := requests s |})
    | Raise e => (Raise e, s)
    end.

(** [cache.players[pid] = name] on the shared cache *)
Definition set_player_name (pid : Z) (name : string) : M unit :=
  fun s =>
    (Ok tt,
     {| player_cache := {| players := <[pid := name]> (players (player_cache s));
                           last_refreshed := last_refreshed (player_cache s) |};
        storage := storage s; requests := requests s |}).

(** [cache.last_refreshed = stamp] *)
Definition set_last_refreshed (stamp : pyobj) : M unit :=
  fun s =>
    (Ok tt,
     {| player_cache := {| players := players (player_cache s); last_refreshed := stamp |};
        storage := storage s; requests := requests s |}).

(** *** Names and seasons *)

(** The loop over [("Name", "FullName", "DisplayName")] *)
Fixpoint first_name_field (p : pydict) (keys : list string) : option string :=
  match keys with
  | [] => None
  | key :: r =>
      if Py.has_key p key && Py.truthy (Py.get p key)
      then Some (Py.str (Py.get p key))
      else first_name_field p r
  end.

Definition _player_name_from_payload (p : pydict) : string :=
  match first_name_field p ["Name"; "FullName"; "DisplayName"] with
  | Some s => s
  | None =>
      let fn := Py.strip (Py.str (Py.get_or p "FirstName" (PStr ""))) in
      let ln := Py.strip (Py.str (Py.get_or p "LastName" (PStr ""))) in
      let name := Py.strip (fn +:+ " " +:+ ln) in
      if Py.truthy (PStr name) then name
      else "Player " +:+ Py.str (Py.get_or p "ID" (PStr "?"))
  end.

(** [raw in (None, "")] *)
Definition none_or_empty (raw : pyobj) : bool :=
  match raw with
  | PNone => true
  | PStr s => String.eqb s ""
  | _ => false
  end.

(** The loop over the candidate keys; [except (TypeError, ValueError)]
    goes on to the next key, any other error leaves the function. *)
Fixpoint season_from (payload : pydict) (keys : list string) : result Z :=
  match keys with
  | [] =>
      Raise (ValueError ("No usable season value in payload keys="
                         +:+ Py.repr (PList (List.map PStr (Py.keys payload)))))
  | key :: r =>
      let raw := Py.get payload key in
      if none_or_empty raw then season_from payload r
      else match Py.int raw with
           | Ok n => Ok n
           | Raise TypeError | Raise (ValueError _) => season_from payload r
           | Raise e => Raise e
           end
  end.

Definition _extract_season (payload : pydict) : result Z :=
  season_from payload ["Season"; "ID"; "CurrentSeason"; "SeasonID"].

(** [self.season_coord.data or await self.api.get_current_season()] *)
Definition season_payload_of (env : Env) (season_coord_data : option pydict) : M pydict :=
  match season_coord_data with
  | Some d => if Py.truthy (PDict d) then ret d else Api.get_current_season env
  | None => Api.get_current_season env
  end.

(** [for pid, payload in players_payload.items():
       cache.players[pid] = _player_name_from_payload(payload)] *)
Definition store_names (players_payload : list (Z * pydict)) : M unit :=
  for_each players_payload
    (fun kv => set_player_name (fst kv) (_player_name_from_payload (snd kv))).

(** *** RankingsCoordinator *)

Module RankingsCoordinator.

Record Data : Type := {
  season : Z;
  top10_money : list pydict;
  top10_one_year_money : list pydict
}.

(** [name or f"#{pid}"] *)
Definition name_or_placeholder (name : option string) (pid : Z) : string :=
  match name with
  | Some n => if Py.truthy (PStr n) then n else "#" +:+ Py.str (PInt pid)
  | None => "#" +:+ Py.str (PInt pid)
  end.

(** [int(r.get("PlayerID", r.get("ID", 0)) or 0)] *)
Definition row_pid (r : pydict) : result Z :=
  Py.int (Py.or_ (Py.get_or r "PlayerID" (Py.get_or r "ID" (PInt 0))) (PInt 0)).

Definition decorate_row (cache : PlayerCache) (r : pydict) : result pydict :=
  let? pid := row_pid r in
  let name := players cache !! pid in
  Ok (Py.setitem r "PlayerName" (PStr (name_or_placeholder name pid))).

Definition decorate (cache : PlayerCache) (rows : list pydict) : result (list pydict) :=
  map_result (decorate_row cache) (take 10 rows).

Definition _async_update_data (env : Env) (season_coord_data : option pydict) : M Data :=
  try_except
    (let* season_payload := season_payload_of env season_coord_data in
     let* season := lift (_extract_season season_payload) in
     let* money := Api.get_rankings env season RANKING_MONEY in
     let* one_year := Api.get_rankings env season RANKING_ONE_YEAR_MONEY in
     let* cache := get_cache in
     let* top_money := lift (decorate cache money) in
     let* top_one_year := lift (decorate cache one_year) in
     ret {| season := season; top10_money := top_money;
            top10_one_year_money := top_one_year |})
    (fun err => raise (UpdateFailed "Failed to fetch rankings" err)).

End RankingsCoordinator.

(** *** UpcomingMatchesCoordinator *)

Module UpcomingMatchesCoordinator.

Record Match : Type := {
  Tour : string;
  EventID : option Z;
  ScheduledDate : string;
  Player1ID : option Z;
  Player2ID : option Z
}.

Record Data : Type := {
  count : nat;
  matches : list Match
}.

(** [[{**match, "Tour": tr} for match in tour_matches]] *)
Definition tag_tour (tr : string) (tour_matches : pyobj) : result (list pydict) :=
  let? items := Py.iter tour_matches in
  map_result (fun m => Py.spread_with m "Tour" (PStr tr)) items.

(** The loop over [self.tours] *)
Fixpoint fetch_tours (env : Env) (tours : list string) (all_matches : list pydict)
  : M (list pydict) :=
  match tours with
  | [] => ret all_matches
  | tr :: r =>
      let* tour_matches := Api.get_upcoming_matches env (Some tr) in
      let* tagged := lift (tag_tour tr tour_matches) in
      fetch_tours env r (all_matches ++ tagged)
  end.

(** [try: return int(pid) except Exception: return None] *)
Definition as_int (pid : pyobj) : option Z :=
  match Py.int pid with
  | Ok n => Some n
  | Raise _ => None
  end.

(** One turn of the loop over [all_matches]; [None] is [continue]. *)
Definition normalize (m : pydict) : option Match :=
  let p1 := Py.or_ (Py.or_ (Py.get m "Player1ID") (Py.get m "P1")) (Py.get m "Player1") in
  let p2 := Py.or_ (Py.or_ (Py.get m "Player2ID") (Py.get m "P2")) (Py.get m "Player2") in
  let scheduled :=
    Py.or_ (Py.or_ (Py.get m "ScheduledDate") (Py.get m "StartDate")) (Py.get m "Date") in
  if negb (Py.truthy scheduled) then None
  else Some {| Tour := Py.str (Py.or_ (Py.get m "Tour") (PStr ""));
               EventID := as_int (Py.or_ (Py.or_ (Py.get m "EventID") (Py.get m "Event"))
                                    (Py.get m "EID"));
               ScheduledDate := Py.str scheduled;
               Player1ID := as_int p1;
               Player2ID := as_int p2 |}.

(** [if pid is None: continue; if pid not in players: missing.add(pid)] *)
Definition note_missing (cache : PlayerCache) (pid : option Z) (missing : gset Z) : gset Z :=
  match pid with
  | None => missing
  | Some n =>
      match players cache !! n with
      | None => {[ n ]} ∪ missing
      | Some _ => missing
      end
  end.

Definition missing_player_ids (cache : PlayerCache) (decorated : list Match) : gset Z :=
  foldl (fun missing m =>
           note_missing cache (Player2ID m) (note_missing cache (Player1ID m) missing))
    ∅ decorated.

(** [str(x.get("ScheduledDate") or "")] *)
Definition sort_key (x : Match) : string :=
  Py.str (Py.or_ (PStr (ScheduledDate x)) (PStr "")).

Definition by_sort_key (x y : Match) : bool := String.leb (sort_key x) (sort_key y).

(** The body of the [try] block: paced fetch, names stored, cache saved *)
Definition backfill (env : Env) (missing : gset Z) : M unit :=
  let* players_payload :=
    Api.paced_player_fetch env (Py.sorted Z.leb (elements missing)) in
  let* _ := store_names players_payload in
  let* cache := get_cache in
  save_player_cache env cache.

(** [try: ... except Exception: _LOGGER.exception(...)] *)
Definition enrich (env : Env) (missing : gset Z) : M unit :=
  try_except (backfill env missing) (fun _ => ret tt).

Definition _async_update_data (env : Env) (tours : list string) : M Data :=
  try_except
    (let* all_matches := fetch_tours env tours [] in
     let decorated := omap normalize all_matches in
     let* cache := get_cache in
     let missing := missing_player_ids cache decorated in
     let* _ := (if bool_decide (elements missing = []) then ret tt else enrich env missing) in
     let decorated := Py.sorted by_sort_key decorated in
     ret {| count := length decorated; matches := decorated |})
    (fun err => raise (UpdateFailed "Failed to fetch upcoming matches" err)).

End UpcomingMatchesCoordinator.

(** *** EventsInSeasonCoordinator *)

Module EventsInSeasonCoordinator.

Record Event : Type := {
  ID : Z;
  Name : string;
  City : string;
  Venue : string;
  Type_ : string;
  StartDate : string;
  EndDate : string
}.

Record Data : Type := {
  season : Z;
  count : nat;
  events : list Event;
  events_by_id : gmap Z Event
}.

(** The loop over [self.tours]: [raw_events.extend(tour_events)] *)
Fixpoint fetch_tours (env : Env) (season : Z) (tours : list string) (raw_events : list pyobj)
  : M (list pyobj) :=
  match tours with
  | [] => ret raw_events
  | tr :: r =>
      let* tour_events := Api.get_events_in_season env season (Some tr) in
      let* items := lift (Py.iter tour_events) in
      fetch_tours env season r (raw_events ++ items)
  end.

(** [if self.tours: ... else: raw_events = await ...get_events_in_season(season)] *)
Definition fetch_events (env : Env) (season : Z) (tours : list string) : M (list pyobj) :=
  match tours with
  | [] =>
      let* raw_events := Api.get_events_in_season env season None in
      lift (Py.iter raw_events)
  | _ => fetch_tours env season tours []
  end.

(** One turn of the loop over [raw_events], for a [raw] that is a
    [dict]; [Ok None] is [continue]. *)
Definition normalize (raw : pydict) : result (option Event) :=
  let event_id := Py.or_ (Py.or_ (Py.get raw "ID") (Py.get raw "EventID")) (Py.get raw "EID") in
  match event_id with
  | PNone => Ok None
  | _ =>
      match Py.int event_id with
      | Ok event_id_int =>
          Ok (Some
            {| ID := event_id_int;
               Name := Py.str (Py.or_ (Py.or_ (Py.get raw "Name") (Py.get raw "EventName")) (PStr ""));
               City := Py.str (Py.or_ (Py.get raw "City") (PStr ""));
               Venue := Py.str (Py.or_ (Py.get raw "Venue") (PStr ""));
               Type_ := Py.str (Py.or_ (Py.get raw "Type") (PStr ""));
               StartDate := Py.str (Py.or_ (Py.or_ (Py.get raw "StartDate") (Py.get raw "Start")) (PStr ""));
               EndDate := Py.str (Py.or_ (Py.or_ (Py.get raw "EndDate") (Py.get raw "End")) (PStr "")) |})
      | Raise TypeError | Raise (ValueError _) => Ok None
      | Raise e => Raise e
      end
  end.

(** [raw.get] exists on a [dict] only. *)
Fixpoint index_events (raw_events : list pyobj) (events_by_id : gmap Z Event)
  : result (gmap Z Event) :=
  match raw_events with
  | [] => Ok events_by_id
  | PDict raw :: r =>
      let? ev := normalize raw in
      match ev with
      | Some event => index_events r (<[ID event := event]> events_by_id)
      | None => index_events r events_by_id
      end
  | _ :: _ => Raise AttributeError
  end.

Definition by_id (x y : Event) : bool := (ID x <=? ID y)%Z.

(** [events_by_id.values()]: the keys are the IDs, so no two values
    share a sort key and the order in which the values come does not
    reach the sorted list. *)
Definition values (events_by_id : gmap Z Event) : list Event :=
  List.map snd (map_to_list events_by_id).

Definition _async_update_data (env : Env) (season_coord_data : option pydict)
  (tours : list string) : M Data :=
  try_except
    (let* season_payload := season_payload_of env season_coord_data in
     let* season := lift (_extract_season season_payload) in
     let* raw_events := fetch_events env season tours in
     let* events_by_id := lift (index_events raw_events ∅) in
     let events := Py.sorted by_id (values events_by_id) in
     ret {| season := season; count := length events; events := events;
            events_by_id := events_by_id |})
    (fun err => raise (UpdateFailed "Failed to fetch events in season" err)).

End EventsInSeasonCoordinator.

(** *** MatchScoresCoordinator *)

Module MatchScoresCoordinator.

Record Match : Type := {
  MatchID : Z;
  EventID : option Z;
  EventName : string;
  EventType : string;
  EventCity : string;
  Player1ID : option Z;
  Player1Name : string;
  Score1 : Z;
  Player2ID : option Z;
  Player2Name : string;
  Score2 : Z;
  Status : Z;
  Unfinished : bool;
  ScheduledDate : string;
  StartDate : string;
  EndDate : string
}.

Record Data : Type := {
  count : nat;
  matches : list Match
}.

(** The loop over [self.tours]: [raw_matches.extend(tour_matches)] *)
Fixpoint fetch_tours (env : Env) (tours : list string) (raw_matches : list pydict)
  : M (list pydict) :=
  match tours with
  | [] => ret raw_matches
  | tr :: r =>
      let* tour_matches := Api.get_current_matches env (Some tr) in
      fetch_tours env r (raw_matches ++ tour_matches)
  end.

(** [(self.events_coord.data or {}).get("events_by_id", {})] *)
Definition events_map_of (events_coord_data : option EventsInSeasonCoordinator.Data)
  : gmap Z EventsInSeasonCoordinator.Event :=
  match events_coord_data with
  | Some d => EventsInSeasonCoordinator.events_by_id d
  | None => ∅
  end.

Definition as_int (val : pyobj) : result (option Z) :=
  if none_or_empty val then Ok None
  else match Py.int val with
       | Ok n => Ok (Some n)
       | Raise TypeError | Raise (ValueError _) => Ok None
       | Raise e => Raise e
       end.

(** Truth value of an [int | None] *)
Definition id_truthy (pid : option Z) : bool :=
  match pid with
  | Some n => negb (n =? 0)%Z
  | None => false
  end.

(** [pid or -1] *)
Definition id_or_minus_one (pid : option Z) : Z :=
  match pid with
  | Some n => if (n =? 0)%Z then -1 else n
  | None => -1
  end.

(** [f"#{pid}" if pid else "TBD"] *)
Definition placeholder (pid : option Z) : string :=
  match pid with
  | Some n => if (n =? 0)%Z then "TBD" else "#" +:+ Py.str (PInt n)
  | None => "TBD"
  end.

(** [self.player_cache.players.get(pid or -1, f"#{pid}" if pid else "TBD")] *)
Definition player_name (cache : PlayerCache) (pid : option Z) : string :=
  default (placeholder pid) (players cache !! id_or_minus_one pid).

(** [if pid and pid not in self.player_cache.players: missing.add(pid)] *)
Definition note_missing (cache : PlayerCache) (pid : option Z) (missing : gset Z) : gset Z :=
  match pid with
  | Some n =>
      if id_truthy pid then
        match players cache !! n with
        | None => {[ n ]} ∪ missing
        | Some _ => missing
        end
      else missing
  | None => missing
  end.

(** The body of the loop over [raw_matches], fields in the order the
    [dict] display evaluates them. *)
Definition build_match (cache : PlayerCache)
  (events_map : gmap Z EventsInSeasonCoordinator.Event) (m : pydict) : result Match :=
  let? p1_id := as_int (Py.get m "Player1ID") in
  let? p2_id := as_int (Py.get m "Player2ID") in
  let? event_id := as_int (Py.get m "EventID") in
  let event := events_map !! id_or_minus_one event_id in
  let? match_id := Py.int (Py.or_ (Py.get m "ID") (PInt 0)) in
  let? score1 := Py.int (Py.or_ (Py.get m "Score1") (PInt 0)) in
  let? score2 := Py.int (Py.or_ (Py.get m "Score2") (PInt 0)) in
  let? status := Py.int (Py.or_ (Py.get m "Status") (PInt 0)) in
  Ok {| MatchID := match_id;
        EventID := event_id;
        EventName := from_option EventsInSeasonCoordinator.Name "" event;
        EventType := from_option EventsInSeasonCoordinator.Type_ "" event;
        EventCity := from_option EventsInSeasonCoordinator.City "" event;
        Player1ID := p1_id;
        Player1Name := player_name cache p1_id;
        Score1 := score1;
        Player2ID := p2_id;
        Player2Name := player_name cache p2_id;
        Score2 := score2;
        Status := status;
        Unfinished := Py.truthy (Py.get m "Unfinished");
        ScheduledDate := Py.str (Py.or_ (Py.get m "ScheduledDate") (PStr ""));
        StartDate := Py.str (Py.or_ (Py.get m "StartDate") (PStr ""));
        EndDate := Py.str (Py.or_ (Py.get m "EndDate") (PStr "")) |}.

(** The loop over [raw_matches]: the list built and the ids missed. *)
Fixpoint build_matches (cache : PlayerCache)
  (events_map : gmap Z EventsInSeasonCoordinator.Event) (raw_matches : list pydict)
  (matches : list Match) (missing : gset Z) : result (list Match * gset Z) :=
  match raw_matches with
  | [] => Ok (matches, missing)
  | m :: r =>
      let? built := build_match cache events_map m in
      build_matches cache events_map r (matches ++ [built])
        (note_missing cache (Player2ID built) (note_missing cache (Player1ID built) missing))
  end.

(** [if pid: match[...] = self.player_cache.players.get(pid, match[...])] *)
Definition re_resolve (cache : PlayerCache) (pid : option Z) (name : string) : string :=
  match pid with
  | Some n => if id_truthy pid then default name (players cache !! n) else name
  | None => name
  end.

(** The second pass over the [matches] already built *)
Definition rename (cache : PlayerCache) (x : Match) : Match :=
  {| MatchID := MatchID x;
     EventID := EventID x;
     EventName := EventName x;
     EventType := EventType x;
     EventCity := EventCity x;
     Player1ID := Player1ID x;
     Player1Name := re_resolve cache (Player1ID x) (Player1Name x);
     Score1 := Score1 x;
     Player2ID := Player2ID x;
     Player2Name := re_resolve cache (Player2ID x) (Player2Name x);
     Score2 := Score2 x;
     Status := Status x;
     Unfinished := Unfinished x;
     ScheduledDate := ScheduledDate x;
     StartDate := StartDate x;
     EndDate := EndDate x |}.

(** The body of the [try] block: paced fetch, names stored, cache
    saved, then the second pass *)
Definition backfill (env : Env) (missing : gset Z) (matches : list Match) : M (list Match) :=
  let* players_payload :=
    Api.paced_player_fetch env (Py.sorted Z.leb (elements missing)) in
  let* _ := store_names players_payload in
  let* cache := get_cache in
  let* _ := save_player_cache env cache in
  let* cache := get_cache in
  ret (List.map (rename cache) matches).

(** [try: ... except Exception: _LOGGER.exception(...)]: the handler
    leaves [matches] as the first pass built it. *)
Definition enrich (env : Env) (missing : gset Z) (matches : list Match) : M (list Match) :=
  try_except (backfill env missing matches) (fun _ => ret matches).

(** [(x.get("ScheduledDate") or "", x.get("MatchID") or 0)], compared
    as tuples *)
Definition by_date_then_id (x y : Match) : bool :=
  String.ltb (ScheduledDate x) (ScheduledDate y)
  || (String.eqb (ScheduledDate x) (ScheduledDate y) && (MatchID x <=? MatchID y)%Z).

Definition _async_update_data (env : Env) (tours : list string)
  (events_coord_data : option EventsInSeasonCoordinator.Data) : M Data :=
  try_except
    (let* raw_matches := fetch_tours env tours [] in
     let events_map := events_map_of events_coord_data in
     let* cache := get_cache in
     let* built := lift (build_matches cache events_map raw_matches [] ∅) in
     let* matches :=
       (if bool_decide (elements (snd built) = []) then ret (fst built)
        else enrich env (snd built) (fst built)) in
     let matches := Py.sorted by_date_then_id matches in
     ret {| count := length matches; matches := matches |})
    (fun err => raise (UpdateFailed "Failed to fetch current match scores" err)).

End MatchScoresCoordinator.

(** *** The monthly refresh of the player cache *)

(** [try: last = dt_util.parse_datetime(...) except Exception: last = None];
    only a [str] can be parsed. *)
Definition parse_last (env : Env) (stamp : pyobj) : option datetime :=
  match stamp with
  | PStr s =>
      match parse_datetime env s with
      | Ok last => last
      | Raise _ => None
      end
  | _ => None
  end.

(** The guard that ends the call before any request is sent.  [now] has
    an offset, and [now - last] is outside the [try]: against a [last]
    that has none the subtraction raises. *)
Definition skip_refresh (env : Env) (cache : PlayerCache) : result bool :=
  if Py.truthy (last_refreshed cache) then
    match parse_last env (last_refreshed cache) with
    | Some (Aware last) => Ok (utcnow env - last <? timedelta_days MONTHLY_REFRESH_DAYS)%Z
    | Some (Naive _) => Raise TypeError
    | None => Ok false
    end
  else Ok false.

(** The loop over [rankings[:100]] *)
Fixpoint top_ids (rows : list pydict) : result (list Z) :=
  match rows with
  | [] => Ok []
  | r :: rest =>
      match Py.get_or r "PlayerID" (Py.get r "ID") with
      | PNone => top_ids rest
      | pid =>
          let? n := Py.int pid in
          let? ids := top_ids rest in
          Ok (n :: ids)
      end
  end.

(** What runs once the guard has let the call through *)
Definition refresh_player_cache (env : Env) : M unit :=
  let* season_payload := Api.get_current_season env in
  let* season := lift (_extract_season season_payload) in
  let* rankings := Api.get_rankings env season RANKING_MONEY in
  let* top100_ids := lift (top_ids (take 100 rankings)) in
  let* players_payload := Api.paced_player_fetch env top100_ids in
  let* _ := store_names players_payload in
  let* _ := set_last_refreshed (PStr (isoformat env (utcnow env))) in
  let* cache := get_cache in
  save_player_cache env cache.

Definition maybe_refresh_player_cache_monthly (env : Env) : M unit :=
  let* cache := get_cache in
  let* skip := lift (skip_refresh env cache) in
  if skip then ret tt
  else refresh_player_cache env.

End Coordinator.

(** ** calendar.py *)

Module Calendar.

(** [SnookerUpcomingCalendar._resolve_player_name], on the [Player1ID] or
    [Player2ID] of a published upcoming match and the cache as it is when
    the calendar is read: [int(None)] raises and gives [TBD]. *)
Definition _resolve_player_name (cache : PlayerCache) (player_id : option Z) : string :=
  match player_id with
  | None => "TBD"
  | Some pid => default ("#" +:+ Py.str (PInt pid)) (players cache !! pid)
  end.

End Calendar.

(** ** The statements the code is checked against *)

Module Spec.

(** A season key counts when it is present with a value that is neither
    [None] nor the empty string and that [int()] accepts. *)
Definition usable_season (payload : pydict) (key : string) : option Z :=
  match Py.find payload key with
  | Some (PStr "") | Some PNone | None => None
  | Some v => match Py.int v with Ok n => Some n | Raise _ => None end
  end.

(** The candidate keys of the season, in the order they are tried *)
Definition season_keys : list string := ["Season"; "ID"; "CurrentSeason"; "SeasonID"].

(** An infinite [float], as the decoder reads it from [1e999] *)
Definition is_infinite (v : pyobj) : bool :=
  match v with
  | PFloat (Infinity _) => true
  | _ => false
  end.

(** The outcome the wording gives season extraction: the integer of the
    first usable key, else the error that lists the keys of the payload *)
Definition season_outcome (payload : pydict) : result Z :=
  match head (omap (usable_season payload) season_keys) with
  | Some n => Ok n
  | None =>
      Raise (ValueError ("No usable season value in payload keys="
                         +:+ Py.repr (PList (List.map PStr (Py.keys payload)))))
  end.

(** [raw.get("ID") or raw.get("EventID") or raw.get("EID")] *)
Definition event_id_of (raw : pydict) : pyobj :=
  Py.or_ (Py.or_ (Py.get raw "ID") (Py.get raw "EventID")) (Py.get raw "EID").

(** A raw event whose ID is an infinite [float] *)
Definition infinite_id (raw : pydict) : bool := is_infinite (event_id_of raw).






(** The name of [pid] as the cache has it, else [#] and the id *)
Definition cached_or_hash (cache : PlayerCache) (pid : Z) : string :=
  match players cache !! pid with
  | Some name => name
  | None => "#" +:+ Py.str (PInt pid)
  end.



(** What the stored stamp says: nothing, nothing readable, an instant,
    or a wall-clock reading with no offset *)
Inductive stamp : Type :=
| Null
| Unparseable
| At (last : Z)
| NoOffset (wall : Z).

Definition read_stamp (env : Env) (cache : PlayerCache) : stamp :=
  match last_refreshed cache with
  | PNone => Null
  | PStr text =>
      match parse_datetime env text with
      | Ok (Some (Aware last)) => At last
      | Ok (Some (Naive wall)) => NoOffset wall
      | _ => Unparseable
      end
  | _ => Unparseable
  end.

(** Thirty days of 86400 seconds, in microseconds *)
Definition thirty_days : Z := 30 * 86400 * 1000000.

(** Due: no stamp, an unreadable one, or thirty days elapsed, a reading
    with no offset being taken in the local zone *)
Definition refresh_due (env : Env) (cache : PlayerCache) : bool :=
  match read_stamp env cache with
  | Null | Unparseable => true
  | At last => (thirty_days <=? utcnow env - last)%Z
  | NoOffset wall => (thirty_days <=? utcnow env - as_local env wall)%Z
  end.

(** The stamp reads as a datetime with no offset. *)
Definition no_offset (env : Env) (cache : PlayerCache) : bool :=
  match read_stamp env cache with
  | NoOffset _ => true
  | _ => false
  end.

End Spec.

(** ** Relations between the state before and after a computation *)

(** [respects R m]: from any state, [m] ends in a state related to it by [R]. *)
Definition respects (R : relation State) {A} (m : M A) : Prop :=
  forall s, R s (snd (m s)).

(** The requests already sent stay, under the new ones. *)
Definition sent_more (s s' : State) : Prop :=
  exists later, requests s' = later ++ requests s.

(** The player cache is what it was. *)
Definition same_cache (s s' : State) : Prop := player_cache s' = player_cache s.

(** No cached name is empty. *)
Definition names_nonempty (cache : PlayerCache) : Prop :=
  map_Forall (fun (_ : Z) (name : string) => name <> "") (players cache).

(** Non-empty names stay non-empty. *)
Definition keeps_names (s s' : State) : Prop :=
  names_nonempty (player_cache s) -> names_nonempty (player_cache s').

(** One turn of the indexing loop of the events poller, on the map *)
Definition index_step (events_by_id : gmap Z Coordinator.EventsInSeasonCoordinator.Event)
  (raw : pydict) : gmap Z Coordinator.EventsInSeasonCoordinator.Event :=
  match Coordinator.EventsInSeasonCoordinator.normalize raw with
  | Ok (Some event) => <[Coordinator.EventsInSeasonCoordinator.ID event := event]> events_by_id
  | _ => events_by_id
  end.

(** ** Environments and states for the worked cases *)

Module Scenario.

Definition empty_cache : PlayerCache := {| players := ∅; last_refreshed := PNone |}.

Definition fresh : State := {| player_cache := empty_cache; storage := None; requests := [] |}.

(** A session that answers every request with the same payload *)
Definition answering (payload : pyobj) : Env :=
  {| get_json := fun _ => Ok payload;
     async_save := fun _ => Ok tt;
     utcnow := 0;
     parse_datetime := fun _ => Ok None;
     isoformat := fun _ => "";
     as_local := fun wall => wall |}.

(** A clock at [now] and a store whose stamp reads as [last] *)
Definition clock (now : Z) (last : option Z) : Env :=
  {| get_json := fun _ => Raise (ClientError "offline");
     async_save := fun _ => Ok tt;
     utcnow := now;
     parse_datetime := fun text => if String.eqb text "" then Ok None else Ok (Aware <$> last);
     isoformat := fun _ => "stamp";
     as_local := fun wall => wall |}.

(** A session that answers a player request with [player] and any other
    request with [listing]; [save] is the outcome of every save. *)
Definition provider (listing player : pyobj) (save : result unit) : Env :=
  {| get_json := fun params => if Py.has_key params "p" then Ok player else Ok listing;
     async_save := fun _ => save;
     utcnow := 0;
     parse_datetime := fun _ => Ok None;
     isoformat := fun _ => "";
     as_local := fun wall => wall |}.

(** A session on which every player request fails *)
Definition no_players (listing : pyobj) : Env :=
  {| get_json := fun params =>
       if Py.has_key params "p" then Raise (ClientError "500") else Ok listing;
     async_save := fun _ => Ok tt;
     utcnow := 0;
     parse_datetime := fun _ => Ok None;
     isoformat := fun _ => "";
     as_local := fun wall => wall |}.

(** A clock at [now] and a store whose stamp reads as the wall-clock
    time [wall], with no offset *)
Definition wall_clock (now wall : Z) : Env :=
  {| get_json := fun _ => Raise (ClientError "offline");
     async_save := fun _ => Ok tt;
     utcnow := now;
     parse_datetime := fun text => if String.eqb text "" then Ok None else Ok (Some (Naive wall));
     isoformat := fun _ => "stamp";
     as_local := fun wall => wall |}.

Definition stored (doc : pyobj) : State :=
  {| player_cache := empty_cache; storage := Some doc; requests := [] |}.


Definition cache_of (names : list (Z * string)) : PlayerCache :=
  {| players := list_to_map names; last_refreshed := PNone |}.

Definition three_upcoming : pyobj :=
  PList [PDict [("ScheduledDate", PStr "2024-05-02")];
         PDict [("ScheduledDate", PStr "2024-05-01T10:00")];
         PDict [("ScheduledDate", PStr "2024-05-01T09:00")]].

(** Twenty-six upcoming matches of one date *)
Definition many_upcoming : pyobj :=
  PList (replicate 26 (PDict [("ScheduledDate", PStr "2024-05-01"); ("Player1ID", PInt 5)])).

(** An event with an integer ID, and one whose ID the decoder read from
    [1e999] *)
Definition infinite_event : pydict := [("ID", PFloat (Infinity false)); ("Name", PStr "Open")].

Definition event_with_infinite_id : pyobj :=
  PList [PDict [("ID", PInt 7); ("Name", PStr "Masters")]; PDict infinite_event].

Definition two_events_id_7 : pyobj :=
  PList [PDict [("ID", PInt 7); ("Name", PStr "First"); ("City", PStr "York")];
         PDict [("ID", PInt 7); ("Name", PStr "Second")]].

Definition second_event : Coordinator.EventsInSeasonCoordinator.Event :=
  {| Coordinator.EventsInSeasonCoordinator.ID := 7;
     Coordinator.EventsInSeasonCoordinator.Name := "Second";
     Coordinator.EventsInSeasonCoordinator.City := "";
     Coordinator.EventsInSeasonCoordinator.Venue := "";
     Coordinator.EventsInSeasonCoordinator.Type_ := "";
     Coordinator.EventsInSeasonCoordinator.StartDate := "";
     Coordinator.EventsInSeasonCoordinator.EndDate := "" |}.

Definition stamped (stamp : pyobj) : State :=
  {| player_cache := {| players := ∅; last_refreshed := stamp |};
     storage := None; requests := [] |}.

End Scenario.

(** ** api.py: the waits of [_get_json] *)

Module Retry.

(** What one [session.get] comes to: status 403, a decoded payload, or
    the error raised by the session, by [raise_for_status] or by the
    decoding. *)
Inductive answer : Type :=
| RateLimited
| Answered (payload : pyobj)
| Failed (e : exn).

(** The [while True] loop over the answers the session gives in turn:
    the outcome, the attempts made and the seconds slept.  [None] when
    every answer at hand is a 403: the loop is not over. *)
Fixpoint _get_json (answers : list answer) (attempt : nat) (slept : Z)
  : option (result pyobj * nat * Z) :=
  match answers with
  | [] => None
  | RateLimited :: later => _get_json later (S attempt) (slept + 60)
  | Answered payload :: _ => Some (Ok payload, S attempt, slept)
  | Failed e :: _ => Some (Raise e, S attempt, slept)
  end.

End Retry.

(** ** coordinator.py: SeasonCoordinator *)

Module SeasonCoordinator.

Definition _async_update_data (env : Env) : M pydict :=
  try_except
    (let* payload := Api.get_current_season env in
     ret payload)
    (fun err => raise (UpdateFailed "Failed to fetch current season" err)).

End SeasonCoordinator.

(** ** sensor.py *)

Module Sensor.

Definition UPCOMING_MATCH_ATTR_LIMIT : nat := 25.
Definition EVENT_ATTR_LIMIT : nat := 50.

(** [{"matches": ..., "matches_total": ..., "matches_truncated": ...}] *)
Record MatchAttributes (A : Type) : Type := {
  matches : list A;
  matches_total : nat;
  matches_truncated : bool
}.
Arguments matches {A}.
Arguments matches_total {A}.
Arguments matches_truncated {A}.

(** [{"season": ..., "events": ..., "events_total": ..., "events_truncated": ...}] *)
Record EventAttributes : Type := {
  season : option Z;
  events : list Coordinator.EventsInSeasonCoordinator.Event;
  events_total : nat;
  events_truncated : bool
}.

(** [extra_state_attributes] of the two match sensors, on the
    [matches] of the data, [[]] when there is no data *)
Definition match_attributes {A} (all_matches : list A) : MatchAttributes A :=
  {| matches := take UPCOMING_MATCH_ATTR_LIMIT all_matches;
     matches_total := length all_matches;
     matches_truncated := (UPCOMING_MATCH_ATTR_LIMIT <? length all_matches)%nat |}.

Module CurrentSeasonSensor.

(** [d.get("Season") or d.get("ID")] on the payload of the Season
    poller, [{}] when there is none *)
Definition native_value (data : option pydict) : pyobj :=
  let d := default [] data in
  Py.or_ (Py.get d "Season") (Py.get d "ID").

End CurrentSeasonSensor.

Module UpcomingMatchesSensor.

Definition native_value (data : option Coordinator.UpcomingMatchesCoordinator.Data) : nat :=
  match data with
  | Some d => Coordinator.UpcomingMatchesCoordinator.count d
  | None => 0%nat
  end.

Definition extra_state_attributes (data : option Coordinator.UpcomingMatchesCoordinator.Data)
  : MatchAttributes Coordinator.UpcomingMatchesCoordinator.Match :=
  match_attributes
    (match data with
     | Some d => Coordinator.UpcomingMatchesCoordinator.matches d
     | None => []
     end).

End UpcomingMatchesSensor.

Module CurrentMatchScoresSensor.

Definition native_value (data : option Coordinator.MatchScoresCoordinator.Data) : nat :=
  match data with
  | Some d => Coordinator.MatchScoresCoordinator.count d
  | None => 0%nat
  end.

Definition extra_state_attributes (data : option Coordinator.MatchScoresCoordinator.Data)
  : MatchAttributes Coordinator.MatchScoresCoordinator.Match :=
  match_attributes
    (match data with
     | Some d => Coordinator.MatchScoresCoordinator.matches d
     | None => []
     end).

End CurrentMatchScoresSensor.

Module EventsInSeasonSensor.

Definition native_value (data : option Coordinator.EventsInSeasonCoordinator.Data) : nat :=
  match data with
  | Some d => Coordinator.EventsInSeasonCoordinator.count d
  | None => 0%nat
  end.

Definition extra_state_attributes (data : option Coordinator.EventsInSeasonCoordinator.Data)
  : EventAttributes :=
  let all_events :=
    match data with
    | Some d => Coordinator.EventsInSeasonCoordinator.events d
    | None => []
    end in
  {| season := Coordinator.EventsInSeasonCoordinator.season <$> data;
     events := take EVENT_ATTR_LIMIT all_events;
     events_total := length all_events;
     events_truncated := (EVENT_ATTR_LIMIT <? length all_events)%nat |}.

End EventsInSeasonSensor.

End Sensor.

(** ** calendar.py: the events of one tour's calendar *)

Module SnookerUpcomingCalendar.

Record CalendarEvent : Type := {
  summary : string;
  start : Z;
  end_ : Z;
  description : string;
  location : string
}.

(** [timedelta(hours=n)], in microseconds *)
Definition timedelta_hours (n : Z) : Z := n * 3600 * 1000000.

(** [s.replace(" ", "T")] *)
Fixpoint replace_space_by_T (s : string) : string :=
  match s with
  | EmptyString => EmptyString
  | String c r => String (if Ascii.eqb c " " then "T"%char else c) (replace_space_by_T r)
  end.

(** [dt_util.as_utc(dt) if dt.tzinfo else dt_util.as_utc(dt_util.as_local(dt))] *)
Definition to_utc (env : Env) (dt : datetime) : Z :=
  match dt with
  | Aware instant => instant
  | Naive wall => as_local env wall
  end.

(** [str(info.get(key) or "Unknown")] on a field of the event found,
    [info] being [{}] when none is *)
Definition detail (info : option Coordinator.EventsInSeasonCoordinator.Event)
  (field : Coordinator.EventsInSeasonCoordinator.Event -> string) : string :=
  match info with
  | Some ev => Py.str (Py.or_ (PStr (field ev)) (PStr "Unknown"))
  | None => "Unknown"
  end.

(** [_event_details], on the [EventID] of a published upcoming match:
    [int(None)] raises. *)
Definition _event_details (events_data : option Coordinator.EventsInSeasonCoordinator.Data)
  (event_id : option Z) : string :=
  match event_id with
  | None => "Unknown - Unknown - Unknown - Unknown"
  | Some eid =>
      let event_map := Coordinator.MatchScoresCoordinator.events_map_of events_data in
      let info := event_map !! eid in
      detail info Coordinator.EventsInSeasonCoordinator.Name +:+ " - "
      +:+ detail info Coordinator.EventsInSeasonCoordinator.Type_ +:+ " - "
      +:+ detail info Coordinator.EventsInSeasonCoordinator.City +:+ " - "
      +:+ detail info Coordinator.EventsInSeasonCoordinator.Venue
  end.

Section Entity.
Context (env : Env) (cache : PlayerCache)
  (events_data : option Coordinator.EventsInSeasonCoordinator.Data) (tour_code : string).

(** One turn of the loop over the matches; [Ok None] is [continue]. *)
Definition calendar_event (start_utc end_utc : Z) (m : Coordinator.UpcomingMatchesCoordinator.Match)
  : result (option CalendarEvent) :=
  if negb (String.eqb (Coordinator.UpcomingMatchesCoordinator.Tour m) tour_code) then Ok None
  else
    let raw := Coordinator.UpcomingMatchesCoordinator.ScheduledDate m in
    if negb (Py.truthy (PStr raw)) then Ok None
    else
      let? dt := parse_datetime env (replace_space_by_T (Py.str (PStr raw))) in
      match dt with
      | None => Ok None
      | Some dt =>
          let dt := to_utc env dt in
          if (dt <? start_utc) || (end_utc <? dt) then Ok None
          else
            let p1 := Calendar._resolve_player_name cache (Coordinator.UpcomingMatchesCoordinator.Player1ID m) in
            let p2 := Calendar._resolve_player_name cache (Coordinator.UpcomingMatchesCoordinator.Player2ID m) in
            Ok (Some {| summary := p1 +:+ " vs " +:+ p2;
                        start := dt;
                        end_ := dt + timedelta_hours 2;
                        description :=
                          _event_details events_data (Coordinator.UpcomingMatchesCoordinator.EventID m);
                        location := "" |})
      end.

(** The loop, [events] being appended to *)
Fixpoint collect (start_utc end_utc : Z) (matches : list Coordinator.UpcomingMatchesCoordinator.Match)
  (events : list CalendarEvent) : result (list CalendarEvent) :=
  match matches with
  | [] => Ok events
  | m :: r =>
      let? ev := calendar_event start_utc end_utc m in
      match ev with
      | Some event => collect start_utc end_utc r (events ++ [event])
      | None => collect start_utc end_utc r events
      end
  end.

Definition by_start (x y : CalendarEvent) : bool := (start x <=? start y).

Definition _collect_events (data : option Coordinator.UpcomingMatchesCoordinator.Data)
  (start_date end_date : datetime) : result (list CalendarEvent) :=
  let start_utc := to_utc env start_date in
  let end_utc := to_utc env end_date in
  let matches :=
    match data with
    | Some d => Coordinator.UpcomingMatchesCoordinator.matches d
    | None => []
    end in
  let? events := collect start_utc end_utc matches [] in
  Ok (Py.sorted by_start events).

(** The [event] property: the first of the events of the 365 days from now *)
Definition event (data : option Coordinator.UpcomingMatchesCoordinator.Data)
  : result (option CalendarEvent) :=
  let now := utcnow env in
  let? upcoming :=
    _collect_events data (Aware now) (Aware (now + Coordinator.timedelta_days 365)) in
  Ok (head upcoming).
End Entity.

End SnookerUpcomingCalendar.

(** ** More relations and statements *)

(** The persisted record is what it was. *)
Definition same_store (s s' : State) : Prop := storage s' = storage s.

(** Neither the cache nor the persisted record has changed. *)
Definition untouched (s s' : State) : Prop :=
  player_cache s' = player_cache s /\ storage s' = storage s.



(** A ranking row [r] as published, [o]: [PlayerName] is the name cached
    for the id of the row when there is one and it is not empty, and [#]
    and the id otherwise; nothing else is touched. *)
Definition ranking_row_named (cache : PlayerCache) (r o : pydict) : Prop :=
  exists pid name,
    Coordinator.RankingsCoordinator.row_pid r = Ok pid
    /\ o = Py.setitem r "PlayerName" (PStr name)
    /\ (forall cached, players cache !! pid = Some cached -> cached <> "" -> name = cached)
    /\ (players cache !! pid = None \/ players cache !! pid = Some "" ->
        name = "#" +:+ Py.str (PInt pid)).

(** The name published with the player id [pid] of a match, the cache
    being [start] when the cycle begins and [finish] when it ends, and
    [filled] telling whether the backfill of the cycle went through. *)
Definition match_name_from (start finish : PlayerCache) (filled : bool)
  (pid : option Z) (name : string) : Prop :=
  (forall n, pid = Some n -> n <> 0 ->
     match players start !! n with
     | Some cached => name = cached
     | None => if filled then players finish !! n = Some name
               else name = "#" +:+ Py.str (PInt n)
     end)
  /\ (pid = None \/ pid = Some 0 -> players start !! (-1) = None -> name = "TBD").

(** The persisted record is the in-memory cache. *)
Definition in_sync (s : State) : Prop := storage s = Some (Coordinator.dump (player_cache s)).

(** The value of a decimal numeral read from the left, on top of [acc] *)
Fixpoint uint_val (d : Decimal.uint) (acc : Z) : Z :=
  match d with
  | Decimal.Nil => acc
  | Decimal.D0 r => uint_val r (10 * acc + 0)
  | Decimal.D1 r => uint_val r (10 * acc + 1)
  | Decimal.D2 r => uint_val r (10 * acc + 2)
  | Decimal.D3 r => uint_val r (10 * acc + 3)
  | Decimal.D4 r => uint_val r (10 * acc + 4)
  | Decimal.D5 r => uint_val r (10 * acc + 5)
  | Decimal.D6 r => uint_val r (10 * acc + 6)
  | Decimal.D7 r => uint_val r (10 * acc + 7)
  | Decimal.D8 r => uint_val r (10 * acc + 8)
  | Decimal.D9 r => uint_val r (10 * acc + 9)
  end.

(** The request for one player *)
Definition player_request (pid : Z) : pydict := [("p", PInt pid)].

(** The state once the requests [sent] (latest first) have gone out *)
Definition after_requests (s : State) (sent : list pydict) : State :=
  {| player_cache := player_cache s; storage := storage s; requests := sent ++ requests s |}.

(** Earlier date first, and the smaller id first on the same date *)
Definition date_then_id (x y : Coordinator.MatchScoresCoordinator.Match) : Prop :=
  String.ltb (Coordinator.MatchScoresCoordinator.ScheduledDate x)
    (Coordinator.MatchScoresCoordinator.ScheduledDate y) = true
  \/ (Coordinator.MatchScoresCoordinator.ScheduledDate x
      = Coordinator.MatchScoresCoordinator.ScheduledDate y
      /\ Coordinator.MatchScoresCoordinator.MatchID x
         <= Coordinator.MatchScoresCoordinator.MatchID y).

(** Where a computation leaves the persisted record: as it was, or
    equal to the cache in memory. *)
Definition settles {A} (m : M A) : Prop :=
  forall s, same_store s (snd (m s)) \/ in_sync (snd (m s)).

(** An error leaves the persisted record, or the cache, as it was. *)
Definition failure_keeps (R : relation State) {A} (m : M A) : Prop :=
  forall s e s', m s = (Raise e, s') -> R s s'.

(** A session as [Scenario.provider] with a store that works, a clock at
    [now], and a stamp that is written as ["stamp"] and read as the
    instant [0] *)
Definition serving (listing player : pyobj) (now : Z) : Env :=
  {| get_json := fun params => if Py.has_key params "p" then Ok player else Ok listing;
     async_save := fun _ => Ok tt;
     utcnow := now;
     parse_datetime := fun text => if String.eqb text "stamp" then Ok (Some (Aware 0)) else Ok None;
     isoformat := fun _ => "stamp";
     as_local := fun wall => wall |}.

(** A computation sends at most [n] requests. *)
Definition sends_at_most (n : nat) {A} (m : M A) : Prop :=
  forall s, (length (requests (snd (m s))) <= length (requests s) + n)%nat.

(** * Properties *)

(** ** The Python layer on concrete inputs *)

Example py_int_examples :
  Py.int (PStr " 55 ") = Ok 55 /\ Py.int (PStr "5_5") = Ok 55 /\ Py.int (PStr "-0") = Ok 0
  /\ Py.int (PStr "abc") = Raise (ValueError "invalid literal for int() with base 10: 'abc'")
  /\ Py.int (PStr "5__5") = Raise (ValueError "invalid literal for int() with base 10: '5__5'")
  /\ Py.int PNone = Raise TypeError /\ Py.int (PBool true) = Ok 1.
Proof. repeat split; reflexivity. Qed.

Example py_str_examples :
  Py.str (PList [PInt 1; PStr "a"; PNone; PDict [("k", PStr "v")]]) = "[1, 'a', None, {'k': 'v'}]"
  /\ Py.str (PInt (-3)) = "-3" /\ Py.str (PDict []) = "{}" /\ Py.repr (PStr "it's") = String Py.dquote ("it's" +:+ String Py.dquote "")
  /\ Py.strip "  Ronnie " = "Ronnie".
Proof. repeat split; reflexivity. Qed.

Example name_examples :
  Coordinator._player_name_from_payload [("FirstName", PStr "Ronnie"); ("LastName", PStr "O'Sullivan")]
  = "Ronnie O'Sullivan"
  /\ Coordinator._player_name_from_payload [("ID", PInt 42)] = "Player 42"
  /\ Coordinator._player_name_from_payload [] = "Player ?"
  /\ Coordinator._player_name_from_payload [("FirstName", PStr "Ronnie")] = "Ronnie"
  /\ Coordinator._player_name_from_payload [("FirstName", PNone); ("LastName", PStr "X")] = "None X".
Proof. repeat split; reflexivity. Qed.

Example season_examples :
  Coordinator._extract_season [("SeasonID", PStr "55")] = Ok 55
  /\ Coordinator._extract_season [("Season", PStr "x"); ("ID", PInt 2024)] = Ok 2024
  /\ Coordinator._extract_season [("a", PInt 1); ("Season", PStr "")]
     = Raise (ValueError "No usable season value in payload keys=['a', 'Season']").
Proof. repeat split; reflexivity. Qed.

Example upcoming_normalize_examples :
  Coordinator.UpcomingMatchesCoordinator.normalize
    [("ScheduledDate", PStr "2024-05-02"); ("Player1ID", PInt 5); ("P2", PStr "17"); ("Tour", PStr "main")]
  = Some {| Coordinator.UpcomingMatchesCoordinator.Tour := "main";
            Coordinator.UpcomingMatchesCoordinator.EventID := None;
            Coordinator.UpcomingMatchesCoordinator.ScheduledDate := "2024-05-02";
            Coordinator.UpcomingMatchesCoordinator.Player1ID := Some 5;
            Coordinator.UpcomingMatchesCoordinator.Player2ID := Some 17 |}
  /\ Coordinator.UpcomingMatchesCoordinator.normalize [("Player1ID", PInt 5)] = None.
Proof. split; reflexivity. Qed.

(** ** Shapes returned by the API client *)

Import Coordinator.

Lemma first_dict_shapes (d : pydict) (rest : list pyobj) :
  Api._first_dict (PDict d) = d
  /\ Api._first_dict (PList (PDict d :: rest)) = d
  /\ Api._first_dict (PList []) = []
  /\ Api._first_dict PNone = []
  /\ (forall b, Api._first_dict (PBool b) = [])
  /\ (forall n, Api._first_dict (PInt n) = [])
  /\ (forall t, Api._first_dict (PStr t) = []).
Proof. repeat split. Qed.

Lemma as_list_members (l : list pyobj) (d : pydict) :
  d ∈ Api._as_list (PList l) <-> PDict d ∈ l.
Proof.
  unfold Api._as_list. rewrite list_elem_of_omap. split.
  - intros (x & Hx & Hd). destruct x; try discriminate. by inversion Hd; subst.
  - intros Hd. by exists (PDict d).
Qed.

Lemma as_list_wraps (d : pydict) : Api._as_list (PDict d) = [d].
Proof. reflexivity. Qed.

Lemma get_upcoming_matches_verbatim env tour s :
  fst (Api.get_upcoming_matches env tour s) = get_json env (Api.with_tour [("t", PInt 14)] tour).
Proof. reflexivity. Qed.

Lemma get_current_matches_normalized env tour s payload :
  get_json env (Api.with_tour [("t", PInt 17)] tour) = Ok payload ->
  fst (Api.get_current_matches env tour s) = Ok (Api._as_list payload).
Proof. intros H. unfold Api.get_current_matches, Api._get_json, bind. simpl. by rewrite H. Qed.

(** C1, at the input that breaks it: the upcoming-matches method hands a
    bare object back as it came, where the near-live method wraps the same
    payload in a one-element list; a list with a non-object member comes
    back with that member still in it; and the Upcoming-Matches poller
    fed the bare object ends its cycle in [UpdateFailed]. *)
Theorem upcoming_matches_payload_not_normalized :
  let bare := PDict [("ID", PInt 1); ("ScheduledDate", PStr "2024-05-01")] in
  let mixed := PList [PInt 3; bare] in
  fst (Api.get_upcoming_matches (Scenario.answering bare) (Some "main") Scenario.fresh) = Ok bare
  /\ fst (Api.get_current_matches (Scenario.answering bare) (Some "main") Scenario.fresh)
     = Ok [[("ID", PInt 1); ("ScheduledDate", PStr "2024-05-01")]]
  /\ fst (Api.get_upcoming_matches (Scenario.answering mixed) (Some "main") Scenario.fresh) = Ok mixed
  /\ fst (Api.get_matches_of_event (Scenario.answering bare) 7 Scenario.fresh) = Ok bare
  /\ fst (UpcomingMatchesCoordinator._async_update_data (Scenario.answering bare) ["main"] Scenario.fresh)
     = Raise (UpdateFailed "Failed to fetch upcoming matches" TypeError).
Proof. repeat split; vm_compute; reflexivity. Qed.

(** ** Numeric fields of a raw match *)

Lemma py_int_raises v e :
  Py.int v = Raise e ->
  e = TypeError \/ (exists msg, e = ValueError msg)
  \/ (e = OverflowError /\ exists negative, v = PFloat (Infinity negative)).
Proof.
  destruct v as [|b|n|t|l|d|f]; simpl; try (intros [= <-]; by left); try discriminate.
  - destruct (Py.int_of_str t); [discriminate|]. intros [= <-]. right. left. eauto.
  - destruct f as [m x c r|negative|]; [discriminate | |].
    + intros [= <-]. right. right. eauto.
    + intros [= <-]. right. left. eauto.
Qed.

Lemma match_scores_as_int_raises v e :
  MatchScoresCoordinator.as_int v = Raise e ->
  e = OverflowError /\ exists negative, v = PFloat (Infinity negative).
Proof.
  unfold MatchScoresCoordinator.as_int. destruct (none_or_empty v); [discriminate|].
  destruct (Py.int v) as [n|e'] eqn:E; [discriminate|].
  destruct (py_int_raises _ _ E) as [->|[[msg ->]|[-> Hv]]]; try discriminate.
  by intros [= <-].
Qed.

(** C2, at the input that breaks it: a raw match whose [Score1] is the
    text [abc] makes [int()] raise, no field value is produced, and the
    whole cycle of the Match-Scores poller ends in [UpdateFailed]; the
    same text in [Player1ID], which goes through [as_int], gives [None]. *)
Theorem match_scores_score_field_raises :
  let m := [("ID", PInt 1); ("Score1", PStr "abc")] in
  MatchScoresCoordinator.build_match Scenario.empty_cache ∅ m
  = Raise (ValueError "invalid literal for int() with base 10: 'abc'")
  /\ fst (MatchScoresCoordinator._async_update_data (Scenario.answering (PList [PDict m]))
            ["main"] None Scenario.fresh)
     = Raise (UpdateFailed "Failed to fetch current match scores"
                (ValueError "invalid literal for int() with base 10: 'abc'"))
  /\ MatchScoresCoordinator.as_int (PStr "abc") = Ok None.
Proof. repeat split; vm_compute; reflexivity. Qed.

(** ** Season extraction *)

Lemma get_find (payload : pydict) key :
  Py.get payload key = default PNone (Py.find payload key).
Proof. unfold Py.get, Py.get_or. by destruct (Py.find payload key). Qed.

Lemma usable_season_int payload key :
  Spec.usable_season payload key =
  if none_or_empty (Py.get payload key) then None
  else match Py.int (Py.get payload key) with Ok n => Some n | Raise _ => None end.
Proof.
  rewrite get_find. unfold Spec.usable_season.
  destruct (Py.find payload key) as [v|]; [|reflexivity].
  destruct v as [|b|n|t|l|d|f]; try reflexivity. by destruct t.
Qed.

Lemma season_from_first_usable payload keys :
  Forall (fun key => Spec.is_infinite (Py.get payload key) = false) keys ->
  season_from payload keys =
  match head (omap (Spec.usable_season payload) keys) with
  | Some n => Ok n
  | None =>
      Raise (ValueError ("No usable season value in payload keys="
                         +:+ Py.repr (PList (List.map PStr (Py.keys payload)))))
  end.
Proof.
  induction 1 as [|key keys Hkey _ IH]; [reflexivity|].
  cbn [season_from omap list_omap]. rewrite usable_season_int.
  destruct (none_or_empty (Py.get payload key)); [exact IH|].
  destruct (Py.int (Py.get payload key)) as [n|e] eqn:E; [reflexivity|].
  destruct (py_int_raises _ _ E) as [->|[[msg ->]|[-> [negative Hv]]]]; try exact IH.
  rewrite Hv in Hkey. discriminate.
Qed.

Lemma season_from_infinite payload before key rest :
  Forall (fun k => Spec.usable_season payload k = None
                   /\ Spec.is_infinite (Py.get payload k) = false) before ->
  Spec.is_infinite (Py.get payload key) = true ->
  season_from payload (before ++ key :: rest) = Raise OverflowError.
Proof.
  intros Hbefore Hkey. induction Hbefore as [|k before [Hk Hfin] _ IH].
  - cbn [app season_from].
    destruct (Py.get payload key) as [| | | | | |[| |]]; try discriminate. reflexivity.
  - cbn [app season_from]. rewrite usable_season_int in Hk.
    destruct (none_or_empty (Py.get payload k)); [exact IH|].
    destruct (Py.int (Py.get payload k)) as [n|e] eqn:E; [discriminate|].
    destruct (py_int_raises _ _ E) as [->|[[msg ->]|[-> [negative Hv]]]]; try exact IH.
    rewrite Hv in Hfin. discriminate.
Qed.

(** C3, at the inputs that break it.  An infinite [float], which the
    decoder reads from [1e999], under the first candidate key that holds
    something makes [int()] raise [OverflowError]; the handler of
    [_extract_season] is for [TypeError] and [ValueError] only, so the
    error leaves the function whatever the later keys hold: with
    [Season: 1e999] and [ID: 2024] the wording gives 2024, and with
    [Season: 1e999] alone it gives the error that lists the keys, while
    the code raises [OverflowError] in both cases.  On every payload that
    has no infinite [float] under a candidate key the code does what the
    wording says, [SeasonID: "55"] giving 55 and a payload with nothing
    usable the error that names its keys. *)
Theorem extract_season_overflow_escapes :
  (forall payload before key rest,
     Spec.season_keys = before ++ key :: rest ->
     Forall (fun k => Spec.usable_season payload k = None
                      /\ Spec.is_infinite (Py.get payload k) = false) before ->
     Spec.is_infinite (Py.get payload key) = true ->
     _extract_season payload = Raise OverflowError)
  /\ (let payload := [("Season", PFloat (Infinity false)); ("ID", PInt 2024)] in
      _extract_season payload = Raise OverflowError
      /\ Spec.season_outcome payload = Ok 2024)
  /\ (let payload := [("Season", PFloat (Infinity false))] in
      _extract_season payload = Raise OverflowError
      /\ Spec.season_outcome payload
         = Raise (ValueError "No usable season value in payload keys=['Season']"))
  /\ (forall payload,
        Forall (fun key => Spec.is_infinite (Py.get payload key) = false) Spec.season_keys ->
        _extract_season payload = Spec.season_outcome payload)
  /\ _extract_season [("SeasonID", PStr "55")] = Ok 55
  /\ _extract_season [("Name", PStr "x"); ("Season", PStr ""); ("ID", PStr "n/a")]
     = Raise (ValueError "No usable season value in payload keys=['Name', 'Season', 'ID']").
Proof.
  split; [|split; [|split; [|split; [|split]]]]; try (split; reflexivity); try reflexivity.
  - intros payload before key rest Hkeys Hbefore Hkey.
    unfold _extract_season. change ["Season"; "ID"; "CurrentSeason"; "SeasonID"] with Spec.season_keys.
    rewrite Hkeys. by apply season_from_infinite.
  - intros payload Hfinite. by apply season_from_first_usable.
Qed.

Lemma extract_season_overflow_escapes_witness :
  let payload := [("Season", PStr ""); ("ID", PFloat (Infinity true)); ("SeasonID", PInt 7)] in
  _extract_season payload = Raise OverflowError
  /\ _extract_season [("Season", PFloat (Finite 253 3 "2" "024.0"))] = Ok 2024.
Proof.
  intros payload. split.
  - apply (proj1 extract_season_overflow_escapes payload ["Season"] "ID"
             ["CurrentSeason"; "SeasonID"]); [reflexivity | | reflexivity].
    constructor; [split; reflexivity | constructor].
  - destruct extract_season_overflow_escapes as (_ & _ & _ & Hrest & _).
    rewrite Hrest; [reflexivity|]. repeat constructor.
Defined.

(** ** Name resolution *)



Lemma truthy_str_eqb t : Py.truthy (PStr t) = negb (String.eqb t "").
Proof. reflexivity. Qed.



(** ** What a computation leaves alone

    For a preorder [R], [respects R] goes through sequencing, handlers
    and loops, so it is enough to check the primitive steps. *)

Section Respects.
Context (R : relation State) `{!PreOrder R}.
#[local] Abbreviation respects := (respects R).

Lemma respects_ret {A} (a : A) : respects (ret a).
Proof. intros s. reflexivity. Qed.

Lemma respects_raise {A} e : respects (@raise A e).
Proof. intros s. reflexivity. Qed.

Lemma respects_lift {A} (r : result A) : respects (lift r).
Proof. intros s. reflexivity. Qed.

Lemma respects_get_cache : respects get_cache.
Proof. intros s. reflexivity. Qed.

Lemma respects_bind {A B} (m : M A) (k : A -> M B) :
  respects m -> (forall a, respects (k a)) -> respects (bind m k).
Proof.
  intros Hm Hk s. unfold bind. specialize (Hm s).
  destruct (m s) as [[a|e] s1]; simpl in *; [|done].
  etrans; [exact Hm | apply Hk].
Qed.

Lemma respects_try_except {A} (m : M A) h :
  respects m -> (forall e, respects (h e)) -> respects (try_except m h).
Proof.
  intros Hm Hh s. unfold try_except. specialize (Hm s).
  destruct (m s) as [[a|e] s1]; simpl in *; [done|].
  etrans; [exact Hm | apply Hh].
Qed.

Lemma respects_if {A} (b : bool) (m1 m2 : M A) :
  respects m1 -> respects m2 -> respects (if b then m1 else m2).
Proof. by destruct b. Qed.

Lemma respects_for_each {A} (xs : list A) body :
  (forall x, respects (body x)) -> respects (for_each xs body).
Proof.
  intros Hb. induction xs as [|x xs IH]; simpl.
  - apply respects_ret.
  - apply respects_bind; [apply Hb | intros _; exact IH].
Qed.
End Respects.

(** ** Composite steps

    A relation that the four primitive steps respect is respected by
    every poller and by the monthly refresh. *)

Ltac respects_step :=
  first
    [ apply respects_bind; [apply _ | | intros ?]
    | apply respects_try_except; [apply _ | | intros ?]
    | apply respects_ret; apply _
    | apply respects_raise; apply _
    | apply respects_lift; apply _
    | apply respects_get_cache; apply _
    | apply respects_for_each; [apply _ | intros ?]
    | match goal with |- respects _ (if ?b then _ else _) => destruct b end
    | match goal with |- respects _ (match ?x with _ => _ end) => destruct x end ].

Section Composite.
Context (R : relation State) `{!PreOrder R}.
Hypothesis R_request : forall env params, respects R (Api._get_json env params).
Hypothesis R_save : forall env cache, respects R (save_player_cache env cache).
Hypothesis R_name :
  forall pid p, respects R (set_player_name pid (_player_name_from_payload p)).
Hypothesis R_stamp : forall stamp, respects R (set_last_refreshed stamp).

Lemma respects_paced_player_fetch env ids : respects R (Api.paced_player_fetch env ids).
Proof.
  unfold Api.paced_player_fetch. generalize (@nil (Z * pydict)) as out.
  induction ids as [|pid ids IH]; intros out; simpl; [by respects_step|].
  respects_step; [|apply IH]. unfold Api.get_player. repeat (respects_step || apply R_request).
Qed.

Lemma respects_store_names payload : respects R (store_names payload).
Proof. unfold store_names. respects_step. apply R_name. Qed.



End Composite.

(** ** Requests sent *)

#[local] Instance sent_more_preorder : PreOrder sent_more.
Proof.
  split.
  - intros s. by exists [].
  - intros s1 s2 s3 [l1 H1] [l2 H2]. exists (l2 ++ l1). by rewrite H2, H1, app_assoc.
Qed.

Lemma sent_more_get_json env params : respects sent_more (Api._get_json env params).
Proof. intros s. by exists [params]. Qed.

Lemma sent_more_same_requests {A} (m : M A) :
  (forall s, requests (snd (m s)) = requests s) -> respects sent_more m.
Proof. intros H s. exists []. by rewrite H. Qed.

Lemma save_same_requests env cache s :
  requests (snd (save_player_cache env cache s)) = requests s.
Proof. unfold save_player_cache. by destruct (async_save env (dump cache)). Qed.

Lemma refresh_sends_season_request env s :
  exists later,
    requests (snd (refresh_player_cache env s)) = later ++ [("t", PInt 20)] :: requests s.
Proof.
  unfold refresh_player_cache, Api.get_current_season.
  set (rest := fun season_payload : pydict => bind _ _).
  assert (Hrest : forall sp, respects sent_more (rest sp)).
  { intros sp. unfold rest.
    repeat first
      [ apply respects_bind; [apply _ | | intros ?]
      | apply respects_lift; apply _
      | apply respects_get_cache; apply _
      | apply respects_store_names; [apply _ | by intros; apply sent_more_same_requests]
      | apply respects_paced_player_fetch; [apply _ | apply sent_more_get_json]
      | apply sent_more_get_json
      | apply respects_ret; apply _
      | apply sent_more_same_requests; intros ?; apply save_same_requests
      | by apply sent_more_same_requests ]. }
  unfold bind at 1. unfold bind at 1. unfold Api._get_json at 1. simpl.
  destruct (get_json env [("t", PInt 20)]) as [payload|e]; simpl.
  - destruct (Hrest (Api._first_dict payload)
                {| player_cache := player_cache s; storage := storage s;
                   requests := [("t", PInt 20)] :: requests s |}) as [later H].
    exists later. exact H.
  - by exists [].
Qed.

(** ** The monthly refresh *)

Lemma skip_refresh_not_due env cache :
  (forall t, parse_datetime env "" <> Ok (Some t)) ->
  skip_refresh env cache =
  if Spec.no_offset env cache then Raise TypeError
  else Ok (negb (Spec.refresh_due env cache)).
Proof.
  intros Hempty.
  unfold skip_refresh, Spec.no_offset, Spec.refresh_due, Spec.read_stamp, parse_last.
  unfold timedelta_days, MONTHLY_REFRESH_DAYS, Spec.thirty_days.
  destruct (last_refreshed cache) as [|b|n|text|l|d|f]; simpl;
    try reflexivity; try (by destruct b); try (by destruct (negb _));
    try (by destruct l); try (by destruct d); try (by destruct f as [? ? ? ?| |]; try destruct (negb _)).
  destruct (String.eqb_spec text "") as [->|Hne]; simpl.
  - destruct (parse_datetime env "") as [[t|]|e] eqn:E; try reflexivity.
    by destruct (Hempty t).
  - destruct (parse_datetime env text) as [[[t|w]|]|e]; try reflexivity.
    rewrite Z.ltb_antisym. reflexivity.
Qed.

Lemma maybe_refresh_unfold env s :
  maybe_refresh_player_cache_monthly env s =
  match skip_refresh env (player_cache s) with
  | Ok true => (Ok tt, s)
  | Ok false => refresh_player_cache env s
  | Raise e => (Raise e, s)
  end.
Proof.
  unfold maybe_refresh_player_cache_monthly, bind, get_cache, lift.
  by destruct (skip_refresh env (player_cache s)) as [[|]|e].
Qed.

(** C4, at the input that breaks it.  A stamp that reads as a datetime
    with no offset, as [2024-04-02T00:00:00] does, is subtracted from a
    [now] that has one, outside the [try]: the call raises [TypeError]
    before any request is sent and leaves cache and store as they were,
    so it neither skips nor refreshes, whatever the age of the stamp.  On
    every other stamp the refresh runs exactly when it is due: with no
    stamp, with a stamp that cannot be read, or with thirty days of
    elapsed time or more between the stamp and now.  Not due, the call
    returns with cache, store and session untouched; due, it is the
    refresh, whose first step is the current-season request.  A stamp 29
    days old skips, one 31 days old or [None] refreshes.  The empty text
    is taken not to be a date. *)
Theorem monthly_refresh_raises_on_stamp_without_offset (env : Env) (s : State) :
  (forall t, parse_datetime env "" <> Ok (Some t)) ->
  let run := maybe_refresh_player_cache_monthly env s in
  (Spec.no_offset env (player_cache s) = true -> run = (Raise TypeError, s))
  /\ (Spec.no_offset env (player_cache s) = false ->
      (Spec.refresh_due env (player_cache s) = true <->
         exists later, requests (snd run) = later ++ [("t", PInt 20)] :: requests s)
      /\ (Spec.refresh_due env (player_cache s) = false -> run = (Ok tt, s))
      /\ (Spec.refresh_due env (player_cache s) = true -> run = refresh_player_cache env s))
  /\ (forall text,
        last_refreshed (player_cache s) = PStr text ->
        parse_datetime env text = Ok (Some (Aware (utcnow env - timedelta_days 29))) ->
        run = (Ok tt, s))
  /\ (forall text,
        last_refreshed (player_cache s) = PStr text ->
        parse_datetime env text = Ok (Some (Aware (utcnow env - timedelta_days 31))) ->
        run = refresh_player_cache env s)
  /\ (last_refreshed (player_cache s) = PNone -> run = refresh_player_cache env s).
Proof.
  intros Hempty run.
  assert (Hraise : Spec.no_offset env (player_cache s) = true -> run = (Raise TypeError, s)).
  { intros Hno. unfold run. rewrite maybe_refresh_unfold, skip_refresh_not_due by done.
    by rewrite Hno. }
  assert (Hskip : Spec.no_offset env (player_cache s) = false ->
                  Spec.refresh_due env (player_cache s) = false -> run = (Ok tt, s)).
  { intros Hno Hdue. unfold run. rewrite maybe_refresh_unfold, skip_refresh_not_due by done.
    by rewrite Hno, Hdue. }
  assert (Hrun : Spec.no_offset env (player_cache s) = false ->
                 Spec.refresh_due env (player_cache s) = true ->
                 run = refresh_player_cache env s).
  { intros Hno Hdue. unfold run. rewrite maybe_refresh_unfold, skip_refresh_not_due by done.
    by rewrite Hno, Hdue. }
  split; [exact Hraise|]. split; [|repeat split].
  - intros Hno. split; [|split; [by apply Hskip | by apply Hrun]]. split.
    + intros Hdue. rewrite (Hrun Hno Hdue). apply refresh_sends_season_request.
    + intros [later Hlater]. destruct (Spec.refresh_due env (player_cache s)) eqn:E; [done|].
      rewrite (Hskip Hno eq_refl) in Hlater. simpl in Hlater.
      apply (f_equal length) in Hlater. rewrite length_app in Hlater. simpl in Hlater. lia.
  - intros text Hstamp Hparse. apply Hskip.
    + unfold Spec.no_offset, Spec.read_stamp. by rewrite Hstamp, Hparse.
    + unfold Spec.refresh_due, Spec.read_stamp. rewrite Hstamp, Hparse.
      unfold Spec.thirty_days, timedelta_days. apply Z.leb_gt. lia.
  - intros text Hstamp Hparse. apply Hrun.
    + unfold Spec.no_offset, Spec.read_stamp. by rewrite Hstamp, Hparse.
    + unfold Spec.refresh_due, Spec.read_stamp. rewrite Hstamp, Hparse.
      unfold Spec.thirty_days, timedelta_days. apply Z.leb_le. lia.
  - intros Hstamp. apply Hrun.
    + unfold Spec.no_offset, Spec.read_stamp. by rewrite Hstamp.
    + unfold Spec.refresh_due, Spec.read_stamp. by rewrite Hstamp.
Qed.

Lemma monthly_refresh_raises_on_stamp_without_offset_witness :
  let env := Scenario.wall_clock (timedelta_days 40) (timedelta_days 39) in
  let s := Scenario.stamped (PStr "2024-04-02T00:00:00") in
  (forall t, parse_datetime env "" <> Ok (Some t))
  /\ Spec.refresh_due env (player_cache s) = false
  /\ maybe_refresh_player_cache_monthly env s = (Raise TypeError, s)
  /\ maybe_refresh_player_cache_monthly
       (Scenario.clock (timedelta_days 40) (Some (timedelta_days 11)))
       (Scenario.stamped (PStr "2024-01-01T00:00:00+00:00"))
     = (Ok tt, Scenario.stamped (PStr "2024-01-01T00:00:00+00:00")).
Proof.
  intros env s.
  assert (Hempty : forall t, parse_datetime env "" <> Ok (Some t)) by (intros t; discriminate).
  split; [exact Hempty|]. split; [reflexivity|]. split.
  - by apply (proj1 (monthly_refresh_raises_on_stamp_without_offset env s Hempty)).
  - set (env' := Scenario.clock _ _). set (s' := Scenario.stamped _).
    assert (Hempty' : forall t, parse_datetime env' "" <> Ok (Some t)) by (intros t; discriminate).
    destruct (monthly_refresh_raises_on_stamp_without_offset env' s' Hempty')
      as (_ & _ & H29 & _).
    apply (H29 "2024-01-01T00:00:00+00:00"); reflexivity.
Defined.

(** ** Names attached from the cache *)

Lemma map_result_Forall2 {A B} (f : A -> result B) xs ys :
  map_result f xs = Ok ys -> Forall2 (fun x y => f x = Ok y) xs ys.
Proof.
  revert ys. induction xs as [|x xs IH]; intros ys; simpl.
  - intros [= <-]. constructor.
  - destruct (f x) as [y|e] eqn:Ex; simpl; [|discriminate].
    destruct (map_result f xs) as [ys'|e]; simpl; [|discriminate].
    intros [= <-]. constructor; [exact Ex | by apply IH].
Qed.

Lemma map_result_total {A B} (f : A -> result B) xs :
  Forall (fun x => is_ok (f x) = true) xs -> is_ok (map_result f xs) = true.
Proof.
  induction 1 as [|x xs Hx _ IH]; simpl; [reflexivity|].
  destruct (f x); [|discriminate]. simpl.
  destruct (map_result f xs); [reflexivity | discriminate].
Qed.

#[local] Instance same_cache_preorder : PreOrder same_cache.
Proof.
  split; [by intros s|]. intros s1 s2 s3 H1 H2. unfold same_cache in *. congruence.
Qed.

Lemma same_cache_get_json env params : respects same_cache (Api._get_json env params).
Proof. by intros s. Qed.

Lemma rankings_cache_untouched env season_coord_data s :
  player_cache (snd (RankingsCoordinator._async_update_data env season_coord_data s))
  = player_cache s.
Proof.
  revert s. change (respects same_cache (RankingsCoordinator._async_update_data env season_coord_data)).
  unfold RankingsCoordinator._async_update_data, season_payload_of,
    Api.get_current_season, Api.get_rankings.
  apply respects_try_except; [apply _| |intros; apply respects_raise; apply _].
  repeat first
    [ apply respects_bind; [apply _ | | intros ?]
    | apply respects_lift; apply _
    | apply respects_get_cache; apply _
    | apply same_cache_get_json
    | apply respects_ret; apply _
    | match goal with |- respects _ (match ?x with _ => _ end) => destruct x end
    | apply respects_if; [apply _ | |] ].
Qed.

Lemma player_name_nonzero cache n :
  n <> 0 ->
  MatchScoresCoordinator.player_name cache (Some n) = Spec.cached_or_hash cache n.
Proof.
  intros Hn. unfold MatchScoresCoordinator.player_name, Spec.cached_or_hash. simpl.
  destruct (Z.eqb_spec n 0) as [|_]; [done|]. by destruct (players cache !! n).
Qed.

Lemma build_match_fields cache em m x :
  MatchScoresCoordinator.build_match cache em m = Ok x ->
  MatchScoresCoordinator.as_int (Py.get m "Player1ID") = Ok (MatchScoresCoordinator.Player1ID x)
  /\ MatchScoresCoordinator.as_int (Py.get m "Player2ID") = Ok (MatchScoresCoordinator.Player2ID x)
  /\ MatchScoresCoordinator.Player1Name x
     = MatchScoresCoordinator.player_name cache (MatchScoresCoordinator.Player1ID x)
  /\ MatchScoresCoordinator.Player2Name x
     = MatchScoresCoordinator.player_name cache (MatchScoresCoordinator.Player2ID x).
Proof.
  unfold MatchScoresCoordinator.build_match.
  destruct (MatchScoresCoordinator.as_int (Py.get m "Player1ID")) as [p1|]; simpl; [|discriminate].
  destruct (MatchScoresCoordinator.as_int (Py.get m "Player2ID")) as [p2|]; simpl; [|discriminate].
  destruct (MatchScoresCoordinator.as_int (Py.get m "EventID")) as [ev|]; simpl; [|discriminate].
  destruct (Py.int (Py.or_ (Py.get m "ID") _)); simpl; [|discriminate].
  destruct (Py.int (Py.or_ (Py.get m "Score1") _)); simpl; [|discriminate].
  destruct (Py.int (Py.or_ (Py.get m "Score2") _)); simpl; [|discriminate].
  destruct (Py.int (Py.or_ (Py.get m "Status") _)); simpl; [|discriminate].
  intros [= <-]. simpl. done.
Qed.

(** ** Sorting *)

Section SortedFacts.
Context {A : Type} (le : A -> A -> bool).
Hypothesis le_total : forall x y, le x y = false -> le y x = true.

Let R (x y : A) : Prop := le x y = true.

Lemma insert_sorted_perm x l : Py.insert_sorted le x l ≡ₚ x :: l.
Proof.
  induction l as [|y l IH]; simpl; [done|].
  destruct (le x y); [done|]. rewrite IH. apply Permutation_swap.
Qed.

Lemma sorted_perm l : Py.sorted le l ≡ₚ l.
Proof.
  induction l as [|x l IH]; simpl; [done|].
  by rewrite insert_sorted_perm, IH.
Qed.

Lemma sorted_length l : length (Py.sorted le l) = length l.
Proof. by rewrite sorted_perm. Qed.

Lemma insert_sorted_Sorted x l : Sorted R l -> Sorted R (Py.insert_sorted le x l).
Proof.
  induction 1 as [|y l Hl IH Hhd]; simpl.
  - repeat constructor.
  - destruct (le x y) eqn:E.
    + constructor; [by constructor | by constructor].
    + constructor; [exact IH|].
      destruct Hhd as [|z l' Hyz]; simpl.
      * constructor. by apply le_total.
      * destruct (le x z); constructor; [by apply le_total | done].
Qed.

Lemma sorted_Sorted l : Sorted R (Py.sorted le l).
Proof.
  induction l as [|x l IH]; simpl; [constructor | by apply insert_sorted_Sorted].
Qed.

Lemma sorted_StronglySorted l : Transitive R -> StronglySorted R (Py.sorted le l).
Proof. intros HT. apply Sorted_StronglySorted; [exact HT | apply sorted_Sorted]. Qed.
End SortedFacts.

Lemma StronglySorted_weaken {A} (R1 R2 : A -> A -> Prop) l :
  (forall x y, R1 x y -> R2 x y) -> StronglySorted R1 l -> StronglySorted R2 l.
Proof.
  intros Himp. induction 1 as [|x l Hl IH Hx]; constructor; [exact IH|].
  eapply Forall_impl; [exact Hx | by intros y; apply Himp].
Qed.



(** ** The Upcoming-Matches poller *)




Lemma upcoming_enrich_ok env missing s :
  exists s', UpcomingMatchesCoordinator.enrich env missing s = (Ok tt, s').
Proof.
  unfold UpcomingMatchesCoordinator.enrich, try_except.
  destruct (UpcomingMatchesCoordinator.backfill env missing s) as [[[]|e] s']; eauto.
Qed.

Lemma upcoming_cycle env tours s all_matches s1 :
  UpcomingMatchesCoordinator.fetch_tours env tours [] s = (Ok all_matches, s1) ->
  let decorated := omap UpcomingMatchesCoordinator.normalize all_matches in
  let missing := UpcomingMatchesCoordinator.missing_player_ids (player_cache s1) decorated in
  let after :=
    if bool_decide (elements missing = []) then s1
    else snd (UpcomingMatchesCoordinator.enrich env missing s1) in
  UpcomingMatchesCoordinator._async_update_data env tours s
  = (Ok {| UpcomingMatchesCoordinator.count :=
             length (Py.sorted UpcomingMatchesCoordinator.by_sort_key decorated);
           UpcomingMatchesCoordinator.matches :=
             Py.sorted UpcomingMatchesCoordinator.by_sort_key decorated |}, after).
Proof.
  intros Hfetch decorated missing after.
  unfold UpcomingMatchesCoordinator._async_update_data, try_except, bind at 1.
  rewrite Hfetch. unfold bind at 1. unfold get_cache at 1. unfold bind at 1.
  fold decorated. fold missing. unfold after.
  destruct (bool_decide (elements missing = [])); [reflexivity|].
  destruct (upcoming_enrich_ok env missing s1) as [s' Hs']. by rewrite Hs'.
Qed.



(** ** Names in the cache *)






#[local] Instance keeps_names_preorder : PreOrder keeps_names.
Proof. split; unfold keeps_names; [by intros s | intros s1 s2 s3; tauto]. Qed.












(** ** A backfill that fails *)

Lemma bind_ok {A B} (m : M A) (k : A -> M B) s a s1 :
  m s = (Ok a, s1) -> bind m k s = k a s1.
Proof. intros H. unfold bind. by rewrite H. Qed.

Lemma bind_raise {A B} (m : M A) (k : A -> M B) s e s1 :
  m s = (Raise e, s1) -> bind m k s = (Raise e, s1).
Proof. intros H. unfold bind. by rewrite H. Qed.

Lemma store_names_ok payload s : fst (store_names payload s) = Ok tt.
Proof.
  unfold store_names. revert s. induction payload as [|kv payload IH]; intros s; simpl.
  - reflexivity.
  - unfold bind. simpl. apply IH.
Qed.

Lemma same_cache_paced_player_fetch env ids :
  respects same_cache (Api.paced_player_fetch env ids).
Proof.
  unfold Api.paced_player_fetch. generalize (@nil (Z * pydict)) as out.
  induction ids as [|pid ids IH]; intros out; simpl; [by respects_step|].
  respects_step; [|apply IH]. unfold Api.get_player.
  repeat (respects_step || apply same_cache_get_json).
Qed.

Lemma upcoming_note_missing_elem cache pid missing n :
  n ∈ UpcomingMatchesCoordinator.note_missing cache pid missing ->
  n ∈ missing \/ players cache !! n = None.
Proof.
  unfold UpcomingMatchesCoordinator.note_missing. destruct pid as [k|]; [|by left].
  destruct (players cache !! k) eqn:E; [by left|].
  rewrite elem_of_union, elem_of_singleton. intros [->|H]; [by right | by left].
Qed.

Lemma upcoming_missing_absent cache decorated n :
  n ∈ UpcomingMatchesCoordinator.missing_player_ids cache decorated ->
  players cache !! n = None.
Proof.
  unfold UpcomingMatchesCoordinator.missing_player_ids.
  assert (Hgen : forall acc,
            (forall k, k ∈ acc -> players cache !! k = None) ->
            n ∈ foldl (fun missing m =>
                         UpcomingMatchesCoordinator.note_missing cache
                           (UpcomingMatchesCoordinator.Player2ID m)
                           (UpcomingMatchesCoordinator.note_missing cache
                              (UpcomingMatchesCoordinator.Player1ID m) missing))
                  acc decorated ->
            players cache !! n = None).
  { induction decorated as [|m decorated IH]; intros acc Hacc; cbn [foldl]; [apply Hacc|].
    apply IH. intros k Hk.
    apply upcoming_note_missing_elem in Hk as [Hk|Hk]; [|exact Hk].
    apply upcoming_note_missing_elem in Hk as [Hk|Hk]; [by apply Hacc | exact Hk]. }
  apply Hgen. set_solver.
Qed.

Lemma scores_cycle env tours events_coord_data s raw_matches s1 ms missing :
  MatchScoresCoordinator.fetch_tours env tours [] s = (Ok raw_matches, s1) ->
  MatchScoresCoordinator.build_matches (player_cache s1)
    (MatchScoresCoordinator.events_map_of events_coord_data) raw_matches [] ∅
  = Ok (ms, missing) ->
  let outcome :=
    if bool_decide (elements missing = []) then (Ok ms, s1)
    else MatchScoresCoordinator.enrich env missing ms s1 in
  forall published, fst outcome = Ok published ->
  MatchScoresCoordinator._async_update_data env tours events_coord_data s
  = (Ok {| MatchScoresCoordinator.count :=
             length (Py.sorted MatchScoresCoordinator.by_date_then_id published);
           MatchScoresCoordinator.matches :=
             Py.sorted MatchScoresCoordinator.by_date_then_id published |}, snd outcome).
Proof.
  intros Hfetch Hbuild outcome published Hout.
  unfold MatchScoresCoordinator._async_update_data, try_except.
  rewrite (bind_ok _ _ _ _ _ Hfetch). unfold bind at 1. unfold get_cache at 1.
  unfold bind at 1. unfold lift at 1. rewrite Hbuild. cbn [fst snd].
  unfold bind at 1. unfold outcome in *. clear outcome.
  destruct (bool_decide (elements missing = [])).
  - simpl in Hout. by injection Hout as ->.
  - destruct (MatchScoresCoordinator.enrich env missing ms s1) as [[published'|e] s2];
      simpl in Hout; [|discriminate].
    by injection Hout as ->.
Qed.

Lemma note_missing_elem cache pid missing n :
  n ∈ MatchScoresCoordinator.note_missing cache pid missing ->
  n ∈ missing \/ (pid = Some n /\ n <> 0 /\ players cache !! n = None).
Proof.
  unfold MatchScoresCoordinator.note_missing. destruct pid as [k|]; [|by left].
  simpl. destruct (Z.eqb_spec k 0) as [->|Hk]; simpl; [by left|].
  destruct (players cache !! k) eqn:E; [by left|].
  rewrite elem_of_union, elem_of_singleton. intros [->|H]; [right | by left]. done.
Qed.

Lemma build_matches_names cache em raw_matches acc macc ms missing :
  MatchScoresCoordinator.build_matches cache em raw_matches acc macc = Ok (ms, missing) ->
  Forall (fun x =>
            MatchScoresCoordinator.Player1Name x
            = MatchScoresCoordinator.player_name cache (MatchScoresCoordinator.Player1ID x)
            /\ MatchScoresCoordinator.Player2Name x
               = MatchScoresCoordinator.player_name cache (MatchScoresCoordinator.Player2ID x))
    acc ->
  (forall n, n ∈ macc -> n <> 0 /\ players cache !! n = None) ->
  Forall (fun x =>
            MatchScoresCoordinator.Player1Name x
            = MatchScoresCoordinator.player_name cache (MatchScoresCoordinator.Player1ID x)
            /\ MatchScoresCoordinator.Player2Name x
               = MatchScoresCoordinator.player_name cache (MatchScoresCoordinator.Player2ID x))
    ms
  /\ (forall n, n ∈ missing -> n <> 0 /\ players cache !! n = None).
Proof.
  revert acc macc. induction raw_matches as [|m raws IH]; intros acc macc;
    cbn [MatchScoresCoordinator.build_matches].
  - by intros [= <- <-].
  - destruct (MatchScoresCoordinator.build_match cache em m) as [x|e] eqn:Ex;
      cbn [rbind]; [|discriminate].
    intros Hrest Hacc Hmacc. apply (IH _ _ Hrest).
    + apply Forall_app. split; [exact Hacc|]. constructor; [|constructor].
      by destruct (build_match_fields _ _ _ _ Ex) as (_ & _ & H1 & H2).
    + intros n Hn.
      apply note_missing_elem in Hn as [Hn|(_ & ? & ?)]; [|done].
      apply note_missing_elem in Hn as [Hn|(_ & ? & ?)]; [by apply Hmacc | done].
Qed.

(** C8 as amended: when the body of the backfill raises, be it in the
    paced fetch (which then leaves the cache as it was) or in the save,
    the handler takes it and the cycle of either poller still returns its
    result.  The Match-Scores poller publishes the matches of its first
    pass, in which every id found missing from the cache is named [#] and
    the id.  The Upcoming-Matches poller publishes the dated matches it
    had normalized, which carry player ids and no names; when the paced
    fetch raised, every id found missing is still absent from the cache,
    and the calendar shows it as [#] and the id. *)
Theorem backfill_failure_is_contained (env : Env) :
  (forall tours s all_matches s1 e s2,
     UpcomingMatchesCoordinator.fetch_tours env tours [] s = (Ok all_matches, s1) ->
     let decorated := omap UpcomingMatchesCoordinator.normalize all_matches in
     let missing := UpcomingMatchesCoordinator.missing_player_ids (player_cache s1) decorated in
     elements missing <> [] ->
     UpcomingMatchesCoordinator.backfill env missing s1 = (Raise e, s2) ->
     UpcomingMatchesCoordinator._async_update_data env tours s
     = (Ok {| UpcomingMatchesCoordinator.count :=
                length (Py.sorted UpcomingMatchesCoordinator.by_sort_key decorated);
              UpcomingMatchesCoordinator.matches :=
                Py.sorted UpcomingMatchesCoordinator.by_sort_key decorated |}, s2))
  /\ (forall tours events_coord_data s raw_matches s1 ms missing e s2,
        MatchScoresCoordinator.fetch_tours env tours [] s = (Ok raw_matches, s1) ->
        MatchScoresCoordinator.build_matches (player_cache s1)
          (MatchScoresCoordinator.events_map_of events_coord_data) raw_matches [] ∅
        = Ok (ms, missing) ->
        elements missing <> [] ->
        MatchScoresCoordinator.backfill env missing ms s1 = (Raise e, s2) ->
        MatchScoresCoordinator._async_update_data env tours events_coord_data s
        = (Ok {| MatchScoresCoordinator.count :=
                   length (Py.sorted MatchScoresCoordinator.by_date_then_id ms);
                 MatchScoresCoordinator.matches :=
                   Py.sorted MatchScoresCoordinator.by_date_then_id ms |}, s2)
        /\ (forall x n,
              x ∈ Py.sorted MatchScoresCoordinator.by_date_then_id ms ->
              n ∈ missing ->
              (MatchScoresCoordinator.Player1ID x = Some n ->
               MatchScoresCoordinator.Player1Name x = "#" +:+ Py.str (PInt n))
              /\ (MatchScoresCoordinator.Player2ID x = Some n ->
                  MatchScoresCoordinator.Player2Name x = "#" +:+ Py.str (PInt n))))
  /\ (forall tours s all_matches s1 e s2,
        UpcomingMatchesCoordinator.fetch_tours env tours [] s = (Ok all_matches, s1) ->
        let decorated := omap UpcomingMatchesCoordinator.normalize all_matches in
        let missing := UpcomingMatchesCoordinator.missing_player_ids (player_cache s1) decorated in
        Api.paced_player_fetch env (Py.sorted Z.leb (elements missing)) s1 = (Raise e, s2) ->
        forall n, n ∈ missing ->
                  Calendar._resolve_player_name (player_cache s2) (Some n)
                  = "#" +:+ Py.str (PInt n))
  /\ (forall missing s e s1,
        Api.paced_player_fetch env (Py.sorted Z.leb (elements missing)) s = (Raise e, s1) ->
        UpcomingMatchesCoordinator.backfill env missing s = (Raise e, s1)
        /\ (forall ms, MatchScoresCoordinator.backfill env missing ms s = (Raise e, s1))
        /\ player_cache s1 = player_cache s)
  /\ (forall missing s payload s1 e,
        Api.paced_player_fetch env (Py.sorted Z.leb (elements missing)) s = (Ok payload, s1) ->
        (forall doc, async_save env doc = Raise e) ->
        exists s2,
          UpcomingMatchesCoordinator.backfill env missing s = (Raise e, s2)
          /\ (forall ms, MatchScoresCoordinator.backfill env missing ms s = (Raise e, s2))).
Proof.
  split; [|split; [|split; [|split]]].
  - intros tours s all_matches s1 e s2 Hfetch decorated missing Hne Hfail.
    rewrite (upcoming_cycle _ _ _ _ _ Hfetch). fold decorated. fold missing.
    rewrite bool_decide_eq_false_2 by done.
    unfold UpcomingMatchesCoordinator.enrich, try_except. by rewrite Hfail.
  - intros tours events_coord_data s raw_matches s1 ms missing e s2 Hfetch Hbuild Hne Hfail.
    split.
    + rewrite (scores_cycle _ _ _ _ _ _ _ _ Hfetch Hbuild ms).
      * rewrite bool_decide_eq_false_2 by done.
        unfold MatchScoresCoordinator.enrich, try_except. by rewrite Hfail.
      * rewrite bool_decide_eq_false_2 by done.
        unfold MatchScoresCoordinator.enrich, try_except. by rewrite Hfail.
    + intros x n Hx Hn.
      destruct (build_matches_names _ _ _ _ _ _ _ Hbuild) as [Hnames Hmissing];
        [constructor | set_solver |].
      destruct (Hmissing n Hn) as [Hn0 Hnone].
      rewrite sorted_perm in Hx. rewrite Forall_forall in Hnames.
      destruct (Hnames x Hx) as [H1 H2].
      assert (Hhash : MatchScoresCoordinator.player_name (player_cache s1) (Some n)
                      = "#" +:+ Py.str (PInt n)).
      { rewrite player_name_nonzero by done. unfold Spec.cached_or_hash. by rewrite Hnone. }
      split; intros Hid; [rewrite H1, Hid | rewrite H2, Hid]; exact Hhash.
  - intros tours s all_matches s1 e s2 _ decorated missing Hfail n Hn.
    pose proof (same_cache_paced_player_fetch env (Py.sorted Z.leb (elements missing)) s1) as H.
    rewrite Hfail in H. simpl in H. unfold same_cache in H. simpl. rewrite H.
    by rewrite (upcoming_missing_absent _ _ _ Hn).
  - intros missing s e s1 Hfetch. split; [|split].
    + unfold UpcomingMatchesCoordinator.backfill. by apply bind_raise.
    + intros ms. unfold MatchScoresCoordinator.backfill. by apply bind_raise.
    + pose proof (same_cache_paced_player_fetch env (Py.sorted Z.leb (elements missing)) s) as H.
      by rewrite Hfetch in H.
  - intros missing s payload s1 e Hfetch Hsave.
    destruct (store_names payload s1) as [r s2] eqn:Hstore.
    pose proof (store_names_ok payload s1) as Hok. rewrite Hstore in Hok. simpl in Hok. subst r.
    exists s2. split; [|intros ms].
    + unfold UpcomingMatchesCoordinator.backfill.
      rewrite (bind_ok _ _ _ _ _ Hfetch), (bind_ok _ _ _ _ _ Hstore).
      unfold bind, get_cache, save_player_cache. by rewrite Hsave.
    + unfold MatchScoresCoordinator.backfill.
      rewrite (bind_ok _ _ _ _ _ Hfetch), (bind_ok _ _ _ _ _ Hstore).
      unfold bind, get_cache, save_player_cache. by rewrite Hsave.
Qed.

Lemma backfill_failure_is_contained_witness :
  let env := Scenario.no_players (PList [PDict [("ID", PInt 1); ("Player1ID", PInt 5)]]) in
  exists data s2,
    MatchScoresCoordinator._async_update_data env ["main"] None Scenario.fresh = (Ok data, s2)
    /\ Forall (fun x => MatchScoresCoordinator.Player1ID x = Some 5 ->
                        MatchScoresCoordinator.Player1Name x = "#5")
         (MatchScoresCoordinator.matches data).
Proof.
  intros env. destruct (backfill_failure_is_contained env) as (_ & Hscores & _).
  edestruct (Hscores ["main"] None Scenario.fresh) as [Hrun Hnames].
  - vm_compute. reflexivity.
  - vm_compute. reflexivity.
  - vm_compute. discriminate.
  - vm_compute. reflexivity.
  - eexists _, _. split; [exact Hrun|]. simpl.
    apply Forall_forall. intros x Hx Hid.
    destruct (Hnames x 5 Hx) as [H1 _]; [vm_compute; reflexivity|]. by apply H1.
Defined.

(** C8 as worded fails for the Upcoming-Matches poller when only the
    save raises: the names fetched are in the cache before the save is
    tried, so after the cycle the id found missing is a key of the cache
    and the calendar shows its name, not [#5]. *)
Lemma backfill_save_failure_leaves_names :
  let env :=
    Scenario.provider
      (PList [PDict [("ScheduledDate", PStr "2024-05-01"); ("Player1ID", PInt 5)]])
      (PDict [("FirstName", PStr "Judd"); ("LastName", PStr "Trump")])
      (Raise (StoreError "disk full")) in
  let run := UpcomingMatchesCoordinator._async_update_data env ["main"] Scenario.fresh in
  fst (UpcomingMatchesCoordinator.backfill env {[ 5 ]}
         {| player_cache := Scenario.empty_cache; storage := None;
            requests := [[("t", PInt 14); ("tr", PStr "main")]] |})
  = Raise (StoreError "disk full")
  /\ fst run
     = Ok {| UpcomingMatchesCoordinator.count := 1;
             UpcomingMatchesCoordinator.matches :=
               [{| UpcomingMatchesCoordinator.Tour := "main";
                   UpcomingMatchesCoordinator.EventID := None;
                   UpcomingMatchesCoordinator.ScheduledDate := "2024-05-01";
                   UpcomingMatchesCoordinator.Player1ID := Some 5;
                   UpcomingMatchesCoordinator.Player2ID := None |}] |}
  /\ players (player_cache (snd run)) !! 5 = Some "Judd Trump"
  /\ Calendar._resolve_player_name (player_cache (snd run)) (Some 5) = "Judd Trump"
  /\ Calendar._resolve_player_name (player_cache (snd run)) (Some 5) <> "#5".
Proof.
  repeat split; try (vm_compute; reflexivity). vm_compute. discriminate.
Qed.

(** ** The Events-In-Season poller *)

Lemma or_cases a b : Py.or_ a b = a \/ Py.or_ a b = b.
Proof. unfold Py.or_. destruct (Py.truthy a); auto. Qed.

Lemma events_normalize_outcome raw :
  if Spec.infinite_id raw then EventsInSeasonCoordinator.normalize raw = Raise OverflowError
  else exists ev, EventsInSeasonCoordinator.normalize raw = Ok ev.
Proof.
  unfold Spec.infinite_id, Spec.event_id_of, EventsInSeasonCoordinator.normalize.
  set (event_id := Py.or_ _ _).
  destruct (Py.int event_id) as [n|e] eqn:E.
  - destruct event_id as [| | | | | |[| |]]; try discriminate; simpl; eauto.
  - destruct (py_int_raises _ _ E) as [->|[[msg ->]|[-> [negative Hv]]]].
    + destruct event_id as [| | | | | |[| |]]; try discriminate; simpl; eauto.
    + destruct event_id as [| | | | | |[| |]]; try discriminate; simpl; eauto.
    + rewrite Hv. reflexivity.
Qed.

Lemma events_normalize_id raw ev :
  EventsInSeasonCoordinator.normalize raw = Ok (Some ev) ->
  exists key, key ∈ ["ID"; "EventID"; "EID"]
              /\ Py.int (Py.get raw key) = Ok (EventsInSeasonCoordinator.ID ev).
Proof.
  unfold EventsInSeasonCoordinator.normalize.
  set (event_id := Py.or_ _ _).
  assert (Hkey : exists key, key ∈ ["ID"; "EventID"; "EID"] /\ event_id = Py.get raw key).
  { unfold event_id.
    destruct (or_cases (Py.or_ (Py.get raw "ID") (Py.get raw "EventID")) (Py.get raw "EID"))
      as [->| ->]; [destruct (or_cases (Py.get raw "ID") (Py.get raw "EventID")) as [->| ->]|];
      eexists; (split; [|reflexivity]); set_solver. }
  destruct Hkey as (key & Hin & Hid). exists key. split; [exact Hin|]. rewrite <- Hid.
  destruct (Py.int event_id) as [n|e] eqn:E.
  - destruct event_id; try discriminate; by injection H as <-.
  - destruct (py_int_raises _ _ E) as [->|[[msg ->]|[-> _]]]; destruct event_id; discriminate.
Qed.

Lemma events_normalize_drops raw :
  Spec.infinite_id raw = false ->
  Forall (fun key => is_ok (Py.int (Py.get raw key)) = false) ["ID"; "EventID"; "EID"] ->
  EventsInSeasonCoordinator.normalize raw = Ok None.
Proof.
  intros Hfinite Hnone. pose proof (events_normalize_outcome raw) as Hraw.
  rewrite Hfinite in Hraw. destruct Hraw as [[ev|] Hev]; [|exact Hev].
  destruct (events_normalize_id _ _ Hev) as (key & Hin & Hint).
  rewrite Forall_forall in Hnone. specialize (Hnone key Hin). by rewrite Hint in Hnone.
Qed.

Lemma index_events_foldl raws acc :
  Forall (fun raw => Spec.infinite_id raw = false) raws ->
  EventsInSeasonCoordinator.index_events (PDict <$> raws) acc = Ok (foldl index_step acc raws).
Proof.
  intros Hraws. revert acc. induction Hraws as [|raw raws Hraw _ IH]; intros acc; [reflexivity|].
  cbn [fmap list_fmap EventsInSeasonCoordinator.index_events foldl]. unfold index_step at 2.
  pose proof (events_normalize_outcome raw) as Hev. rewrite Hraw in Hev.
  destruct Hev as [[ev|] ->]; cbn [rbind]; apply IH.
Qed.

Lemma index_events_app raws1 raws2 acc :
  EventsInSeasonCoordinator.index_events (raws1 ++ raws2) acc
  = let? mid := EventsInSeasonCoordinator.index_events raws1 acc in
    EventsInSeasonCoordinator.index_events raws2 mid.
Proof.
  revert acc. induction raws1 as [|raw raws1 IH]; intros acc; [reflexivity|].
  cbn [app EventsInSeasonCoordinator.index_events].
  destruct raw as [| | | | |raw|]; try reflexivity.
  destruct (EventsInSeasonCoordinator.normalize raw) as [[ev|]|e]; cbn [rbind];
    [apply IH | apply IH | reflexivity].
Qed.

Lemma index_events_infinite before raw rest acc :
  Forall (fun raw => Spec.infinite_id raw = false) before ->
  Spec.infinite_id raw = true ->
  EventsInSeasonCoordinator.index_events ((PDict <$> before) ++ PDict raw :: rest) acc
  = Raise OverflowError.
Proof.
  intros Hbefore Hraw. rewrite index_events_app, index_events_foldl by done.
  cbn [rbind EventsInSeasonCoordinator.index_events].
  pose proof (events_normalize_outcome raw) as Hev. rewrite Hraw in Hev. by rewrite Hev.
Qed.

Lemma index_foldl_other raws acc k :
  Forall (fun raw => forall ev, EventsInSeasonCoordinator.normalize raw = Ok (Some ev) ->
                                EventsInSeasonCoordinator.ID ev <> k) raws ->
  foldl index_step acc raws !! k = acc !! k.
Proof.
  intros Hraws. revert acc. induction Hraws as [|raw raws Hraw _ IH]; intros acc; [reflexivity|].
  cbn [foldl]. rewrite IH. unfold index_step.
  destruct (EventsInSeasonCoordinator.normalize raw) as [[ev|]|e] eqn:E; try reflexivity.
  apply lookup_insert_ne. by apply Hraw.
Qed.

Lemma index_foldl_origin raws acc k ev :
  foldl index_step acc raws !! k = Some ev ->
  acc !! k = Some ev
  \/ (EventsInSeasonCoordinator.ID ev = k
      /\ exists raw, raw ∈ raws /\ EventsInSeasonCoordinator.normalize raw = Ok (Some ev)).
Proof.
  revert acc. induction raws as [|raw raws IH]; intros acc; cbn [foldl]; [by left|].
  intros Hk. destruct (IH _ Hk) as [Hacc|(Hid & raw' & Hin & Hraw')].
  - unfold index_step in Hacc.
    destruct (EventsInSeasonCoordinator.normalize raw) as [[ev'|]|e] eqn:E; try by left.
    destruct (decide (EventsInSeasonCoordinator.ID ev' = k)) as [<-|Hne].
    + rewrite lookup_insert_eq in Hacc. injection Hacc as <-.
      right. split; [reflexivity|]. exists raw. split; [left | exact E].
    + rewrite lookup_insert_ne in Hacc by done. by left.
  - right. split; [exact Hid|]. exists raw'. split; [by right | exact Hraw'].
Qed.

Lemma Z_leb_total x y : (x <=? y)%Z = false -> (y <=? x)%Z = true.
Proof. intros H. apply Z.leb_gt in H. apply Z.leb_le. lia. Qed.

Lemma elem_of_values (m : gmap Z EventsInSeasonCoordinator.Event) ev :
  ev ∈ EventsInSeasonCoordinator.values m <-> exists k, m !! k = Some ev.
Proof.
  unfold EventsInSeasonCoordinator.values. rewrite list_elem_of_In, in_map_iff. split.
  - intros ([k ev'] & <- & Hin). exists k.
    apply list_elem_of_In in Hin. by apply elem_of_map_to_list in Hin.
  - intros [k Hk]. exists (k, ev). split; [reflexivity|].
    apply list_elem_of_In. by apply elem_of_map_to_list.
Qed.

Lemma NoDup_fmap_elem_inj {A B} (f : A -> B) (l : list A) x y :
  NoDup (f <$> l) -> x ∈ l -> y ∈ l -> f x = f y -> x = y.
Proof.
  induction l as [|a l IH]; cbn [fmap list_fmap]; [by intros _ Hx; inversion Hx|].
  rewrite NoDup_cons, !elem_of_cons, list_elem_of_fmap.
  intros [Ha Hl] [->|Hx] [->|Hy] Hf; [done| | |by apply IH].
  - destruct Ha. eauto.
  - destruct Ha. eauto.
Qed.

Lemma strongly_sorted_perm_eq {A} (key : A -> Z) (l1 l2 : list A) :
  StronglySorted (fun x y => key x <= key y) l1 ->
  StronglySorted (fun x y => key x <= key y) l2 ->
  l1 ≡ₚ l2 -> NoDup (key <$> l1) -> l1 = l2.
Proof.
  intros H1. revert l2. induction H1 as [|x t1 Ht1 IH Hx]; intros l2 H2 Hperm Hnd.
  - by apply Permutation_nil_l in Hperm.
  - destruct H2 as [|y t2 Ht2 Hy]; [by apply Permutation_nil_r in Hperm|].
    assert (Hxy : x = y).
    { assert (Hx2 : x ∈ y :: t2) by (rewrite <- Hperm; left).
      assert (Hy1 : y ∈ x :: t1) by (rewrite Hperm; left).
      apply elem_of_cons in Hx2 as [Hx2|Hx2]; [done|].
      apply elem_of_cons in Hy1 as [Hy1|Hy1]; [done|].
      rewrite Forall_forall in Hx, Hy.
      apply (NoDup_fmap_elem_inj key (x :: t1)); [done | left | by right |].
      specialize (Hx _ Hy1). specialize (Hy _ Hx2). lia. }
    subst y. f_equal. apply IH; [done | by apply Permutation_cons_inv in Hperm |].
    cbn [fmap list_fmap] in Hnd. by apply NoDup_cons in Hnd as [_ Hnd].
Qed.

Lemma sorted_by_key_perm {A} (key : A -> Z) (l1 l2 : list A) :
  l1 ≡ₚ l2 -> NoDup (key <$> l1) ->
  Py.sorted (fun x y => (key x <=? key y)%Z) l1 = Py.sorted (fun x y => (key x <=? key y)%Z) l2.
Proof.
  intros Hperm Hnd.
  assert (Hsorted : forall l, StronglySorted (fun x y => key x <= key y)
                                (Py.sorted (fun x y => (key x <=? key y)%Z) l)).
  { intros l. eapply StronglySorted_weaken;
      [|apply (sorted_StronglySorted (fun x y => (key x <=? key y)%Z))].
    - intros x y. apply Z.leb_le.
    - intros x y. apply Z_leb_total.
    - intros x y z. rewrite !Z.leb_le. lia. }
  apply (strongly_sorted_perm_eq key); [apply Hsorted | apply Hsorted | |].
  - by rewrite !sorted_perm.
  - by rewrite sorted_perm.
Qed.

Lemma index_values_NoDup (m : gmap Z EventsInSeasonCoordinator.Event) :
  (forall k ev, m !! k = Some ev -> EventsInSeasonCoordinator.ID ev = k) ->
  NoDup (EventsInSeasonCoordinator.ID <$> EventsInSeasonCoordinator.values m).
Proof.
  intros Hid. unfold EventsInSeasonCoordinator.values.
  assert (Heq : EventsInSeasonCoordinator.ID <$> List.map snd (map_to_list m)
                = (map_to_list m).*1).
  { assert (Hall : Forall (fun kv : Z * EventsInSeasonCoordinator.Event =>
                             EventsInSeasonCoordinator.ID (snd kv) = fst kv) (map_to_list m)).
    { apply Forall_forall. intros [k ev] Hin. apply elem_of_map_to_list in Hin. by apply Hid. }
    induction Hall as [|kv l Hkv _ IH]; [reflexivity|].
    cbn [List.map fmap list_fmap]. by rewrite Hkv, <- IH. }
  rewrite Heq. apply NoDup_fst_map_to_list.
Qed.

(** The sorted list of events is the same for every order in which the
    values of the index may come. *)
Lemma events_order_independent (raws : list pydict) (vs : list EventsInSeasonCoordinator.Event) :
  vs ≡ₚ EventsInSeasonCoordinator.values (foldl index_step ∅ raws) ->
  Py.sorted EventsInSeasonCoordinator.by_id vs
  = Py.sorted EventsInSeasonCoordinator.by_id
      (EventsInSeasonCoordinator.values (foldl index_step ∅ raws)).
Proof.
  intros Hperm. apply (sorted_by_key_perm EventsInSeasonCoordinator.ID); [exact Hperm|].
  rewrite Hperm. apply index_values_NoDup.
  intros k ev Hk. destruct (index_foldl_origin _ _ _ _ Hk) as [Hempty|[Hid _]]; [|exact Hid].
  by rewrite lookup_empty in Hempty.
Qed.

(** C10, at the input that breaks it.  A raw event whose ID is an
    infinite [float], which the decoder reads from [1e999], has no
    parseable integer ID, but it is not dropped: [int()] raises
    [OverflowError], which the handler in the loop, written for
    [TypeError] and [ValueError], lets through, and the whole cycle ends in
    [UpdateFailed] with nothing published, whatever the other events are.
    With no such ID among the fetched objects the poller does what the
    wording says: an object with no parseable ID under [ID], [EventID] or
    [EID] is dropped; every entry of the map is the normalized form of some
    fetched object and sits under its own ID; of the objects with one ID
    the last one is the entry; the list holds exactly the values of the
    map, in ascending order of ID, whatever the order in which the values
    come, and [count] is its length.  Two objects with ID 7 give one entry
    under 7 with the second name, and a list of length 1. *)
Theorem events_infinite_id_fails_cycle :
  (forall env season_coord_data tours s season_payload s1 season before raw rest s2,
     season_payload_of env season_coord_data s = (Ok season_payload, s1) ->
     _extract_season season_payload = Ok season ->
     EventsInSeasonCoordinator.fetch_events env season tours s1
     = (Ok (PDict <$> before ++ raw :: rest), s2) ->
     Forall (fun raw => Spec.infinite_id raw = false) before ->
     Spec.infinite_id raw = true ->
     EventsInSeasonCoordinator._async_update_data env season_coord_data tours s
     = (Raise (UpdateFailed "Failed to fetch events in season" OverflowError), s2))
  /\ (Forall (fun key => is_ok (Py.int (Py.get Scenario.infinite_event key)) = false)
        ["ID"; "EventID"; "EID"]
      /\ EventsInSeasonCoordinator.normalize Scenario.infinite_event = Raise OverflowError
      /\ fst (EventsInSeasonCoordinator._async_update_data
                (Scenario.answering Scenario.event_with_infinite_id)
                (Some [("Season", PInt 2024)]) ["main"] Scenario.fresh)
         = Raise (UpdateFailed "Failed to fetch events in season" OverflowError))
  /\ (forall env season_coord_data tours s season_payload s1 season raws s2,
     season_payload_of env season_coord_data s = (Ok season_payload, s1) ->
     _extract_season season_payload = Ok season ->
     EventsInSeasonCoordinator.fetch_events env season tours s1 = (Ok (PDict <$> raws), s2) ->
     Forall (fun raw => Spec.infinite_id raw = false) raws ->
     exists data,
       EventsInSeasonCoordinator._async_update_data env season_coord_data tours s = (Ok data, s2)
       /\ EventsInSeasonCoordinator.season data = season
       /\ (forall k ev,
             EventsInSeasonCoordinator.events_by_id data !! k = Some ev ->
             EventsInSeasonCoordinator.ID ev = k
             /\ exists raw, raw ∈ raws /\ EventsInSeasonCoordinator.normalize raw = Ok (Some ev))
       /\ (forall before raw after ev,
             raws = before ++ raw :: after ->
             EventsInSeasonCoordinator.normalize raw = Ok (Some ev) ->
             Forall (fun later => forall ev',
                       EventsInSeasonCoordinator.normalize later = Ok (Some ev') ->
                       EventsInSeasonCoordinator.ID ev' <> EventsInSeasonCoordinator.ID ev) after ->
             EventsInSeasonCoordinator.events_by_id data !! EventsInSeasonCoordinator.ID ev
             = Some ev)
       /\ (forall ev,
             ev ∈ EventsInSeasonCoordinator.events data <->
             exists k, EventsInSeasonCoordinator.events_by_id data !! k = Some ev)
       /\ StronglySorted
            (fun x y => EventsInSeasonCoordinator.ID x <= EventsInSeasonCoordinator.ID y)
            (EventsInSeasonCoordinator.events data)
       /\ (forall vs,
             vs ≡ₚ EventsInSeasonCoordinator.values (EventsInSeasonCoordinator.events_by_id data) ->
             Py.sorted EventsInSeasonCoordinator.by_id vs = EventsInSeasonCoordinator.events data)
       /\ EventsInSeasonCoordinator.count data = length (EventsInSeasonCoordinator.events data))
  /\ (forall raw,
        Spec.infinite_id raw = false ->
        Forall (fun key => is_ok (Py.int (Py.get raw key)) = false) ["ID"; "EventID"; "EID"] ->
        EventsInSeasonCoordinator.normalize raw = Ok None)
  /\ fst (EventsInSeasonCoordinator._async_update_data
            (Scenario.answering Scenario.two_events_id_7)
            (Some [("Season", PInt 2024)]) ["main"] Scenario.fresh)
     = Ok {| EventsInSeasonCoordinator.season := 2024;
             EventsInSeasonCoordinator.count := 1;
             EventsInSeasonCoordinator.events := [Scenario.second_event];
             EventsInSeasonCoordinator.events_by_id := {[ 7 := Scenario.second_event ]} |}.
Proof.
  split; [|split; [|split; [|split; [apply events_normalize_drops | vm_compute; reflexivity]]]].
  { intros env season_coord_data tours s season_payload s1 season before raw rest s2
      Hseason Hextract Hfetch Hbefore Hraw.
    unfold EventsInSeasonCoordinator._async_update_data, try_except.
    rewrite (bind_ok _ _ _ _ _ Hseason). unfold bind at 1. unfold lift at 1. rewrite Hextract.
    rewrite (bind_ok _ _ _ _ _ Hfetch). unfold bind at 1. unfold lift at 1.
    by rewrite fmap_app, fmap_cons, index_events_infinite. }
  { split; [by repeat constructor|]. split; vm_compute; reflexivity. }
  intros env season_coord_data tours s season_payload s1 season raws s2 Hseason Hextract Hfetch
    Hfinite.
  eexists. split.
  { unfold EventsInSeasonCoordinator._async_update_data, try_except.
    rewrite (bind_ok _ _ _ _ _ Hseason). unfold bind at 1. unfold lift at 1. rewrite Hextract.
    rewrite (bind_ok _ _ _ _ _ Hfetch). unfold bind at 1. unfold lift at 1.
    rewrite index_events_foldl by exact Hfinite. reflexivity. }
  cbn [EventsInSeasonCoordinator.season EventsInSeasonCoordinator.events_by_id
         EventsInSeasonCoordinator.events EventsInSeasonCoordinator.count].
  split; [reflexivity|]. split; [|split; [|split; [|split; [|split; [|reflexivity]]]]].
  - intros k ev Hk. destruct (index_foldl_origin _ _ _ _ Hk) as [Hempty|H]; [|exact H].
    by rewrite lookup_empty in Hempty.
  - intros before raw after ev -> Hraw Hafter.
    rewrite foldl_app. cbn [foldl]. rewrite index_foldl_other by exact Hafter.
    unfold index_step at 1. rewrite Hraw. apply lookup_insert_eq.
  - intros ev. rewrite sorted_perm. apply elem_of_values.
  - eapply StronglySorted_weaken;
      [|apply (sorted_StronglySorted EventsInSeasonCoordinator.by_id)].
    + intros x y. unfold EventsInSeasonCoordinator.by_id. apply Z.leb_le.
    + intros x y. apply Z_leb_total.
    + intros x y z. unfold EventsInSeasonCoordinator.by_id. rewrite !Z.leb_le. lia.
  - intros vs Hvs. by apply events_order_independent.
Qed.

Lemma events_infinite_id_fails_cycle_witness :
  let env := Scenario.answering Scenario.event_with_infinite_id in
  (exists s2,
     EventsInSeasonCoordinator._async_update_data env (Some [("Season", PInt 2024)]) ["main"]
       Scenario.fresh
     = (Raise (UpdateFailed "Failed to fetch events in season" OverflowError), s2))
  /\ (exists data s2,
        EventsInSeasonCoordinator._async_update_data
          (Scenario.answering Scenario.two_events_id_7) (Some [("Season", PInt 2024)]) ["main"]
          Scenario.fresh = (Ok data, s2)
        /\ EventsInSeasonCoordinator.events_by_id data !! 7 = Some Scenario.second_event
        /\ EventsInSeasonCoordinator.count data = length (EventsInSeasonCoordinator.events data)).
Proof.
  intros env. destruct events_infinite_id_fails_cycle as (Hfails & _ & Hcycle & _). split.
  - eexists.
    apply (Hfails env (Some [("Season", PInt 2024)]) ["main"] Scenario.fresh
             [("Season", PInt 2024)] Scenario.fresh 2024
             [[("ID", PInt 7); ("Name", PStr "Masters")]] Scenario.infinite_event []).
    + vm_compute. reflexivity.
    + vm_compute. reflexivity.
    + vm_compute. reflexivity.
    + repeat constructor.
    + reflexivity.
  - edestruct (Hcycle (Scenario.answering Scenario.two_events_id_7)
                 (Some [("Season", PInt 2024)]) ["main"] Scenario.fresh
                 [("Season", PInt 2024)] Scenario.fresh 2024
                 [[("ID", PInt 7); ("Name", PStr "First"); ("City", PStr "York")];
                  [("ID", PInt 7); ("Name", PStr "Second")]])
      as (data & Hrun & _ & _ & Hlast & _ & _ & _ & Hcount).
    + vm_compute. reflexivity.
    + vm_compute. reflexivity.
    + vm_compute. reflexivity.
    + repeat constructor.
    + exists data. eexists. split; [exact Hrun|]. split; [|exact Hcount].
      apply (Hlast [[("ID", PInt 7); ("Name", PStr "First"); ("City", PStr "York")]]
               [("ID", PInt 7); ("Name", PStr "Second")] [] Scenario.second_event).
      * reflexivity.
      * vm_compute. reflexivity.
      * constructor.
Defined.

(** * Further properties of the code *)

(** ** The waits of [_get_json] *)

Lemma retry_shift answers attempt slept :
  Retry._get_json answers attempt slept
  = (fun r : result pyobj * nat * Z => (r.1.1, (r.1.2 + attempt)%nat, r.2 + slept))
    <$> Retry._get_json answers 0 0.
Proof.
  revert attempt slept. induction answers as [|a later IH]; intros attempt slept; [done|].
  destruct a as [|payload|e]; simpl.
  - rewrite IH. rewrite (IH 1%nat (0 + 60)).
    destruct (Retry._get_json later 0 0) as [[[r n] z]|]; simpl; [|done].
    do 2 f_equal; [f_equal; lia | lia].
  - do 2 f_equal; lia.
  - do 2 f_equal; lia.
Qed.

(** X1: [_get_json] waits out every 403 and nothing else.  After [k]
    answers with status 403 the next answer ends the call: a payload is
    returned, an error is raised as it came, in both cases at attempt
    [k + 1] and after [60 * k] seconds of sleep; as long as the answers
    are 403 the call goes on, there is no cap on the attempts. *)
Theorem get_json_waits_out_rate_limits (k : nat) (later : list Retry.answer) :
  (forall payload,
     Retry._get_json (replicate k Retry.RateLimited ++ Retry.Answered payload :: later) 0 0
     = Some (Ok payload, S k, 60 * Z.of_nat k))
  /\ (forall e,
        Retry._get_json (replicate k Retry.RateLimited ++ Retry.Failed e :: later) 0 0
        = Some (Raise e, S k, 60 * Z.of_nat k))
  /\ Retry._get_json (replicate k Retry.RateLimited) 0 0 = None.
Proof.
  induction k as [|k (IHa & IHf & IHn)]; [done|].
  split; [|split].
  - intros payload. simpl. rewrite retry_shift, IHa. simpl. do 2 f_equal; [f_equal; lia | lia].
  - intros e. simpl. rewrite retry_shift, IHf. simpl. do 2 f_equal; [f_equal; lia | lia].
  - simpl. by rewrite retry_shift, IHn.
Qed.

(** ** [int(str(n))] and the persisted cache *)

Lemma parse_digits_uint d acc after_digit :
  d <> Decimal.Nil \/ after_digit = true ->
  Py.parse_digits (NilEmpty.string_of_uint d) acc after_digit = Some (uint_val d acc).
Proof.
  revert acc after_digit.
  induction d as [|d IH|d IH|d IH|d IH|d IH|d IH|d IH|d IH|d IH|d IH];
    intros acc after_digit H;
    [destruct H as [H | ->]; [done | reflexivity] | ..];
    (simpl; apply IH; by right).
Qed.

Lemma uint_val_pos d p : uint_val d (Zpos p) = Zpos (Pos.of_uint_acc d p).
Proof.
  revert p.
  induction d as [|d IH|d IH|d IH|d IH|d IH|d IH|d IH|d IH|d IH|d IH]; intros p; simpl;
    [reflexivity | ..];
    (rewrite <- IH; f_equal; lia).
Qed.

Lemma uint_val_0 d : uint_val d 0 = Z.of_N (Pos.of_uint d).
Proof.
  induction d as [|d IH|d IH|d IH|d IH|d IH|d IH|d IH|d IH|d IH|d IH]; simpl;
    [reflexivity | exact IH | ..]; apply uint_val_pos.
Qed.

Lemma rstrip_uint d :
  Py.rstrip_by Py.c_isspace (NilEmpty.string_of_uint d) = NilEmpty.string_of_uint d.
Proof.
  induction d as [|d IH|d IH|d IH|d IH|d IH|d IH|d IH|d IH|d IH|d IH];
    [reflexivity | ..];
    (cbn [NilEmpty.string_of_uint Py.rstrip_by]; rewrite IH;
     by destruct (NilEmpty.string_of_uint d)).
Qed.

Lemma int_of_str_uint d :
  d <> Decimal.Nil ->
  Py.int_of_str (NilEmpty.string_of_uint d) = Some (uint_val d 0)
  /\ Py.int_of_str (String "-" (NilEmpty.string_of_uint d)) = Some (- uint_val d 0).
Proof.
  intros Hd. split.
  - unfold Py.int_of_str. rewrite rstrip_uint.
    rewrite <- (parse_digits_uint d 0 false) by by left.
    destruct d; [done | ..]; reflexivity.
  - unfold Py.int_of_str. cbn [Py.rstrip_by]. rewrite rstrip_uint.
    assert (NilEmpty.string_of_uint d <> EmptyString) as Hne by by destruct d.
    destruct (NilEmpty.string_of_uint d) as [|c r] eqn:E; [done|].
    cbn [Py.lstrip_by]. replace (Py.c_isspace "-") with false by reflexivity.
    rewrite <- E. cbn -[Py.parse_digits]. by rewrite parse_digits_uint by by left.
Qed.

Lemma pos_to_uint_not_nil p : Pos.to_uint p <> Decimal.Nil.
Proof.
  intros H. pose proof (DecimalPos.Unsigned.of_to p) as Hp. rewrite H in Hp. discriminate.
Qed.

Lemma nilzero_string_of_uint d :
  d <> Decimal.Nil -> NilZero.string_of_uint d = NilEmpty.string_of_uint d.
Proof. by destruct d. Qed.

Lemma int_of_str_of_int n : Py.int_of_str (Py.str_of_int n) = Some n.
Proof.
  destruct n as [|p|p]; [reflexivity | ..];
    pose proof (pos_to_uint_not_nil p) as Hp;
    destruct (int_of_str_uint _ Hp) as [Hpos Hneg];
    rewrite uint_val_0, DecimalPos.Unsigned.of_to in Hpos, Hneg.
  - change (Py.str_of_int (Z.pos p)) with (NilZero.string_of_uint (Pos.to_uint p)).
    by rewrite nilzero_string_of_uint, Hpos.
  - change (Py.str_of_int (Z.neg p)) with (String "-" (NilZero.string_of_uint (Pos.to_uint p))).
    by rewrite nilzero_string_of_uint, Hneg.
Qed.

Lemma int_str_round_trip n : Py.int (PStr (Py.str (PInt n))) = Ok n.
Proof. simpl. by rewrite int_of_str_of_int. Qed.

Lemma foldl_insert_list_to_map (l : list (Z * string)) (acc : gmap Z string) :
  foldl (fun a kv => <[kv.1 := kv.2]> a) acc l = list_to_map (reverse l) ∪ acc.
Proof.
  revert acc. induction l as [|[k v] l IH]; intros acc; simpl.
  - by rewrite (left_id_L ∅ (∪)).
  - rewrite IH, reverse_cons, list_to_map_app. simpl.
    rewrite <- (assoc_L (∪)). f_equal.
    by rewrite insert_union_singleton_l, <- insert_empty, <- insert_union_l, (left_id_L ∅ (∪)).
Qed.

Lemma foldl_insert_map_to_list (m : gmap Z string) :
  foldl (fun a kv => <[kv.1 := kv.2]> a) ∅ (map_to_list m) = m.
Proof.
  rewrite foldl_insert_list_to_map, (right_id_L ∅ (∪)).
  rewrite <- (list_to_map_to_list m) at 2.
  apply list_to_map_proper; [|apply reverse_Permutation].
  rewrite fmap_reverse, reverse_Permutation. apply NoDup_fst_map_to_list.
Qed.

Lemma load_items_dump (l : list (Z * string)) (acc : gmap Z string) :
  load_items (List.map (fun kv : Z * string => (Py.str (PInt kv.1), PStr kv.2)) l) acc
  = Ok (foldl (fun a kv => <[kv.1 := kv.2]> a) acc l).
Proof.
  revert acc. induction l as [|[k v] l IH]; intros acc; [reflexivity|].
  cbn [List.map load_items fst snd]. rewrite int_str_round_trip. cbn [rbind]. apply IH.
Qed.

(** X2: what [save_player_cache] has written, [load_player_cache] reads
    back as the same cache: the same ids with the same names and the
    same stamp.  The keys go out as [str(k)] and come back through
    [int()], and [int(str(k))] is [k] for every integer.  With no record
    stored, the cache read is empty and has no stamp. *)
Theorem saved_cache_loads_back (env : Env) :
  (forall cache s s1,
     save_player_cache env cache s = (Ok tt, s1) ->
     load_player_cache s1 = (Ok cache, s1))
  /\ (forall n, Py.int (PStr (Py.str (PInt n))) = Ok n)
  /\ (forall s, storage s = None ->
                load_player_cache s = (Ok {| players := ∅; last_refreshed := PNone |}, s)).
Proof.
  split; [|split].
  - intros [ps stamp] s s1. unfold save_player_cache.
    destruct (async_save env _); [|discriminate]. intros [= <-].
    unfold load_player_cache. cbn -[load_items map_to_list].
    rewrite load_items_dump, foldl_insert_map_to_list. reflexivity.
  - apply int_str_round_trip.
  - intros s Hs. unfold load_player_cache. by rewrite Hs.
Qed.

Lemma saved_cache_loads_back_witness :
  let env := Scenario.answering PNone in
  let cache := {| players := {[ 5 := "Judd Trump" ]}; last_refreshed := PStr "2024-05-01" |} in
  exists s1,
    save_player_cache env cache Scenario.fresh = (Ok tt, s1)
    /\ load_player_cache s1 = (Ok cache, s1).
Proof.
  intros env cache. eexists. split; [reflexivity|].
  apply (proj1 (saved_cache_loads_back env) cache Scenario.fresh). reflexivity.
Defined.

(** ** The paced fetch *)

Lemma after_requests_app s sent1 sent2 :
  after_requests (after_requests s sent1) sent2 = after_requests s (sent2 ++ sent1).
Proof. unfold after_requests. simpl. by rewrite app_assoc. Qed.

Lemma after_requests_nil s : after_requests s [] = s.
Proof. by destruct s. Qed.

Lemma get_player_run env pid s :
  Api.get_player env pid s
  = (match get_json env (player_request pid) with
     | Ok payload => Ok (Api._first_dict payload)
     | Raise e => Raise e
     end, after_requests s [player_request pid]).
Proof.
  unfold Api.get_player, bind, Api._get_json, ret, after_requests, player_request.
  by destruct (get_json env _).
Qed.

Lemma set_player_map (out : list (Z * pydict)) pid p :
  NoDup out.*1 ->
  NoDup (Api.set_player out pid p).*1
  /\ (list_to_map (Api.set_player out pid p) : gmap Z pydict) = <[pid := p]> (list_to_map out).
Proof.
  induction out as [|[k v] out IH]; intros Hnd; simpl.
  - split; [apply NoDup_singleton | done].
  - apply NoDup_cons in Hnd as [Hk Hnd]. destruct (IH Hnd) as [IH1 IH2].
    destruct (Z.eqb_spec k pid) as [->|Hne]; simpl.
    + split; [by apply NoDup_cons | by rewrite insert_insert_eq].
    + split.
      * apply NoDup_cons. split; [|done].
        apply not_elem_of_list_to_map. rewrite IH2, lookup_insert_ne by done.
        by apply not_elem_of_list_to_map.
      * rewrite IH2. by apply insert_insert_ne.
Qed.

Lemma paced_loop_answered env ids out s :
  Forall (fun pid => is_ok (get_json env (player_request pid)) = true) ids ->
  NoDup out.*1 ->
  exists out',
    Api.paced_loop env ids out s
    = (Ok out', after_requests s (reverse (player_request <$> ids)))
    /\ NoDup out'.*1
    /\ forall k v,
         (list_to_map out' : gmap Z pydict) !! k = Some v <->
         (k ∈ ids /\ exists payload,
             get_json env (player_request k) = Ok payload /\ v = Api._first_dict payload)
         \/ ((k ∉ ids) /\ (list_to_map out : gmap Z pydict) !! k = Some v).
Proof.
  intros Hok. revert out s.
  induction Hok as [|pid ids Hpid _ IH]; intros out s Hnd.
  - exists out. rewrite after_requests_nil. split; [done|]. split; [done|].
    intros k v. split; [intros H; right; split; [apply not_elem_of_nil | done]|].
    intros [[H _]|[_ H]]; [by apply elem_of_nil in H | done].
  - cbn [Api.paced_loop]. unfold bind at 1. rewrite get_player_run.
    destruct (get_json env (player_request pid)) as [payload|e] eqn:E; [|discriminate].
    destruct (set_player_map out pid (Api._first_dict payload) Hnd) as [Hnd' Hmap].
    destruct (IH (Api.set_player out pid (Api._first_dict payload))
                (after_requests s [player_request pid]) Hnd') as (out' & Hrun & Hnd'' & Hlook).
    exists out'. split; [|split; [done|]].
    + rewrite Hrun, after_requests_app. by rewrite fmap_cons, reverse_cons.
    + intros k v. rewrite Hlook, Hmap. split.
      * intros [[Hin Hp]|[Hk H]]; [left; split; [by right | done]|].
        destruct (decide (k = pid)) as [->|Hne].
        -- rewrite lookup_insert_eq in H. injection H as <-.
           left. split; [by left | by exists payload].
        -- rewrite lookup_insert_ne in H by done.
           right. split; [|done]. by intros [->|Hin]%elem_of_cons.
      * intros [[Hk (payload' & Hp & ->)]|[Hk H]].
        -- destruct (decide (k ∈ ids)) as [Hin|Hnin]; [left; split; [done | by exists payload']|].
           apply elem_of_cons in Hk as [->|Hk]; [|done].
           right. split; [done|]. rewrite lookup_insert_eq. congruence.
        -- right. apply not_elem_of_cons in Hk as [Hne Hk].
           split; [done|]. by rewrite lookup_insert_ne.
Qed.

(** X3: when every player request is answered, [paced_player_fetch]
    sends exactly one request per entry of [player_ids], in that order
    and nothing else, leaves cache and store alone, and returns one entry
    per distinct id: the [_first_dict] of that player's payload. *)
Theorem paced_fetch_one_request_per_id (env : Env) (ids : list Z) (s : State) :
  Forall (fun pid => is_ok (get_json env (player_request pid)) = true) ids ->
  exists out,
    Api.paced_player_fetch env ids s
    = (Ok out, after_requests s (reverse (player_request <$> ids)))
    /\ NoDup out.*1
    /\ forall pid p,
         (pid, p) ∈ out <->
         pid ∈ ids /\ exists payload,
           get_json env (player_request pid) = Ok payload /\ p = Api._first_dict payload.
Proof.
  intros Hok.
  destruct (paced_loop_answered env ids [] s Hok NoDup_nil_2) as (out & Hrun & Hnd & Hlook).
  exists out. split; [exact Hrun|]. split; [exact Hnd|].
  intros pid p. rewrite elem_of_list_to_map by done. rewrite Hlook.
  split; [intros [H|[_ H]]; [done | by simpl in H; rewrite lookup_empty in H] | by left].
Qed.

Lemma paced_fetch_one_request_per_id_witness :
  let env := Scenario.answering (PList [PDict [("Name", PStr "Judd Trump")]]) in
  exists out,
    Api.paced_player_fetch env [5; 7; 5] Scenario.fresh
    = (Ok out, after_requests Scenario.fresh (reverse (player_request <$> [5; 7; 5])))
    /\ NoDup out.*1.
Proof.
  intros env.
  destruct (paced_fetch_one_request_per_id env [5; 7; 5] Scenario.fresh) as (out & H1 & H2 & _).
  - repeat constructor.
  - exists out. by split.
Defined.

Lemma paced_loop_failure env before pid later e out s :
  Forall (fun pid => is_ok (get_json env (player_request pid)) = true) before ->
  get_json env (player_request pid) = Raise e ->
  Api.paced_loop env (before ++ pid :: later) out s
  = (Raise e, after_requests s (reverse (player_request <$> before ++ [pid]))).
Proof.
  intros Hok Hfail. revert out s.
  induction Hok as [|q before Hq _ IH]; intros out s.
  - cbn [app Api.paced_loop]. unfold bind. rewrite get_player_run, Hfail. reflexivity.
  - cbn [app Api.paced_loop]. unfold bind at 1. rewrite get_player_run.
    destruct (get_json env (player_request q)) as [payload|e'] eqn:E; [|discriminate].
    rewrite IH, after_requests_app. by rewrite fmap_cons, reverse_cons.
Qed.

(** X4: [paced_player_fetch] stops at the first player request that
    fails: the error leaves the call as it came, the ids after the
    failing one are never requested, and none of the payloads fetched
    before it is handed back. *)
Theorem paced_fetch_stops_at_first_failure (env : Env) (before later : list Z) (pid : Z)
  (e : exn) (s : State) :
  Forall (fun pid => is_ok (get_json env (player_request pid)) = true) before ->
  get_json env (player_request pid) = Raise e ->
  Api.paced_player_fetch env (before ++ pid :: later) s
  = (Raise e, after_requests s (reverse (player_request <$> before ++ [pid]))).
Proof. intros Hok Hfail. by apply paced_loop_failure. Qed.

Lemma paced_fetch_stops_at_first_failure_witness :
  let env :=
    {| get_json := fun params =>
         match Py.get params "p" with
         | PInt 7 => Raise (ClientError "500")
         | _ => Ok (PDict [("Name", PStr "Judd Trump")])
         end;
       async_save := fun _ => Ok tt;
       utcnow := 0;
       parse_datetime := fun _ => Ok None;
       isoformat := fun _ => "";
       as_local := fun wall => wall |} in
  Api.paced_player_fetch env [5; 7; 9] Scenario.fresh
  = (Raise (ClientError "500"),
     after_requests Scenario.fresh [player_request 7; player_request 5]).
Proof.
  intros env.
  apply (paced_fetch_stops_at_first_failure env [5] [9] 7 (ClientError "500") Scenario.fresh).
  - repeat constructor.
  - reflexivity.
Defined.

(** ** The pollers that only read *)

Section Readers.
Context (R : relation State) `{!PreOrder R}.
Hypothesis R_request : forall env params, respects R (Api._get_json env params).

Lemma respects_season_payload_of env season_coord_data :
  respects R (season_payload_of env season_coord_data).
Proof.
  unfold season_payload_of, Api.get_current_season.
  repeat (respects_step || apply R_request).
Qed.

Lemma respects_season_cycle env : respects R (SeasonCoordinator._async_update_data env).
Proof.
  unfold SeasonCoordinator._async_update_data, Api.get_current_season.
  repeat (respects_step || apply R_request).
Qed.

Lemma respects_rankings_cycle env season_coord_data :
  respects R (RankingsCoordinator._async_update_data env season_coord_data).
Proof.
  unfold RankingsCoordinator._async_update_data, Api.get_rankings.
  respects_step; [|by respects_step].
  respects_step; [apply respects_season_payload_of|].
  repeat (respects_step || apply R_request).
Qed.

Lemma respects_events_fetch_tours env season tours acc :
  respects R (EventsInSeasonCoordinator.fetch_tours env season tours acc).
Proof.
  revert acc. induction tours as [|tr tours IH]; intros acc; simpl; [by respects_step|].
  respects_step; [apply R_request|]. respects_step; [by respects_step | apply IH].
Qed.

Lemma respects_events_cycle env season_coord_data tours :
  respects R (EventsInSeasonCoordinator._async_update_data env season_coord_data tours).
Proof.
  unfold EventsInSeasonCoordinator._async_update_data.
  respects_step; [|by respects_step].
  respects_step; [apply respects_season_payload_of|].
  respects_step; [by respects_step|].
  respects_step; [|repeat respects_step].
  unfold EventsInSeasonCoordinator.fetch_events. destruct tours as [|tr tours].
  - unfold Api.get_events_in_season. respects_step; [apply R_request | by respects_step].
  - apply respects_events_fetch_tours.
Qed.
End Readers.

#[local] Instance untouched_preorder : PreOrder untouched.
Proof.
  split; [by intros s|]. intros s1 s2 s3 [H1 H2] [H3 H4]. unfold untouched. split; congruence.
Qed.

Lemma untouched_get_json env params : respects untouched (Api._get_json env params).
Proof. by intros s. Qed.

Lemma update_failed_only {A} (m : M A) what s e :
  fst (try_except m (fun err => raise (UpdateFailed what err)) s) = Raise e ->
  exists cause, e = UpdateFailed what cause.
Proof.
  unfold try_except, raise. destruct (m s) as [[a|err] s1]; simpl; [discriminate|].
  intros [= <-]. by exists err.
Qed.

(** X5: the Season, Rankings and Events pollers only read.  Whatever
    the session answers and whether the cycle ends well or not, the
    player cache and the persisted record are afterwards what they were
    before; and a cycle that fails raises [UpdateFailed] with the
    poller's own message around the cause, never another error. *)
Theorem reading_pollers_touch_nothing (env : Env) (season_coord_data : option pydict)
  (tours : list string) (s : State) :
  let season := SeasonCoordinator._async_update_data env s in
  let rankings := RankingsCoordinator._async_update_data env season_coord_data s in
  let events := EventsInSeasonCoordinator._async_update_data env season_coord_data tours s in
  untouched s (snd season) /\ untouched s (snd rankings) /\ untouched s (snd events)
  /\ (forall e, fst season = Raise e ->
                exists cause, e = UpdateFailed "Failed to fetch current season" cause)
  /\ (forall e, fst rankings = Raise e ->
                exists cause, e = UpdateFailed "Failed to fetch rankings" cause)
  /\ (forall e, fst events = Raise e ->
                exists cause, e = UpdateFailed "Failed to fetch events in season" cause).
Proof.
  intros season rankings events. repeat split.
  - by apply (respects_season_cycle untouched untouched_get_json).
  - by apply (respects_season_cycle untouched untouched_get_json).
  - by apply (respects_rankings_cycle untouched untouched_get_json).
  - by apply (respects_rankings_cycle untouched untouched_get_json).
  - by apply (respects_events_cycle untouched untouched_get_json).
  - by apply (respects_events_cycle untouched untouched_get_json).
  - intros e. apply update_failed_only.
  - intros e. apply update_failed_only.
  - intros e. apply update_failed_only.
Qed.

(** ** The persisted record and the cache in memory *)

Section Fetches.
Context (R : relation State) `{!PreOrder R}.
Hypothesis R_request : forall env params, respects R (Api._get_json env params).

Lemma respects_upcoming_fetch_tours env tours acc :
  respects R (UpcomingMatchesCoordinator.fetch_tours env tours acc).
Proof.
  revert acc. induction tours as [|tr tours IH]; intros acc; simpl; [by respects_step|].
  respects_step; [apply R_request|]. respects_step; [by respects_step | apply IH].
Qed.

Lemma respects_scores_fetch_tours env tours acc :
  respects R (MatchScoresCoordinator.fetch_tours env tours acc).
Proof.
  revert acc. induction tours as [|tr tours IH]; intros acc; simpl; [by respects_step|].
  respects_step; [|apply IH]. unfold Api.get_current_matches.
  respects_step; [apply R_request | by respects_step].
Qed.

End Fetches.

#[local] Instance same_store_preorder : PreOrder same_store.
Proof.
  split; [by intros s|]. intros s1 s2 s3 H1 H2. unfold same_store in *. congruence.
Qed.

Lemma same_store_get_json env params : respects same_store (Api._get_json env params).
Proof. by intros s. Qed.

Lemma same_store_set_player_name pid name : respects same_store (set_player_name pid name).
Proof. by intros s. Qed.

Lemma same_store_store_names payload : respects same_store (store_names payload).
Proof.
  apply respects_store_names; [apply _|]. intros. apply same_store_set_player_name.
Qed.

Lemma same_store_paced_player_fetch env ids :
  respects same_store (Api.paced_player_fetch env ids).
Proof. apply respects_paced_player_fetch; [apply _ | apply same_store_get_json]. Qed.

Lemma settles_same_store {A} (m : M A) : respects same_store m -> settles m.
Proof. intros H s. left. apply H. Qed.

Lemma settles_then {A B} (m : M A) (k : A -> M B) :
  settles m -> (forall a, respects untouched (k a)) -> settles (bind m k).
Proof.
  intros Hm Hk s. unfold bind. specialize (Hm s).
  destruct (m s) as [[a|e] s1]; simpl in *; [|done].
  destruct (Hk a s1) as [Hc Hs]. destruct Hm as [Hm|Hm].
  - left. unfold same_store in *. congruence.
  - right. unfold in_sync in *. congruence.
Qed.

Lemma settles_after {A B} (m : M A) (k : A -> M B) :
  respects same_store m -> (forall a, settles (k a)) -> settles (bind m k).
Proof.
  intros Hm Hk s. unfold bind. specialize (Hm s).
  destruct (m s) as [[a|e] s1]; simpl in *; [|by left].
  destruct (Hk a s1) as [H|H]; [left | by right]. unfold same_store in *. congruence.
Qed.

Lemma settles_try_except {A} (m : M A) h :
  settles m -> (forall e, respects untouched (h e)) -> settles (try_except m h).
Proof.
  intros Hm Hh s. unfold try_except. specialize (Hm s).
  destruct (m s) as [[a|e] s1]; simpl in *; [done|].
  destruct (Hh e s1) as [Hc Hs]. destruct Hm as [Hm|Hm].
  - left. unfold same_store in *. congruence.
  - right. unfold in_sync in *. congruence.
Qed.

Lemma settles_save env : settles (let* cache := get_cache in save_player_cache env cache).
Proof.
  intros s. unfold bind, get_cache, save_player_cache.
  destruct (async_save env _); simpl; [by right | by left].
Qed.

Lemma settles_save_then {A} env (k : unit -> M A) :
  (forall u, respects untouched (k u)) ->
  settles (let* cache := get_cache in let* u := save_player_cache env cache in k u).
Proof.
  intros Hk.
  assert (settles (let* u := (let* cache := get_cache in save_player_cache env cache) in k u))
    as H by (apply settles_then; [apply settles_save | exact Hk]).
  intros s. specialize (H s). unfold bind, get_cache in *. exact H.
Qed.

Lemma settles_upcoming_cycle env tours :
  settles (UpcomingMatchesCoordinator._async_update_data env tours).
Proof.
  unfold UpcomingMatchesCoordinator._async_update_data.
  apply settles_try_except; [|by intros; respects_step].
  apply settles_after; [apply respects_upcoming_fetch_tours; [apply _ | apply same_store_get_json]|].
  intros all_matches. apply settles_after; [by respects_step|]. intros cache.
  apply settles_then; [|by intros; respects_step].
  destruct (bool_decide _); [apply settles_same_store; by respects_step|].
  unfold UpcomingMatchesCoordinator.enrich, UpcomingMatchesCoordinator.backfill.
  apply settles_try_except; [|by intros; respects_step].
  apply settles_after; [apply same_store_paced_player_fetch|]. intros payload.
  apply settles_after; [apply same_store_store_names|]. intros _.
  apply settles_save.
Qed.

Lemma settles_scores_cycle env tours events_coord_data :
  settles (MatchScoresCoordinator._async_update_data env tours events_coord_data).
Proof.
  unfold MatchScoresCoordinator._async_update_data.
  apply settles_try_except; [|by intros; respects_step].
  apply settles_after; [apply respects_scores_fetch_tours; [apply _ | apply same_store_get_json]|].
  intros raw_matches. apply settles_after; [by respects_step|]. intros cache.
  apply settles_after; [by respects_step|]. intros built.
  apply settles_then; [|by intros; respects_step].
  destruct (bool_decide _); [apply settles_same_store; by respects_step|].
  unfold MatchScoresCoordinator.enrich, MatchScoresCoordinator.backfill.
  apply settles_try_except; [|by intros; respects_step].
  apply settles_after; [apply same_store_paced_player_fetch|]. intros payload.
  apply settles_after; [apply same_store_store_names|]. intros _.
  apply settles_save_then. intros _. respects_step; by respects_step.
Qed.

Lemma settles_monthly_refresh env : settles (maybe_refresh_player_cache_monthly env).
Proof.
  unfold maybe_refresh_player_cache_monthly, refresh_player_cache.
  apply settles_after; [by respects_step|]. intros cache.
  apply settles_after; [by respects_step|]. intros skip.
  destruct skip; [apply settles_same_store; by respects_step|].
  unfold Api.get_current_season, Api.get_rankings.
  apply settles_after;
    [respects_step; [apply same_store_get_json | by respects_step]|]. intros season_payload.
  apply settles_after; [by respects_step|]. intros season.
  apply settles_after;
    [respects_step; [apply same_store_get_json | by respects_step]|]. intros rankings.
  apply settles_after; [by respects_step|]. intros top100_ids.
  apply settles_after; [apply same_store_paced_player_fetch|]. intros payload.
  apply settles_after; [apply same_store_store_names|]. intros _.
  apply settles_after; [by intros s|]. intros _.
  apply settles_save.
Qed.

(** X6: the two pollers that backfill names and the monthly refresh
    never leave a half-written record behind.  After any of them, in
    every outcome, the persisted record is either exactly what it was
    before the call or exactly the player cache as it is in memory when
    the call ends. *)
Theorem stored_cache_is_old_or_current (env : Env) (tours : list string)
  (events_coord_data : option EventsInSeasonCoordinator.Data) (s : State) :
  let old_or_current s' :=
    storage s' = storage s \/ storage s' = Some (dump (player_cache s')) in
  old_or_current (snd (UpcomingMatchesCoordinator._async_update_data env tours s))
  /\ old_or_current (snd (MatchScoresCoordinator._async_update_data env tours events_coord_data s))
  /\ old_or_current (snd (maybe_refresh_player_cache_monthly env s)).
Proof.
  intros old_or_current. split; [|split].
  - apply settles_upcoming_cycle.
  - apply settles_scores_cycle.
  - apply settles_monthly_refresh.
Qed.

(** ** The outcomes of the monthly refresh *)

Lemma bind_ok_inv {A B} (m : M A) (k : A -> M B) s b s' :
  bind m k s = (Ok b, s') -> exists a s1, m s = (Ok a, s1) /\ k a s1 = (Ok b, s').
Proof.
  unfold bind. destruct (m s) as [[a|e] s1]; [|discriminate]. intros H. by exists a, s1.
Qed.

Lemma failure_keeps_respects (R : relation State) {A} (m : M A) :
  respects R m -> failure_keeps R m.
Proof. intros H s e s' Hrun. specialize (H s). by rewrite Hrun in H. Qed.

Lemma failure_keeps_bind (R : relation State) `{!PreOrder R} {A B} (m : M A) (k : A -> M B) :
  respects R m -> (forall a, failure_keeps R (k a)) -> failure_keeps R (bind m k).
Proof.
  intros Hm Hk s e s'. unfold bind. specialize (Hm s).
  destruct (m s) as [[a|e1] s1]; simpl in *.
  - intros Hrun. etrans; [exact Hm | by eapply Hk].
  - by intros [= <- <-].
Qed.

Lemma failure_keeps_save (R : relation State) `{!PreOrder R} env :
  failure_keeps R (let* cache := get_cache in save_player_cache env cache).
Proof.
  intros s e s'. unfold bind, get_cache, save_player_cache.
  destruct (async_save env _); [discriminate|]. by intros [= <- <-].
Qed.

Lemma refresh_failure_keeps_store env : failure_keeps same_store (refresh_player_cache env).
Proof.
  unfold refresh_player_cache, Api.get_current_season, Api.get_rankings.
  apply failure_keeps_bind; [apply _ | |intros season_payload].
  { respects_step; [apply same_store_get_json | by respects_step]. }
  apply failure_keeps_bind; [apply _ | by respects_step |intros season].
  apply failure_keeps_bind; [apply _ | |intros rankings].
  { respects_step; [apply same_store_get_json | by respects_step]. }
  apply failure_keeps_bind; [apply _ | by respects_step |intros top100_ids].
  apply failure_keeps_bind; [apply _ | apply same_store_paced_player_fetch |intros payload].
  apply failure_keeps_bind; [apply _ | apply same_store_store_names |intros _].
  apply failure_keeps_bind; [apply _ | by intros s |intros _].
  apply failure_keeps_save; apply _.
Qed.

Lemma refresh_tail_ok env payload stamp s :
  (forall doc, async_save env doc = Ok tt) ->
  fst ((let* _ := store_names payload in
        let* _ := set_last_refreshed stamp in
        let* cache := get_cache in
        save_player_cache env cache) s) = Ok tt.
Proof.
  intros Hsave. unfold bind at 1. pose proof (store_names_ok payload s) as H.
  destruct (store_names payload s) as [[[]|e] s1]; simpl in H; [|discriminate].
  unfold bind, set_last_refreshed, get_cache, save_player_cache. simpl. by rewrite Hsave.
Qed.

Lemma refresh_failure_keeps_cache env :
  (forall doc, async_save env doc = Ok tt) ->
  failure_keeps same_cache (refresh_player_cache env).
Proof.
  intros Hsave.
  unfold refresh_player_cache, Api.get_current_season, Api.get_rankings.
  apply failure_keeps_bind; [apply _ | |intros season_payload].
  { respects_step; [apply same_cache_get_json | by respects_step]. }
  apply failure_keeps_bind; [apply _ | by respects_step |intros season].
  apply failure_keeps_bind; [apply _ | |intros rankings].
  { respects_step; [apply same_cache_get_json | by respects_step]. }
  apply failure_keeps_bind; [apply _ | by respects_step |intros top100_ids].
  apply failure_keeps_bind; [apply _ | apply same_cache_paced_player_fetch |intros payload].
  intros s e s' Hrun.
  pose proof (refresh_tail_ok env payload (PStr (isoformat env (utcnow env))) s Hsave) as Hok.
  rewrite Hrun in Hok. discriminate.
Qed.

Lemma refresh_success env s s' :
  refresh_player_cache env s = (Ok tt, s') ->
  last_refreshed (player_cache s') = PStr (isoformat env (utcnow env)) /\ in_sync s'.
Proof.
  unfold refresh_player_cache. intros H.
  do 6 apply bind_ok_inv in H as (? & ? & _ & H).
  unfold bind, set_last_refreshed, get_cache, save_player_cache in H. simpl in H.
  destruct (async_save env _); [|discriminate]. injection H as <-. by split.
Qed.

(** X7: the monthly refresh is all or nothing for what is stored.  When
    a refresh that was let through ends well, the cache carries the stamp
    of now and the persisted record is that cache.  When it raises, the
    persisted record is what it was; and with a store that does not fail,
    the cache in memory is what it was as well: names are only written
    once every player payload is at hand. *)
Theorem monthly_refresh_all_or_nothing (env : Env) (s s' : State) :
  (skip_refresh env (player_cache s) = Ok false ->
   maybe_refresh_player_cache_monthly env s = (Ok tt, s') ->
   last_refreshed (player_cache s') = PStr (isoformat env (utcnow env))
   /\ storage s' = Some (dump (player_cache s')))
  /\ (forall e,
        maybe_refresh_player_cache_monthly env s = (Raise e, s') ->
        storage s' = storage s
        /\ ((forall doc, async_save env doc = Ok tt) -> player_cache s' = player_cache s)).
Proof.
  rewrite maybe_refresh_unfold. split.
  - intros ->. apply refresh_success.
  - intros e. destruct (skip_refresh env (player_cache s)) as [[|]|e']; [discriminate| |].
    + intros Hrun. split; [by eapply refresh_failure_keeps_store|].
      intros Hsave. by eapply refresh_failure_keeps_cache.
    + by intros [= _ <-].
Qed.

Lemma monthly_refresh_all_or_nothing_witness :
  let env :=
    Scenario.provider (PList [PDict [("Season", PInt 2024); ("PlayerID", PInt 5)]])
      (PDict [("Name", PStr "Judd Trump")]) (Ok tt) in
  exists s',
    maybe_refresh_player_cache_monthly env Scenario.fresh = (Ok tt, s')
    /\ last_refreshed (player_cache s') = PStr (isoformat env (utcnow env))
    /\ storage s' = Some (dump (player_cache s')).
Proof.
  intros env. eexists. split; [vm_compute; reflexivity|].
  apply (proj1 (monthly_refresh_all_or_nothing env Scenario.fresh _)); vm_compute; reflexivity.
Defined.

(** X8: a refresh that ended well is not run again within thirty days.
    Read with a clock that has moved on by less than thirty days, and a
    parser that reads the stamp written as the instant it was written
    at, the next call returns at once and sends nothing. *)
Theorem refreshed_cache_is_skipped (env later : Env) (s s' : State) :
  isoformat env (utcnow env) <> "" ->
  parse_datetime later (isoformat env (utcnow env)) = Ok (Some (Aware (utcnow env))) ->
  utcnow later - utcnow env < timedelta_days MONTHLY_REFRESH_DAYS ->
  refresh_player_cache env s = (Ok tt, s') ->
  maybe_refresh_player_cache_monthly later s' = (Ok tt, s').
Proof.
  intros Hne Hparse Hclock Hrun. apply refresh_success in Hrun as [Hstamp _].
  rewrite maybe_refresh_unfold. unfold skip_refresh, parse_last. rewrite Hstamp. simpl.
  destruct (String.eqb_spec (isoformat env (utcnow env)) ""); [done|]. simpl.
  rewrite Hparse. by apply Z.ltb_lt in Hclock as ->.
Qed.

Lemma refreshed_cache_is_skipped_witness :
  let listing := PList [PDict [("Season", PInt 2024); ("PlayerID", PInt 5)]] in
  let player := PDict [("Name", PStr "Judd Trump")] in
  let env := serving listing player 0 in
  let later := serving listing player (timedelta_days 29) in
  exists s',
    refresh_player_cache env Scenario.fresh = (Ok tt, s')
    /\ maybe_refresh_player_cache_monthly later s' = (Ok tt, s').
Proof.
  intros listing player env later. eexists. split; [vm_compute; reflexivity|].
  apply (refreshed_cache_is_skipped env later Scenario.fresh _).
  - discriminate.
  - reflexivity.
  - reflexivity.
  - vm_compute; reflexivity.
Defined.

(** ** The order and the size of the Match-Scores list *)

Lemma by_date_then_id_spec x y :
  MatchScoresCoordinator.by_date_then_id x y = true <-> date_then_id x y.
Proof.
  unfold MatchScoresCoordinator.by_date_then_id, date_then_id.
  rewrite orb_true_iff, andb_true_iff, String.eqb_eq, Z.leb_le. tauto.
Qed.

Lemma date_then_id_total (dx dy : string) (a b : Z) :
  String.ltb dx dy || (String.eqb dx dy && (a <=? b)) = false ->
  String.ltb dy dx || (String.eqb dy dx && (b <=? a)) = true.
Proof.
  unfold String.ltb. rewrite (String.compare_antisym dy dx).
  destruct (String.compare dx dy) eqn:E; simpl; try done.
  apply String.compare_eq_iff in E. subst dy. rewrite String.eqb_refl. simpl.
  intros H. apply Z.leb_le. apply Z.leb_gt in H. lia.
Qed.

Lemma by_date_then_id_total x y :
  MatchScoresCoordinator.by_date_then_id x y = false ->
  MatchScoresCoordinator.by_date_then_id y x = true.
Proof. apply date_then_id_total. Qed.

Lemma string_ltb_trans x y z :
  String.ltb x y = true -> String.ltb y z = true -> String.ltb x z = true.
Proof.
  unfold String.ltb.
  destruct (String.compare x y) eqn:Exy; try discriminate; intros _.
  destruct (String.compare y z) eqn:Eyz; try discriminate; intros _.
  apply String_as_OT.cmp_lt in Exy, Eyz.
  pose proof (String_as_OT.lt_trans _ _ _ Exy Eyz) as Hxz.
  apply String_as_OT.cmp_lt in Hxz. unfold String_as_OT.cmp in Hxz. by rewrite Hxz.
Qed.

Lemma date_then_id_trans : Transitive date_then_id.
Proof.
  intros x y z [H1|[E1 H1]] [H2|[E2 H2]]; unfold date_then_id.
  - left. by eapply string_ltb_trans.
  - left. by rewrite <- E2.
  - left. by rewrite E1.
  - right. split; [congruence | lia].
Qed.

Lemma try_raise_ok_inv {A} (m : M A) (h : exn -> exn) s a s' :
  try_except m (fun err => raise (h err)) s = (Ok a, s') -> m s = (Ok a, s').
Proof. unfold try_except, raise. by destruct (m s) as [[b|e] s1]. Qed.

Lemma build_matches_length cache em raw_matches acc macc ms missing :
  MatchScoresCoordinator.build_matches cache em raw_matches acc macc = Ok (ms, missing) ->
  length ms = (length acc + length raw_matches)%nat.
Proof.
  revert acc macc. induction raw_matches as [|m r IH]; intros acc macc; simpl.
  - intros [= <- _]. lia.
  - destruct (MatchScoresCoordinator.build_match cache em m) as [built|e]; [|discriminate].
    simpl. intros H. apply IH in H. rewrite length_app in H. simpl in H. lia.
Qed.

Lemma scores_backfill_ok_inv env missing ms s out s' :
  MatchScoresCoordinator.backfill env missing ms s = (Ok out, s') ->
  out = List.map (MatchScoresCoordinator.rename (player_cache s')) ms
  /\ in_sync s'
  /\ exists payload s1,
       Api.paced_player_fetch env (Py.sorted Z.leb (elements missing)) s = (Ok payload, s1)
       /\ player_cache s' = player_cache (snd (store_names payload s1)).
Proof.
  unfold MatchScoresCoordinator.backfill. intros H.
  apply bind_ok_inv in H as (payload & s1 & Hfetch & H).
  apply bind_ok_inv in H as ([] & s2 & Hstore & H).
  unfold bind, get_cache, save_player_cache, ret in H.
  destruct (async_save env _); [|discriminate]. injection H as <- <-. simpl.
  split; [done|]. split; [done|]. exists payload, s1. split; [done|]. by rewrite Hstore.
Qed.

Lemma scores_enrich_length env missing ms s out s' :
  MatchScoresCoordinator.enrich env missing ms s = (Ok out, s') -> length out = length ms.
Proof.
  unfold MatchScoresCoordinator.enrich, try_except.
  destruct (MatchScoresCoordinator.backfill env missing ms s) as [[out'|e] s1] eqn:E.
  - intros [= <- <-]. apply scores_backfill_ok_inv in E as [-> _]. by rewrite length_map.
  - by intros [= <- <-].
Qed.

(** X9: what the Match-Scores poller publishes is in order of scheduled
    date, and of match id among the matches of one date (the text of the
    date is compared, an absent date being the empty text, which comes
    first); [count] is the length of the list; and nothing is filtered:
    there is one entry per match fetched. *)
Theorem match_scores_sorted_and_complete (env : Env) (tours : list string)
  (events_coord_data : option EventsInSeasonCoordinator.Data) (s s' : State)
  (data : MatchScoresCoordinator.Data) :
  MatchScoresCoordinator._async_update_data env tours events_coord_data s = (Ok data, s') ->
  StronglySorted date_then_id (MatchScoresCoordinator.matches data)
  /\ MatchScoresCoordinator.count data = length (MatchScoresCoordinator.matches data)
  /\ exists raw_matches s1,
       MatchScoresCoordinator.fetch_tours env tours [] s = (Ok raw_matches, s1)
       /\ MatchScoresCoordinator.count data = length raw_matches.
Proof.
  unfold MatchScoresCoordinator._async_update_data. intros H.
  apply try_raise_ok_inv in H.
  apply bind_ok_inv in H as (raw_matches & s1 & Hfetch & H).
  apply bind_ok_inv in H as (cache & s2 & _ & H).
  apply bind_ok_inv in H as ([ms missing] & s3 & Hbuilt & H).
  apply bind_ok_inv in H as (published & s4 & Hpub & H).
  injection H as <- <-. simpl. split; [|split; [done|]].
  - eapply StronglySorted_weaken; [intros x y; apply by_date_then_id_spec|].
    apply sorted_StronglySorted; [apply by_date_then_id_total|].
    intros x y z Hxy Hyz. apply by_date_then_id_spec.
    eapply date_then_id_trans; by apply by_date_then_id_spec.
  - exists raw_matches, s1. split; [done|].
    rewrite sorted_length.
    unfold lift in Hbuilt. injection Hbuilt as Hbuilt _.
    apply build_matches_length in Hbuilt. simpl in *.
    destruct (bool_decide _).
    + injection Hpub as <- _. lia.
    + apply scores_enrich_length in Hpub. lia.
Qed.

Lemma match_scores_sorted_and_complete_witness :
  let env :=
    Scenario.answering
      (PList [PDict [("ID", PInt 5)]; PDict [("ID", PInt 3)];
              PDict [("ID", PInt 1); ("ScheduledDate", PStr "2024-05-01")]]) in
  exists data s',
    MatchScoresCoordinator._async_update_data env ["main"] None Scenario.fresh = (Ok data, s')
    /\ MatchScoresCoordinator.MatchID <$> MatchScoresCoordinator.matches data = [3; 5; 1]
    /\ StronglySorted date_then_id (MatchScoresCoordinator.matches data).
Proof.
  intros env.
  edestruct (match_scores_sorted_and_complete env ["main"] None Scenario.fresh) as (Hs & _ & _);
    [vm_compute; reflexivity|].
  eexists _, _. split; [vm_compute; reflexivity|]. split; [reflexivity | exact Hs].
Defined.

(** ** Names after a backfill that went through *)

Lemma set_player_keys (out : list (Z * pydict)) pid p k :
  k ∈ (Api.set_player out pid p).*1 <-> k = pid \/ k ∈ out.*1.
Proof.
  induction out as [|[k' v] out IH]; simpl.
  - rewrite elem_of_cons, elem_of_nil. tauto.
  - destruct (Z.eqb_spec k' pid) as [->|Hne]; simpl; rewrite !elem_of_cons; [tauto|].
    rewrite IH. tauto.
Qed.

Lemma paced_loop_keys env ids out s out' s' :
  Api.paced_loop env ids out s = (Ok out', s') ->
  forall k, k ∈ out'.*1 <-> k ∈ ids \/ k ∈ out.*1.
Proof.
  revert out s. induction ids as [|pid ids IH]; intros out s; cbn [Api.paced_loop].
  - intros [= <- _] k. rewrite elem_of_nil. tauto.
  - intros H. apply bind_ok_inv in H as (p & s1 & _ & H). intros k.
    rewrite (IH _ _ H k), set_player_keys, elem_of_cons. tauto.
Qed.

Lemma store_names_cons kv payload s :
  store_names (kv :: payload) s
  = store_names payload (snd (set_player_name kv.1 (_player_name_from_payload kv.2) s)).
Proof. reflexivity. Qed.

Lemma store_names_keys payload s n :
  is_Some (players (player_cache (snd (store_names payload s))) !! n)
  <-> n ∈ payload.*1 \/ is_Some (players (player_cache s) !! n).
Proof.
  revert s. induction payload as [|[k p] payload IH]; intros s.
  - simpl. rewrite elem_of_nil. tauto.
  - rewrite store_names_cons, IH. cbn [fst snd set_player_name player_cache players fmap list_fmap].
    rewrite elem_of_cons. destruct (decide (n = k)) as [->|Hne].
    + rewrite lookup_insert_eq. split; [by left; left | by intros; right].
    + rewrite lookup_insert_ne by done. tauto.
Qed.

Lemma elem_of_sorted_elements (missing : gset Z) n :
  n ∈ Py.sorted Z.leb (elements missing) <-> n ∈ missing.
Proof. by rewrite (sorted_perm Z.leb (elements missing)), elem_of_elements. Qed.

Lemma backfilled_ids_cached env (missing : gset Z) s payload s1 n :
  Api.paced_player_fetch env (Py.sorted Z.leb (elements missing)) s = (Ok payload, s1) ->
  is_Some (players (player_cache (snd (store_names payload s1))) !! n)
  <-> n ∈ missing \/ is_Some (players (player_cache s) !! n).
Proof.
  intros Hfetch. rewrite store_names_keys.
  pose proof (same_cache_paced_player_fetch env (Py.sorted Z.leb (elements missing)) s) as Hc.
  rewrite Hfetch in Hc. unfold same_cache in Hc. simpl in Hc. rewrite Hc.
  unfold Api.paced_player_fetch in Hfetch.
  rewrite (paced_loop_keys _ _ _ _ _ _ Hfetch n), elem_of_sorted_elements.
  simpl. rewrite elem_of_nil. tauto.
Qed.

Lemma note_missing_mono cache pid (missing : gset Z) n :
  n ∈ missing -> n ∈ MatchScoresCoordinator.note_missing cache pid missing.
Proof.
  unfold MatchScoresCoordinator.note_missing. intros H.
  destruct pid as [k|]; [|done]. destruct (MatchScoresCoordinator.id_truthy _); [|done].
  destruct (players cache !! k); [done | set_solver].
Qed.

Lemma note_missing_notes cache (missing : gset Z) n :
  n <> 0 ->
  n ∈ MatchScoresCoordinator.note_missing cache (Some n) missing
  \/ is_Some (players cache !! n).
Proof.
  intros Hn. unfold MatchScoresCoordinator.note_missing, MatchScoresCoordinator.id_truthy.
  destruct (Z.eqb_spec n 0); [done|]. simpl.
  destruct (players cache !! n); [by right | left; set_solver].
Qed.

Lemma build_matches_noted cache em raw_matches acc macc ms missing :
  MatchScoresCoordinator.build_matches cache em raw_matches acc macc = Ok (ms, missing) ->
  (forall x n, x ∈ acc -> n <> 0 ->
               MatchScoresCoordinator.Player1ID x = Some n
               \/ MatchScoresCoordinator.Player2ID x = Some n ->
               n ∈ macc \/ is_Some (players cache !! n)) ->
  (forall n, n ∈ macc -> n ∈ missing)
  /\ (forall x n, x ∈ ms -> n <> 0 ->
                  MatchScoresCoordinator.Player1ID x = Some n
                  \/ MatchScoresCoordinator.Player2ID x = Some n ->
                  n ∈ missing \/ is_Some (players cache !! n)).
Proof.
  revert acc macc. induction raw_matches as [|m r IH]; intros acc macc; simpl.
  - intros [= <- <-] Hacc. by split.
  - destruct (MatchScoresCoordinator.build_match cache em m) as [built|e]; [|discriminate].
    simpl. intros Hrun Hacc. apply IH in Hrun as [Hmono Hms].
    + split; [|exact Hms]. intros n Hn. by apply Hmono, note_missing_mono, note_missing_mono.
    + intros x n [Hx|Hx]%elem_of_app Hn Hid.
      * destruct (Hacc x n Hx Hn Hid) as [H|H]; [left | by right].
        by apply note_missing_mono, note_missing_mono.
      * apply list_elem_of_singleton in Hx as ->. destruct Hid as [Hid|Hid]; rewrite Hid.
        -- destruct (note_missing_notes cache macc n Hn) as [H|H]; [left | by right].
           by apply note_missing_mono.
        -- apply note_missing_notes, Hn.
Qed.

Lemma scores_backfill_succeeds env missing ms s :
  (forall pid, is_ok (get_json env (player_request pid)) = true) ->
  (forall doc, async_save env doc = Ok tt) ->
  is_ok (fst (MatchScoresCoordinator.backfill env missing ms s)) = true.
Proof.
  intros Hget Hsave. unfold MatchScoresCoordinator.backfill.
  destruct (paced_loop_answered env (Py.sorted Z.leb (elements missing)) [] s)
    as (out & Hrun & _); [by apply Forall_forall | apply NoDup_nil_2 |].
  unfold bind at 1. unfold Api.paced_player_fetch. rewrite Hrun.
  unfold bind at 1. pose proof (store_names_ok out (after_requests s
    (reverse (player_request <$> Py.sorted Z.leb (elements missing))))) as Hnames.
  destruct (store_names out _) as [[[]|e] s2]; simpl in Hnames; [|discriminate].
  unfold bind, get_cache, save_player_cache, ret. by rewrite Hsave.
Qed.

Lemma rename_in_sorted cache ms x :
  x ∈ Py.sorted MatchScoresCoordinator.by_date_then_id
        (List.map (MatchScoresCoordinator.rename cache) ms) ->
  exists x0, x0 ∈ ms /\ x = MatchScoresCoordinator.rename cache x0.
Proof.
  rewrite (sorted_perm MatchScoresCoordinator.by_date_then_id).
  intros (x0 & -> & Hx0)%list_elem_of_fmap. by exists x0.
Qed.

(** X10: after a backfill that went through, and also when no name was
    missing, every name the Match-Scores poller publishes for a non-zero
    player id is the name the cache holds for that id when the cycle
    ends: every such id is in the cache and the placeholder is not
    used.  The backfill goes
    through whenever the player requests are answered and the store
    accepts the record. *)
Theorem match_scores_names_are_cached (env : Env) (tours : list string)
  (events_coord_data : option EventsInSeasonCoordinator.Data) :
  (forall s raw_matches s1 ms missing,
     MatchScoresCoordinator.fetch_tours env tours [] s = (Ok raw_matches, s1) ->
     MatchScoresCoordinator.build_matches (player_cache s1)
       (MatchScoresCoordinator.events_map_of events_coord_data) raw_matches [] ∅
     = Ok (ms, missing) ->
     elements missing = []
     \/ is_ok (fst (MatchScoresCoordinator.backfill env missing ms s1)) = true ->
     exists data s',
       MatchScoresCoordinator._async_update_data env tours events_coord_data s = (Ok data, s')
       /\ forall x n,
            x ∈ MatchScoresCoordinator.matches data -> n <> 0 ->
            (MatchScoresCoordinator.Player1ID x = Some n ->
             players (player_cache s') !! n = Some (MatchScoresCoordinator.Player1Name x))
            /\ (MatchScoresCoordinator.Player2ID x = Some n ->
                players (player_cache s') !! n = Some (MatchScoresCoordinator.Player2Name x)))
  /\ (forall missing ms s,
        (forall pid, is_ok (get_json env (player_request pid)) = true) ->
        (forall doc, async_save env doc = Ok tt) ->
        is_ok (fst (MatchScoresCoordinator.backfill env missing ms s)) = true).
Proof.
  split; [|intros; by apply scores_backfill_succeeds].
  intros s raw_matches s1 ms missing Hfetch Hbuilt Hfilled.
  pose proof (scores_cycle env tours events_coord_data s raw_matches s1 ms missing
                Hfetch Hbuilt) as Hcycle. simpl in Hcycle.
  destruct (build_matches_names _ _ _ _ _ _ _ Hbuilt) as [Hnames _];
    [constructor | set_solver |].
  destruct (build_matches_noted _ _ _ _ _ _ _ Hbuilt) as [_ Hnoted];
    [by intros x n Hx%elem_of_nil|].
  rewrite Forall_forall in Hnames.
  destruct (decide (elements missing = [])) as [Hnone|Hsome].
  - rewrite bool_decide_eq_true_2 in Hcycle by done.
    eexists _, _. split; [by apply Hcycle|]. simpl.
    intros x n Hx Hn. rewrite (sorted_perm MatchScoresCoordinator.by_date_then_id) in Hx.
    apply elements_empty_inv, leibniz_equiv in Hnone. subst missing.
    destruct (Hnames x Hx) as [H1 H2].
    split; intros Hid.
    + destruct (Hnoted x n Hx Hn (or_introl Hid)) as [H|[name H]]; [set_solver|].
      rewrite H1, Hid, player_name_nonzero by done.
      unfold Spec.cached_or_hash. by rewrite H.
    + destruct (Hnoted x n Hx Hn (or_intror Hid)) as [H|[name H]]; [set_solver|].
      rewrite H2, Hid, player_name_nonzero by done.
      unfold Spec.cached_or_hash. by rewrite H.
  - destruct Hfilled as [Hnone|Hok]; [done|].
    rewrite bool_decide_eq_false_2 in Hcycle by done.
    destruct (MatchScoresCoordinator.backfill env missing ms s1) as [[out|e] s2] eqn:Hback;
      [|discriminate].
    assert (MatchScoresCoordinator.enrich env missing ms s1 = (Ok out, s2)) as Henrich
      by (unfold MatchScoresCoordinator.enrich, try_except; by rewrite Hback).
    rewrite Henrich in Hcycle.
    eexists _, _. split; [by apply Hcycle|]. simpl.
    apply scores_backfill_ok_inv in Hback as (-> & _ & payload & s1' & Hpaced & Hcache).
    intros x n (x0 & Hx0 & ->)%rename_in_sorted Hn. simpl.
    assert (MatchScoresCoordinator.Player1ID x0 = Some n
            \/ MatchScoresCoordinator.Player2ID x0 = Some n ->
            is_Some (players (player_cache s2) !! n)) as Hcached.
    { intros Hid. rewrite Hcache. apply (backfilled_ids_cached _ _ _ _ _ _ Hpaced).
      by apply Hnoted with x0. }
    unfold MatchScoresCoordinator.re_resolve, MatchScoresCoordinator.id_truthy.
    split; intros Hid; rewrite Hid; destruct (Z.eqb_spec n 0); try done; simpl.
    + destruct (Hcached (or_introl Hid)) as [name ->]. done.
    + destruct (Hcached (or_intror Hid)) as [name ->]. done.
Qed.

Lemma match_scores_names_are_cached_witness :
  let env :=
    Scenario.provider (PList [PDict [("ID", PInt 1); ("Player1ID", PInt 5)]])
      (PDict [("Name", PStr "Judd Trump")]) (Ok tt) in
  exists data s',
    MatchScoresCoordinator._async_update_data env ["main"] None Scenario.fresh = (Ok data, s')
    /\ MatchScoresCoordinator.Player1Name <$> MatchScoresCoordinator.matches data
       = ["Judd Trump"]
    /\ forall x n,
         x ∈ MatchScoresCoordinator.matches data -> n <> 0 ->
         (MatchScoresCoordinator.Player1ID x = Some n ->
          players (player_cache s') !! n = Some (MatchScoresCoordinator.Player1Name x))
         /\ (MatchScoresCoordinator.Player2ID x = Some n ->
             players (player_cache s') !! n = Some (MatchScoresCoordinator.Player2Name x)).
Proof.
  intros env.
  edestruct (proj1 (match_scores_names_are_cached env ["main"] None) Scenario.fresh)
    as (data & s' & Hrun & Hnames).
  - vm_compute; reflexivity.
  - vm_compute; reflexivity.
  - right. vm_compute; reflexivity.
  - exists data, s'. split; [exact Hrun|]. split; [|exact Hnames].
    vm_compute in Hrun. by injection Hrun as <- _.
Defined.

(** ** Names in the rows published *)

Lemma store_names_other payload s n :
  n ∉ payload.*1 ->
  players (player_cache (snd (store_names payload s))) !! n = players (player_cache s) !! n.
Proof.
  revert s. induction payload as [|[k p] payload IH]; intros s; [done|].
  cbn [fmap list_fmap fst]. rewrite not_elem_of_cons. intros [Hne Hn].
  rewrite store_names_cons, IH by done.
  cbn [fst snd set_player_name player_cache players]. by apply lookup_insert_ne.
Qed.

Lemma backfill_keeps_cached env (missing : gset Z) s payload s1 n :
  Api.paced_player_fetch env (Py.sorted Z.leb (elements missing)) s = (Ok payload, s1) ->
  (n ∉ missing) ->
  players (player_cache (snd (store_names payload s1))) !! n = players (player_cache s) !! n.
Proof.
  intros Hfetch Hn.
  pose proof (same_cache_paced_player_fetch env (Py.sorted Z.leb (elements missing)) s) as Hc.
  rewrite Hfetch in Hc. unfold same_cache in Hc. simpl in Hc. rewrite <- Hc.
  apply store_names_other. unfold Api.paced_player_fetch in Hfetch.
  rewrite (paced_loop_keys _ _ _ _ _ _ Hfetch n), elem_of_sorted_elements.
  simpl. rewrite elem_of_nil. tauto.
Qed.

Lemma rankings_cycle_inv env season_coord_data s data s' :
  RankingsCoordinator._async_update_data env season_coord_data s = (Ok data, s') ->
  exists s1 s2 money one_year,
    Api.get_rankings env (RankingsCoordinator.season data) RANKING_MONEY s1 = (Ok money, s2)
    /\ Api.get_rankings env (RankingsCoordinator.season data) RANKING_ONE_YEAR_MONEY s2
       = (Ok one_year, s')
    /\ RankingsCoordinator.decorate (player_cache s') money
       = Ok (RankingsCoordinator.top10_money data)
    /\ RankingsCoordinator.decorate (player_cache s') one_year
       = Ok (RankingsCoordinator.top10_one_year_money data).
Proof.
  unfold RankingsCoordinator._async_update_data. intros H.
  apply try_raise_ok_inv in H.
  apply bind_ok_inv in H as (season_payload & s0 & _ & H).
  apply bind_ok_inv in H as (season & s1 & Hseason & H).
  unfold lift in Hseason. destruct (_extract_season season_payload); [|discriminate].
  injection Hseason as -> ->.
  apply bind_ok_inv in H as (money & s2 & Hmoney & H).
  apply bind_ok_inv in H as (one_year & s3 & Hyear & H).
  unfold bind, get_cache, lift, ret in H.
  destruct (RankingsCoordinator.decorate (player_cache s3) money) as [top_money|e] eqn:E1;
    [|discriminate].
  destruct (RankingsCoordinator.decorate (player_cache s3) one_year) as [top_year|e] eqn:E2;
    [|discriminate].
  injection H as <- <-. by exists s1, s2, money, one_year.
Qed.

Lemma decorate_rows_named cache rows out :
  RankingsCoordinator.decorate cache rows = Ok out ->
  Forall2 (ranking_row_named cache) (take 10 rows) out.
Proof.
  intros Hdec. apply map_result_Forall2 in Hdec.
  eapply Forall2_impl; [exact Hdec|]. intros r o Hrow. simpl in Hrow.
  unfold RankingsCoordinator.decorate_row in Hrow.
  destruct (RankingsCoordinator.row_pid r) as [pid|e] eqn:Hpid; simpl in Hrow; [|discriminate].
  injection Hrow as <-. exists pid. eexists. split; [exact Hpid|]. split; [reflexivity|].
  unfold RankingsCoordinator.name_or_placeholder. split.
  - intros cached -> Hne. rewrite truthy_str_eqb.
    destruct (String.eqb_spec cached ""); [done | reflexivity].
  - by intros [-> | ->].
Qed.

Lemma player_name_no_id cache pid :
  pid = None \/ pid = Some 0 ->
  players cache !! (-1) = None ->
  MatchScoresCoordinator.player_name cache pid = "TBD".
Proof.
  unfold MatchScoresCoordinator.player_name. by intros [-> | ->]; simpl; intros ->.
Qed.

Lemma scores_cycle_inv env tours events_coord_data s data s' :
  MatchScoresCoordinator._async_update_data env tours events_coord_data s = (Ok data, s') ->
  exists raw_matches s1 ms missing,
    MatchScoresCoordinator.fetch_tours env tours [] s = (Ok raw_matches, s1)
    /\ MatchScoresCoordinator.build_matches (player_cache s1)
         (MatchScoresCoordinator.events_map_of events_coord_data) raw_matches [] ∅
       = Ok (ms, missing).
Proof.
  unfold MatchScoresCoordinator._async_update_data. intros H.
  apply try_raise_ok_inv in H.
  apply bind_ok_inv in H as (raw_matches & s1 & Hfetch & H).
  apply bind_ok_inv in H as (cache & s2 & Hcache & H).
  apply bind_ok_inv in H as ([ms missing] & s3 & Hbuilt & _).
  unfold get_cache in Hcache. injection Hcache as <- <-.
  unfold lift in Hbuilt. injection Hbuilt as Hbuilt _.
  by exists raw_matches, s1, ms, missing.
Qed.

Lemma scores_fetch_same_cache env tours s :
  player_cache (snd (MatchScoresCoordinator.fetch_tours env tours [] s)) = player_cache s.
Proof.
  revert s. change (respects same_cache (MatchScoresCoordinator.fetch_tours env tours [])).
  apply respects_scores_fetch_tours; [apply _ | apply same_cache_get_json].
Qed.

(** C6 as amended.  Rankings: the rows published are those of the first
    ten fetched, in provider order, each with [PlayerName] set to the
    cached name when the id is a key with a non-empty name, and to [#] and
    the id when the id is absent or cached under the empty name;
    [decorate] answers whenever the ids of those rows can be read; the
    cycle leaves the cache as it was.  Match-Scores: once the matches are
    fetched and built the cycle ends well, and in every row it publishes
    the name that goes with a player id that is not zero is the cached one
    when the id was a key as the cycle began; when it was not, it is the
    name the backfill of the cycle has cached for the id if the backfill
    went through, and [#] and the id if it did not.  With no id or the id
    0, and nothing cached under -1, the name is [TBD].  Every cycle that
    ends well has fetched and built its matches, so this covers every row
    the poller publishes. *)
Theorem decorated_names_from_cache :
  (forall cache rows out,
     RankingsCoordinator.decorate cache rows = Ok out ->
     Forall2 (ranking_row_named cache) (take 10 rows) out)
  /\ (forall cache rows,
        Forall (fun r => is_ok (RankingsCoordinator.row_pid r) = true) (take 10 rows) ->
        is_ok (RankingsCoordinator.decorate cache rows) = true)
  /\ (forall env season_coord_data s,
        player_cache (snd (RankingsCoordinator._async_update_data env season_coord_data s))
        = player_cache s)
  /\ (forall env season_coord_data s data s',
        RankingsCoordinator._async_update_data env season_coord_data s = (Ok data, s') ->
        exists s1 s2 money one_year,
          Api.get_rankings env (RankingsCoordinator.season data) RANKING_MONEY s1
          = (Ok money, s2)
          /\ Api.get_rankings env (RankingsCoordinator.season data) RANKING_ONE_YEAR_MONEY s2
             = (Ok one_year, s')
          /\ Forall2 (ranking_row_named (player_cache s)) (take 10 money)
               (RankingsCoordinator.top10_money data)
          /\ Forall2 (ranking_row_named (player_cache s)) (take 10 one_year)
               (RankingsCoordinator.top10_one_year_money data))
  /\ (forall env tours events_coord_data s raw_matches s1 ms missing,
        MatchScoresCoordinator.fetch_tours env tours [] s = (Ok raw_matches, s1) ->
        MatchScoresCoordinator.build_matches (player_cache s1)
          (MatchScoresCoordinator.events_map_of events_coord_data) raw_matches [] ∅
        = Ok (ms, missing) ->
        exists data s',
          MatchScoresCoordinator._async_update_data env tours events_coord_data s
          = (Ok data, s')
          /\ forall x,
               x ∈ MatchScoresCoordinator.matches data ->
               let filled := is_ok (fst (MatchScoresCoordinator.backfill env missing ms s1)) in
               match_name_from (player_cache s) (player_cache s') filled
                 (MatchScoresCoordinator.Player1ID x) (MatchScoresCoordinator.Player1Name x)
               /\ match_name_from (player_cache s) (player_cache s') filled
                    (MatchScoresCoordinator.Player2ID x) (MatchScoresCoordinator.Player2Name x))
  /\ (forall env tours events_coord_data s data s',
        MatchScoresCoordinator._async_update_data env tours events_coord_data s
        = (Ok data, s') ->
        exists raw_matches s1 ms missing,
          MatchScoresCoordinator.fetch_tours env tours [] s = (Ok raw_matches, s1)
          /\ MatchScoresCoordinator.build_matches (player_cache s1)
               (MatchScoresCoordinator.events_map_of events_coord_data) raw_matches [] ∅
             = Ok (ms, missing)).
Proof.
  split; [exact decorate_rows_named|].
  split; [|split; [|split; [|split; [|exact scores_cycle_inv]]]].
  - intros cache rows Hrows. apply map_result_total.
    eapply Forall_impl; [exact Hrows|]. intros r Hr. simpl in Hr.
    unfold RankingsCoordinator.decorate_row.
    by destruct (RankingsCoordinator.row_pid r).
  - apply rankings_cache_untouched.
  - intros env season_coord_data s data s' Hrun.
    pose proof (rankings_cache_untouched env season_coord_data s) as Hcache.
    rewrite Hrun in Hcache. simpl in Hcache. rewrite <- Hcache.
    destruct (rankings_cycle_inv _ _ _ _ _ Hrun) as (s1 & s2 & money & one_year & H1 & H2 & D1 & D2).
    exists s1, s2, money, one_year. repeat split; try done; by apply decorate_rows_named.
  - intros env tours events_coord_data s raw_matches s1 ms missing Hfetch Hbuilt.
    pose proof (scores_cycle env tours events_coord_data s raw_matches s1 ms missing
                  Hfetch Hbuilt) as Hcycle. simpl in Hcycle.
    assert (player_cache s1 = player_cache s) as Hstart.
    { pose proof (scores_fetch_same_cache env tours s) as H. by rewrite Hfetch in H. }
    rewrite Hstart in Hbuilt.
    destruct (build_matches_names _ _ _ _ _ _ _ Hbuilt) as [Hnames Hmissing];
      [constructor | set_solver |].
    destruct (build_matches_noted _ _ _ _ _ _ _ Hbuilt) as [_ Hnoted];
      [by intros x n Hx%elem_of_nil|].
    rewrite Forall_forall in Hnames.
    assert (forall finish filled x,
              x ∈ ms ->
              (forall n, n ∈ missing -> filled = false) ->
              match_name_from (player_cache s) finish filled
                (MatchScoresCoordinator.Player1ID x) (MatchScoresCoordinator.Player1Name x)
              /\ match_name_from (player_cache s) finish filled
                   (MatchScoresCoordinator.Player2ID x) (MatchScoresCoordinator.Player2Name x))
      as Hfirst.
    { intros finish filled x Hx Hfilled. destruct (Hnames x Hx) as [H1 H2].
      rewrite H1, H2. split; (split; [|apply player_name_no_id]).
      - intros n Hid Hn. rewrite Hid, player_name_nonzero by done. unfold Spec.cached_or_hash.
        destruct (players (player_cache s) !! n) as [cached|] eqn:E; [done|].
        destruct (Hnoted x n Hx Hn (or_introl Hid)) as [H|[name H]]; [|congruence].
        by rewrite (Hfilled n H).
      - intros n Hid Hn. rewrite Hid, player_name_nonzero by done. unfold Spec.cached_or_hash.
        destruct (players (player_cache s) !! n) as [cached|] eqn:E; [done|].
        destruct (Hnoted x n Hx Hn (or_intror Hid)) as [H|[name H]]; [|congruence].
        by rewrite (Hfilled n H). }
    destruct (decide (elements missing = [])) as [Hnone|Hsome].
    + rewrite bool_decide_eq_true_2 in Hcycle by done.
      eexists _, _. split; [by apply Hcycle|]. simpl.
      intros x Hx. rewrite (sorted_perm MatchScoresCoordinator.by_date_then_id) in Hx.
      apply Hfirst; [exact Hx|].
      apply elements_empty_inv, leibniz_equiv in Hnone. subst missing. set_solver.
    + rewrite bool_decide_eq_false_2 in Hcycle by done.
      destruct (MatchScoresCoordinator.backfill env missing ms s1) as [[out|e] s2] eqn:Hback.
      * assert (MatchScoresCoordinator.enrich env missing ms s1 = (Ok out, s2)) as Henrich
          by (unfold MatchScoresCoordinator.enrich, try_except; by rewrite Hback).
        rewrite Henrich in Hcycle.
        eexists _, _. split; [by apply Hcycle|]. simpl.
        apply scores_backfill_ok_inv in Hback as (-> & _ & payload & s1' & Hpaced & Hcache).
        intros x (x0 & Hx0 & ->)%rename_in_sorted. simpl.
        destruct (Hnames x0 Hx0) as [H1 H2].
        assert (forall n, n <> 0 ->
                  MatchScoresCoordinator.Player1ID x0 = Some n
                  \/ MatchScoresCoordinator.Player2ID x0 = Some n ->
                  forall name0,
                    match players (player_cache s) !! n with
                    | Some cached => default name0 (players (player_cache s2) !! n) = cached
                    | None => players (player_cache s2) !! n
                              = Some (default name0 (players (player_cache s2) !! n))
                    end) as Hnew.
        { intros n Hn Hid name0. rewrite Hcache.
          destruct (players (player_cache s) !! n) as [cached|] eqn:E.
          - rewrite (backfill_keeps_cached _ _ _ _ _ _ Hpaced), Hstart, E; [done|].
            intros Hin. apply Hmissing in Hin as [_ Hin]. congruence.
          - destruct (proj2 (backfilled_ids_cached _ _ _ _ _ n Hpaced)) as [name ->]; [|done].
            left. destruct (Hnoted x0 n Hx0 Hn Hid) as [H|[name H]]; [done | congruence]. }
        unfold MatchScoresCoordinator.re_resolve, MatchScoresCoordinator.id_truthy.
        split; split.
        -- intros n Hid Hn. rewrite Hid. destruct (Z.eqb_spec n 0); [done|]. simpl.
           by apply Hnew; [|left].
        -- intros Hid Hminus. rewrite <- (player_name_no_id _ _ Hid Hminus), <- H1.
           by destruct Hid as [-> | ->].
        -- intros n Hid Hn. rewrite Hid. destruct (Z.eqb_spec n 0); [done|]. simpl.
           by apply Hnew; [|right].
        -- intros Hid Hminus. rewrite <- (player_name_no_id _ _ Hid Hminus), <- H2.
           by destruct Hid as [-> | ->].
      * assert (MatchScoresCoordinator.enrich env missing ms s1 = (Ok ms, s2)) as Henrich
          by (unfold MatchScoresCoordinator.enrich, try_except, ret; by rewrite Hback).
        rewrite Henrich in Hcycle.
        eexists _, _. split; [by apply Hcycle|]. simpl.
        intros x Hx. rewrite (sorted_perm MatchScoresCoordinator.by_date_then_id) in Hx.
        by apply Hfirst.
Qed.

Lemma decorated_names_from_cache_witness :
  (let cache := Scenario.cache_of [(5, "Judd Trump")] in
   let rows := [[("PlayerID", PInt 5)]; [("ID", PStr "9")]] in
   RankingsCoordinator.decorate cache rows
   = Ok [[("PlayerID", PInt 5); ("PlayerName", PStr "Judd Trump")];
         [("ID", PStr "9"); ("PlayerName", PStr "#9")]]
   /\ Forall2 (ranking_row_named cache) (take 10 rows)
        [[("PlayerID", PInt 5); ("PlayerName", PStr "Judd Trump")];
         [("ID", PStr "9"); ("PlayerName", PStr "#9")]])
  /\ (let env :=
        Scenario.provider (PList [PDict [("ID", PInt 1); ("Player1ID", PInt 5)]])
          (PDict [("Name", PStr "Judd Trump")]) (Ok tt) in
      exists data s',
        MatchScoresCoordinator._async_update_data env ["main"] None Scenario.fresh
        = (Ok data, s')
        /\ MatchScoresCoordinator.Player1Name <$> MatchScoresCoordinator.matches data
           = ["Judd Trump"]
        /\ players (player_cache s') !! 5 = Some "Judd Trump"
        /\ forall x,
             x ∈ MatchScoresCoordinator.matches data ->
             match_name_from Scenario.empty_cache (player_cache s') true
               (MatchScoresCoordinator.Player1ID x) (MatchScoresCoordinator.Player1Name x))
  /\ (let env :=
        Scenario.no_players (PList [PDict [("ID", PInt 1); ("Player1ID", PInt 5)]]) in
      exists data s',
        MatchScoresCoordinator._async_update_data env ["main"] None Scenario.fresh
        = (Ok data, s')
        /\ MatchScoresCoordinator.Player1Name <$> MatchScoresCoordinator.matches data = ["#5"]
        /\ forall x,
             x ∈ MatchScoresCoordinator.matches data ->
             match_name_from Scenario.empty_cache (player_cache s') false
               (MatchScoresCoordinator.Player1ID x) (MatchScoresCoordinator.Player1Name x)).
Proof.
  destruct decorated_names_from_cache as (Hrows & _ & _ & _ & Hscores & _).
  split; [|split].
  - intros cache rows.
    assert (Hrun : RankingsCoordinator.decorate cache rows
                   = Ok [[("PlayerID", PInt 5); ("PlayerName", PStr "Judd Trump")];
                         [("ID", PStr "9"); ("PlayerName", PStr "#9")]])
      by (vm_compute; reflexivity).
    split; [exact Hrun|]. apply Hrows. exact Hrun.
  - intros env.
    edestruct (Hscores env ["main"] None Scenario.fresh) as (data & s' & Hrun & Hnames).
    + vm_compute; reflexivity.
    + vm_compute; reflexivity.
    + exists data, s'. split; [exact Hrun|].
      vm_compute in Hrun. injection Hrun as <- <-.
      split; [reflexivity|]. split; [reflexivity|].
      intros x Hx. apply (Hnames x Hx).
  - intros env.
    edestruct (Hscores env ["main"] None Scenario.fresh) as (data & s' & Hrun & Hnames).
    + vm_compute; reflexivity.
    + vm_compute; reflexivity.
    + exists data, s'. split; [exact Hrun|].
      vm_compute in Hrun. injection Hrun as <- <-.
      split; [reflexivity|].
      intros x Hx. apply (Hnames x Hx).
Defined.

(** C6 as worded fails on a zero id and on an empty cached name: a match
    whose [Player1ID] is 0 is named [TBD] where the wording gives [#0],
    and a ranking row whose player is cached under the empty name gets
    [#5] where the wording gives the cached value. *)
Lemma decorated_name_not_always_cached_or_hash :
  (exists x,
     MatchScoresCoordinator.build_match Scenario.empty_cache ∅ [("Player1ID", PInt 0)] = Ok x
     /\ MatchScoresCoordinator.Player1ID x = Some 0
     /\ MatchScoresCoordinator.Player1Name x = "TBD"
     /\ Spec.cached_or_hash Scenario.empty_cache 0 = "#0")
  /\ RankingsCoordinator.decorate (Scenario.cache_of [(5, "")]) [[("PlayerID", PInt 5)]]
     = Ok [[("PlayerID", PInt 5); ("PlayerName", PStr "#5")]]
  /\ Spec.cached_or_hash (Scenario.cache_of [(5, "")]) 5 = "".
Proof.
  split; [|split; vm_compute; reflexivity].
  eexists. split; [vm_compute; reflexivity|]. repeat split.
Qed.

Lemma upcoming_note_missing_mono cache pid (missing : gset Z) n :
  n ∈ missing -> n ∈ UpcomingMatchesCoordinator.note_missing cache pid missing.
Proof.
  unfold UpcomingMatchesCoordinator.note_missing. intros H.
  destruct pid as [k|]; [|done]. destruct (players cache !! k); [done | set_solver].
Qed.

Lemma upcoming_note_missing_notes cache (missing : gset Z) n :
  n ∈ UpcomingMatchesCoordinator.note_missing cache (Some n) missing
  \/ is_Some (players cache !! n).
Proof.
  unfold UpcomingMatchesCoordinator.note_missing.
  destruct (players cache !! n); [by right | left; set_solver].
Qed.

Lemma upcoming_missing_foldl cache decorated (init : gset Z) :
  (forall n, n ∈ init ->
     n ∈ foldl (fun missing m =>
                  UpcomingMatchesCoordinator.note_missing cache
                    (UpcomingMatchesCoordinator.Player2ID m)
                    (UpcomingMatchesCoordinator.note_missing cache
                       (UpcomingMatchesCoordinator.Player1ID m) missing))
           init decorated)
  /\ (forall x n, x ∈ decorated ->
                  UpcomingMatchesCoordinator.Player1ID x = Some n
                  \/ UpcomingMatchesCoordinator.Player2ID x = Some n ->
                  n ∈ foldl (fun missing m =>
                               UpcomingMatchesCoordinator.note_missing cache
                                 (UpcomingMatchesCoordinator.Player2ID m)
                                 (UpcomingMatchesCoordinator.note_missing cache
                                    (UpcomingMatchesCoordinator.Player1ID m) missing))
                        init decorated
                  \/ is_Some (players cache !! n)).
Proof.
  revert init. induction decorated as [|m r IH]; intros init; cbn [foldl].
  - split; [done|]. by intros x n Hx%elem_of_nil.
  - destruct (IH (UpcomingMatchesCoordinator.note_missing cache
                    (UpcomingMatchesCoordinator.Player2ID m)
                    (UpcomingMatchesCoordinator.note_missing cache
                       (UpcomingMatchesCoordinator.Player1ID m) init))) as [Hmono Hnoted].
    split.
    + intros n Hn. by apply Hmono, upcoming_note_missing_mono, upcoming_note_missing_mono.
    + intros x n Hin Hid. apply elem_of_cons in Hin as [->|Hx]; [|by eapply Hnoted].
      destruct Hid as [Hid|Hid].
      * destruct (upcoming_note_missing_notes cache init n) as [H|H]; [left | by right].
        apply Hmono. rewrite Hid. by apply upcoming_note_missing_mono.
      * destruct (upcoming_note_missing_notes cache
                    (UpcomingMatchesCoordinator.note_missing cache
                       (UpcomingMatchesCoordinator.Player1ID m) init) n) as [H|H];
          [left | by right].
        apply Hmono. by rewrite Hid.
Qed.

Lemma upcoming_backfill_ok_inv env missing s s' :
  UpcomingMatchesCoordinator.backfill env missing s = (Ok tt, s') ->
  in_sync s'
  /\ exists payload s1,
       Api.paced_player_fetch env (Py.sorted Z.leb (elements missing)) s = (Ok payload, s1)
       /\ player_cache s' = player_cache (snd (store_names payload s1)).
Proof.
  unfold UpcomingMatchesCoordinator.backfill. intros H.
  apply bind_ok_inv in H as (payload & s1 & Hfetch & H).
  apply bind_ok_inv in H as ([] & s2 & Hstore & H).
  unfold bind, get_cache, save_player_cache in H.
  destruct (async_save env _); [|discriminate]. injection H as <-. simpl.
  split; [done|]. exists payload, s1. split; [done|]. by rewrite Hstore.
Qed.

Lemma upcoming_backfill_succeeds env missing s :
  (forall pid, is_ok (get_json env (player_request pid)) = true) ->
  (forall doc, async_save env doc = Ok tt) ->
  is_ok (fst (UpcomingMatchesCoordinator.backfill env missing s)) = true.
Proof.
  intros Hget Hsave. unfold UpcomingMatchesCoordinator.backfill.
  destruct (paced_loop_answered env (Py.sorted Z.leb (elements missing)) [] s)
    as (out & Hrun & _); [by apply Forall_forall | apply NoDup_nil_2 |].
  unfold bind at 1. unfold Api.paced_player_fetch. rewrite Hrun.
  unfold bind at 1. pose proof (store_names_ok out (after_requests s
    (reverse (player_request <$> Py.sorted Z.leb (elements missing))))) as Hnames.
  destruct (store_names out _) as [[[]|e] s2]; simpl in Hnames; [|discriminate].
  unfold bind, get_cache, save_player_cache. by rewrite Hsave.
Qed.

(** X11: after a backfill that went through, and also when no id was
    missing, every player id of a match the Upcoming-Matches poller
    publishes is a key of the player cache, so that the calendar shows
    the name the cache holds for it and does not fall back on the
    placeholder.  The backfill goes through whenever the player requests
    are answered and the store accepts the record. *)
Theorem upcoming_ids_are_cached (env : Env) (tours : list string) :
  (forall s all_matches s1,
     UpcomingMatchesCoordinator.fetch_tours env tours [] s = (Ok all_matches, s1) ->
     let decorated := omap UpcomingMatchesCoordinator.normalize all_matches in
     let missing := UpcomingMatchesCoordinator.missing_player_ids (player_cache s1) decorated in
     elements missing = []
     \/ is_ok (fst (UpcomingMatchesCoordinator.backfill env missing s1)) = true ->
     exists data s',
       UpcomingMatchesCoordinator._async_update_data env tours s = (Ok data, s')
       /\ forall x n,
            x ∈ UpcomingMatchesCoordinator.matches data ->
            UpcomingMatchesCoordinator.Player1ID x = Some n
            \/ UpcomingMatchesCoordinator.Player2ID x = Some n ->
            exists name,
              players (player_cache s') !! n = Some name
              /\ Calendar._resolve_player_name (player_cache s') (Some n) = name)
  /\ (forall missing s,
        (forall pid, is_ok (get_json env (player_request pid)) = true) ->
        (forall doc, async_save env doc = Ok tt) ->
        is_ok (fst (UpcomingMatchesCoordinator.backfill env missing s)) = true).
Proof.
  split; [|intros; by apply upcoming_backfill_succeeds].
  intros s all_matches s1 Hfetch decorated missing Hfilled.
  pose proof (upcoming_cycle env tours s all_matches s1 Hfetch) as Hcycle. simpl in Hcycle.
  fold decorated in Hcycle. fold missing in Hcycle.
  destruct (upcoming_missing_foldl (player_cache s1) decorated ∅) as [_ Hnoted].
  fold (UpcomingMatchesCoordinator.missing_player_ids (player_cache s1) decorated) in Hnoted.
  fold missing in Hnoted.
  eexists _, _. split; [exact Hcycle|]. simpl.
  intros x n Hx Hid. rewrite (sorted_perm UpcomingMatchesCoordinator.by_sort_key) in Hx.
  assert (is_Some (players (player_cache
            (if bool_decide (elements missing = []) then s1
             else snd (UpcomingMatchesCoordinator.enrich env missing s1))) !! n)) as [name Hname].
  { destruct (decide (elements missing = [])) as [Hnone|Hsome].
    - rewrite bool_decide_eq_true_2 by done.
      destruct (Hnoted x n Hx Hid) as [H|H]; [|done].
      apply elements_empty_inv, leibniz_equiv in Hnone. rewrite Hnone in H. set_solver.
    - rewrite bool_decide_eq_false_2 by done.
      destruct Hfilled as [Hnone|Hok]; [done|].
      unfold UpcomingMatchesCoordinator.enrich, try_except.
      destruct (UpcomingMatchesCoordinator.backfill env missing s1) as [[[]|e] s2] eqn:Hback;
        [|discriminate].
      simpl. apply upcoming_backfill_ok_inv in Hback as (_ & payload & s1' & Hpaced & ->).
      apply (backfilled_ids_cached _ _ _ _ _ _ Hpaced). by apply Hnoted with x. }
  exists name. split; [exact Hname|]. unfold Calendar._resolve_player_name. by rewrite Hname.
Qed.

Lemma upcoming_ids_are_cached_witness :
  let env :=
    Scenario.provider
      (PList [PDict [("ScheduledDate", PStr "2024-05-01"); ("Player1ID", PInt 5)]])
      (PDict [("FirstName", PStr "Judd"); ("LastName", PStr "Trump")]) (Ok tt) in
  exists data s',
    UpcomingMatchesCoordinator._async_update_data env ["main"] Scenario.fresh = (Ok data, s')
    /\ Calendar._resolve_player_name (player_cache s') (Some 5) = "Judd Trump"
    /\ forall x n,
         x ∈ UpcomingMatchesCoordinator.matches data ->
         UpcomingMatchesCoordinator.Player1ID x = Some n
         \/ UpcomingMatchesCoordinator.Player2ID x = Some n ->
         exists name,
           players (player_cache s') !! n = Some name
           /\ Calendar._resolve_player_name (player_cache s') (Some n) = name.
Proof.
  intros env.
  edestruct (proj1 (upcoming_ids_are_cached env ["main"]) Scenario.fresh)
    as (data & s' & Hrun & Hnames).
  - vm_compute; reflexivity.
  - right. vm_compute; reflexivity.
  - exists data, s'. split; [exact Hrun|]. split; [|exact Hnames].
    vm_compute in Hrun. by injection Hrun as _ <-.
Defined.

(** ** The tour tag of an upcoming match *)

Lemma find_setitem d k v : Py.find (Py.setitem d k v) k = Some v.
Proof.
  induction d as [|[k' v'] d IH]; simpl; [by rewrite String.eqb_refl|].
  destruct (String.eqb k' k) eqn:E; simpl; by rewrite E.
Qed.

Lemma find_setitem_ne d k v k' : k' <> k -> Py.find (Py.setitem d k v) k' = Py.find d k'.
Proof.
  intros Hne. induction d as [|[k0 v0] d IH]; simpl.
  - by destruct (String.eqb_spec k k').
  - destruct (String.eqb_spec k0 k) as [->|Hk]; simpl.
    + by destruct (String.eqb_spec k k').
    + by rewrite IH.
Qed.










(** ** The rows of the Rankings poller *)

Lemma name_or_placeholder_nonempty name pid :
  RankingsCoordinator.name_or_placeholder name pid <> "".
Proof.
  unfold RankingsCoordinator.name_or_placeholder. destruct name as [n|]; [|done].
  simpl. by destruct (String.eqb_spec n "").
Qed.

(** X13: the Rankings poller publishes the first ten rows of a ranking
    and no more, in the order of the payload, each with every field as
    the API gave it; the one thing it adds is [PlayerName], set (or
    overwritten) with a text that is never empty. *)
Theorem ranking_rows_keep_their_fields (cache : PlayerCache) (rows out : list pydict) :
  RankingsCoordinator.decorate cache rows = Ok out ->
  length out = Nat.min 10 (length rows)
  /\ Forall2 (fun r o =>
                (forall k, k <> "PlayerName" -> Py.find o k = Py.find r k)
                /\ exists name, Py.find o "PlayerName" = Some (PStr name) /\ name <> "")
       (take 10 rows) out.
Proof.
  unfold RankingsCoordinator.decorate. intros H%map_result_Forall2. split.
  - by rewrite <- (Forall2_length _ _ _ H), length_take.
  - eapply Forall2_impl; [exact H|]. intros r o. unfold RankingsCoordinator.decorate_row.
    destruct (RankingsCoordinator.row_pid r) as [pid|e]; [|discriminate]. simpl.
    intros [= <-]. split.
    + intros k Hk. by apply find_setitem_ne.
    + eexists. split; [apply find_setitem | apply name_or_placeholder_nonempty].
Qed.

Lemma ranking_rows_keep_their_fields_witness :
  let cache := Scenario.cache_of [(5, "Judd Trump")] in
  let rows := [[("PlayerID", PInt 5); ("Sum", PInt 100); ("PlayerName", PStr "")]] in
  exists out,
    RankingsCoordinator.decorate cache rows = Ok out
    /\ out = [[("PlayerID", PInt 5); ("Sum", PInt 100); ("PlayerName", PStr "Judd Trump")]]
    /\ length out = Nat.min 10 (length rows).
Proof.
  intros cache rows. eexists. split; [vm_compute; reflexivity|]. split; [reflexivity|].
  apply (ranking_rows_keep_their_fields cache rows). vm_compute; reflexivity.
Defined.

(** ** The events index *)

Lemma index_events_keys raw_events acc m :
  EventsInSeasonCoordinator.index_events raw_events acc = Ok m ->
  (forall k ev, acc !! k = Some ev -> EventsInSeasonCoordinator.ID ev = k) ->
  forall k ev, m !! k = Some ev -> EventsInSeasonCoordinator.ID ev = k.
Proof.
  revert acc. induction raw_events as [|raw r IH]; intros acc; cbn [EventsInSeasonCoordinator.index_events].
  - by intros [= <-].
  - destruct raw as [| | | | |raw|]; try discriminate.
    destruct (EventsInSeasonCoordinator.normalize raw) as [[event|]|e]; cbn [rbind];
      [| apply IH | discriminate].
    intros H Hacc. apply (IH _ H). intros k ev.
    destruct (decide (k = EventsInSeasonCoordinator.ID event)) as [->|Hne].
    + rewrite lookup_insert_eq. by intros [= <-].
    + rewrite lookup_insert_ne by done. apply Hacc.
Qed.

Lemma index_events_non_object before raw rest acc :
  Forall (fun raw => Spec.infinite_id raw = false) before ->
  (forall d, raw <> PDict d) ->
  EventsInSeasonCoordinator.index_events ((PDict <$> before) ++ raw :: rest) acc
  = Raise AttributeError.
Proof.
  intros Hbefore Hraw. rewrite index_events_app, index_events_foldl by done. cbn [rbind].
  destruct raw as [| | | | |d|]; try reflexivity. by destruct (Hraw d).
Qed.

Lemma index_events_ok_inv raw_events acc m :
  EventsInSeasonCoordinator.index_events raw_events acc = Ok m ->
  exists raws, raw_events = PDict <$> raws
               /\ Forall (fun raw => Spec.infinite_id raw = false) raws.
Proof.
  revert acc. induction raw_events as [|raw r IH]; intros acc.
  - intros _. by exists [].
  - cbn [EventsInSeasonCoordinator.index_events].
    destruct raw as [| | | | |raw|]; try discriminate.
    pose proof (events_normalize_outcome raw) as Hraw.
    destruct (Spec.infinite_id raw) eqn:Hid; [by rewrite Hraw|].
    destruct Hraw as [ev ->]. cbn [rbind]. intros H.
    assert (exists raws, r = PDict <$> raws
                         /\ Forall (fun raw => Spec.infinite_id raw = false) raws)
      as (raws & -> & Hraws) by (destruct ev; by eapply IH).
    exists (raw :: raws). split; [reflexivity | by constructor].
Qed.

Lemma strictly_sorted_of_NoDup {A} (key : A -> Z) (l : list A) :
  StronglySorted (fun x y => key x <= key y) l ->
  NoDup (key <$> l) ->
  StronglySorted (fun x y => key x < key y) l.
Proof.
  induction 1 as [|x l Hl IH Hx]; intros Hnd; [constructor|].
  rewrite fmap_cons in Hnd. apply NoDup_cons in Hnd as [Hnotin Hnd].
  constructor; [by apply IH|].
  rewrite Forall_forall in Hx |- *. intros y Hy.
  specialize (Hx y Hy). assert (key x <> key y); [|lia].
  intros Heq. apply Hnotin. rewrite Heq. apply list_elem_of_fmap. by exists y.
Qed.

(** X14: in what the Events poller publishes no two events share an
    ID: the list is in strictly ascending order of ID, every event of
    the list is the entry of the index under its own ID, and [count] is
    the number of entries of the index. *)
Theorem events_have_distinct_ids (env : Env) (season_coord_data : option pydict)
  (tours : list string) (s s' : State) (data : EventsInSeasonCoordinator.Data) :
  EventsInSeasonCoordinator._async_update_data env season_coord_data tours s = (Ok data, s') ->
  StronglySorted
    (fun x y => EventsInSeasonCoordinator.ID x < EventsInSeasonCoordinator.ID y)
    (EventsInSeasonCoordinator.events data)
  /\ (forall ev, ev ∈ EventsInSeasonCoordinator.events data ->
                 EventsInSeasonCoordinator.events_by_id data !! EventsInSeasonCoordinator.ID ev
                 = Some ev)
  /\ EventsInSeasonCoordinator.count data = size (EventsInSeasonCoordinator.events_by_id data).
Proof.
  unfold EventsInSeasonCoordinator._async_update_data. intros H.
  apply try_raise_ok_inv in H.
  apply bind_ok_inv in H as (season_payload & s1 & _ & H).
  apply bind_ok_inv in H as (season & s2 & _ & H).
  apply bind_ok_inv in H as (raw_events & s3 & _ & H).
  apply bind_ok_inv in H as (m & s4 & Hindex & H).
  injection H as <- _. simpl.
  unfold lift in Hindex. injection Hindex as Hindex _.
  assert (forall k ev, m !! k = Some ev -> EventsInSeasonCoordinator.ID ev = k) as Hkeys.
  { apply (index_events_keys _ _ _ Hindex). intros k ev. by rewrite lookup_empty. }
  split; [|split].
  - apply strictly_sorted_of_NoDup.
    + eapply StronglySorted_weaken; [intros x y; apply Z.leb_le|].
      apply (sorted_StronglySorted EventsInSeasonCoordinator.by_id); [intros x y; apply Z_leb_total|].
      intros x y z. unfold EventsInSeasonCoordinator.by_id. rewrite !Z.leb_le. lia.
    + rewrite (sorted_perm EventsInSeasonCoordinator.by_id). by apply index_values_NoDup.
  - intros ev Hev. rewrite (sorted_perm EventsInSeasonCoordinator.by_id) in Hev.
    apply elem_of_values in Hev as [k Hk]. by rewrite (Hkeys k ev Hk).
  - rewrite sorted_length. unfold EventsInSeasonCoordinator.values.
    by rewrite length_map, length_map_to_list.
Qed.

Lemma events_have_distinct_ids_witness :
  let env := Scenario.answering Scenario.two_events_id_7 in
  exists data s',
    EventsInSeasonCoordinator._async_update_data env
      (Some [("Season", PInt 2024)]) ["main"; "seniors"] Scenario.fresh = (Ok data, s')
    /\ EventsInSeasonCoordinator.events data = [Scenario.second_event]
    /\ EventsInSeasonCoordinator.count data
       = size (EventsInSeasonCoordinator.events_by_id data).
Proof.
  intros env.
  edestruct (events_have_distinct_ids env (Some [("Season", PInt 2024)]) ["main"; "seniors"]
               Scenario.fresh) as (_ & _ & Hcount); [vm_compute; reflexivity|].
  eexists _, _. split; [vm_compute; reflexivity|]. split; [reflexivity | exact Hcount].
Defined.

(** X15: the Events cycle fails at the first fetched entry it cannot
    index, and publishes nothing: at an entry that is not an object the
    error is [UpdateFailed] around an [AttributeError], which is what a
    payload that is a bare object with fields leads to, its keys being
    iterated as the events; at an object whose ID is an infinite [float]
    it is [UpdateFailed] around an [OverflowError].  The cycle ends well
    exactly when every entry is an object whose ID is not an infinite
    [float]. *)
Theorem events_cycle_fails_at_first_bad_entry (env : Env) (season_coord_data : option pydict)
  (tours : list string) (s s1 s2 : State) (season_payload : pydict) (season : Z)
  (raw_events : list pyobj) :
  season_payload_of env season_coord_data s = (Ok season_payload, s1) ->
  _extract_season season_payload = Ok season ->
  EventsInSeasonCoordinator.fetch_events env season tours s1 = (Ok raw_events, s2) ->
  (forall before raw rest,
     raw_events = (PDict <$> before) ++ raw :: rest ->
     Forall (fun raw => Spec.infinite_id raw = false) before ->
     ((forall d, raw <> PDict d) ->
      EventsInSeasonCoordinator._async_update_data env season_coord_data tours s
      = (Raise (UpdateFailed "Failed to fetch events in season" AttributeError), s2))
     /\ (forall d, raw = PDict d -> Spec.infinite_id d = true ->
         EventsInSeasonCoordinator._async_update_data env season_coord_data tours s
         = (Raise (UpdateFailed "Failed to fetch events in season" OverflowError), s2)))
  /\ ((exists data,
         EventsInSeasonCoordinator._async_update_data env season_coord_data tours s
         = (Ok data, s2))
      <-> exists raws, raw_events = PDict <$> raws
                       /\ Forall (fun raw => Spec.infinite_id raw = false) raws).
Proof.
  intros Hpayload Hseason Hfetch.
  assert (EventsInSeasonCoordinator._async_update_data env season_coord_data tours s
          = match EventsInSeasonCoordinator.index_events raw_events ∅ with
            | Ok m =>
                (Ok {| EventsInSeasonCoordinator.season := season;
                       EventsInSeasonCoordinator.count :=
                         length (Py.sorted EventsInSeasonCoordinator.by_id
                                   (EventsInSeasonCoordinator.values m));
                       EventsInSeasonCoordinator.events :=
                         Py.sorted EventsInSeasonCoordinator.by_id
                           (EventsInSeasonCoordinator.values m);
                       EventsInSeasonCoordinator.events_by_id := m |}, s2)
            | Raise e => (Raise (UpdateFailed "Failed to fetch events in season" e), s2)
            end) as Hcycle.
  { unfold EventsInSeasonCoordinator._async_update_data, try_except.
    rewrite (bind_ok _ _ _ _ _ Hpayload).
    unfold lift at 1. rewrite Hseason.
    rewrite (bind_ok _ _ s1 season s1) by done.
    rewrite (bind_ok _ _ _ _ _ Hfetch).
    unfold bind, lift, ret, raise.
    by destruct (EventsInSeasonCoordinator.index_events raw_events ∅). }
  rewrite Hcycle. split; [|split].
  - intros before raw rest -> Hbefore. split.
    + intros Hraw. by rewrite index_events_non_object.
    + intros d -> Hd. by rewrite index_events_infinite.
  - intros [data Hrun].
    destruct (EventsInSeasonCoordinator.index_events raw_events ∅) as [m|e] eqn:Hindex;
      [|discriminate].
    by eapply index_events_ok_inv.
  - intros (raws & -> & Hraws). rewrite index_events_foldl by exact Hraws. by eexists.
Qed.

Lemma events_cycle_fails_at_first_bad_entry_witness :
  (let env := Scenario.answering (PDict [("ID", PInt 7); ("Name", PStr "Masters")]) in
   fst (EventsInSeasonCoordinator._async_update_data env (Some [("Season", PInt 2024)])
          ["main"] Scenario.fresh)
   = Raise (UpdateFailed "Failed to fetch events in season" AttributeError))
  /\ (let env := Scenario.answering (PList [PDict Scenario.infinite_event; PInt 3]) in
      fst (EventsInSeasonCoordinator._async_update_data env (Some [("Season", PInt 2024)])
             ["main"] Scenario.fresh)
      = Raise (UpdateFailed "Failed to fetch events in season" OverflowError)).
Proof.
  split; intros env.
  - edestruct (events_cycle_fails_at_first_bad_entry env (Some [("Season", PInt 2024)])
                 ["main"] Scenario.fresh) as [Hfail _].
    + vm_compute; reflexivity.
    + vm_compute; reflexivity.
    + vm_compute; reflexivity.
    + destruct (Hfail [] (PStr "ID") [PStr "Name"]) as [Hnon _];
        [reflexivity | constructor |].
      rewrite Hnon; [reflexivity|]. intros d. discriminate.
  - edestruct (events_cycle_fails_at_first_bad_entry env (Some [("Season", PInt 2024)])
                 ["main"] Scenario.fresh) as [Hfail _].
    + vm_compute; reflexivity.
    + vm_compute; reflexivity.
    + vm_compute; reflexivity.
    + destruct (Hfail [] (PDict Scenario.infinite_event) [PInt 3]) as [_ Hinf];
        [reflexivity | constructor |].
      by rewrite (Hinf Scenario.infinite_event).
Defined.

(** ** What the sensors show *)

Lemma capped_prefix {A} (limit : nat) (l : list A) :
  (length (take limit l) <= limit)%nat
  /\ length (take limit l) = Nat.min limit (length l)
  /\ ((limit <? length l)%nat = true <-> (limit < length l)%nat)
  /\ take limit l ++ drop limit l = l
  /\ ((limit <? length l)%nat = false <-> take limit l = l).
Proof.
  split; [rewrite length_take; lia|]. split; [apply length_take|].
  split; [apply Nat.ltb_lt|]. split; [apply take_drop|].
  rewrite Nat.ltb_ge. split.
  - intros H. by apply take_ge.
  - intros H. apply (f_equal length) in H. rewrite length_take in H. lia.
Qed.

(** X16: the Upcoming-Matches sensor shows as its state the number of
    matches published, which is also its [matches_total]; its [matches]
    attribute is the first 25 of them, in order: all of them when there
    are 25 or fewer, and 25 when there are more; [matches_truncated] is
    true exactly when more than 25 are published, and false exactly when
    the attribute is the whole list.  The same holds of the Match-Scores
    sensor, and of the Events sensor with 50 for 25. *)
Theorem sensors_show_a_capped_prefix (env : Env) (tours : list string) (s : State) :
  (forall data s',
     UpcomingMatchesCoordinator._async_update_data env tours s = (Ok data, s') ->
     let shown := Sensor.UpcomingMatchesSensor.extra_state_attributes (Some data) in
     Sensor.UpcomingMatchesSensor.native_value (Some data) = Sensor.matches_total shown
     /\ Sensor.matches_total shown = length (UpcomingMatchesCoordinator.matches data)
     /\ (length (Sensor.matches shown) <= 25)%nat
     /\ (exists rest, UpcomingMatchesCoordinator.matches data = Sensor.matches shown ++ rest)
     /\ (Sensor.matches_truncated shown = false <->
         Sensor.matches shown = UpcomingMatchesCoordinator.matches data)
     /\ Sensor.matches shown = take 25 (UpcomingMatchesCoordinator.matches data)
     /\ length (Sensor.matches shown)
        = Nat.min 25 (length (UpcomingMatchesCoordinator.matches data))
     /\ (Sensor.matches_truncated shown = true <->
         (25 < length (UpcomingMatchesCoordinator.matches data))%nat))
  /\ (forall events_coord_data data s',
        MatchScoresCoordinator._async_update_data env tours events_coord_data s = (Ok data, s') ->
        let shown := Sensor.CurrentMatchScoresSensor.extra_state_attributes (Some data) in
        Sensor.CurrentMatchScoresSensor.native_value (Some data) = Sensor.matches_total shown
        /\ Sensor.matches_total shown = length (MatchScoresCoordinator.matches data)
        /\ (length (Sensor.matches shown) <= 25)%nat
        /\ (exists rest, MatchScoresCoordinator.matches data = Sensor.matches shown ++ rest)
        /\ (Sensor.matches_truncated shown = false <->
            Sensor.matches shown = MatchScoresCoordinator.matches data)
        /\ Sensor.matches shown = take 25 (MatchScoresCoordinator.matches data)
        /\ length (Sensor.matches shown)
           = Nat.min 25 (length (MatchScoresCoordinator.matches data))
        /\ (Sensor.matches_truncated shown = true <->
            (25 < length (MatchScoresCoordinator.matches data))%nat))
  /\ (forall season_coord_data data s',
        EventsInSeasonCoordinator._async_update_data env season_coord_data tours s = (Ok data, s') ->
        let shown := Sensor.EventsInSeasonSensor.extra_state_attributes (Some data) in
        Sensor.EventsInSeasonSensor.native_value (Some data) = Sensor.events_total shown
        /\ Sensor.events_total shown = length (EventsInSeasonCoordinator.events data)
        /\ Sensor.season shown = Some (EventsInSeasonCoordinator.season data)
        /\ (length (Sensor.events shown) <= 50)%nat
        /\ (exists rest, EventsInSeasonCoordinator.events data = Sensor.events shown ++ rest)
        /\ (Sensor.events_truncated shown = false <->
            Sensor.events shown = EventsInSeasonCoordinator.events data)
        /\ Sensor.events shown = take 50 (EventsInSeasonCoordinator.events data)
        /\ length (Sensor.events shown)
           = Nat.min 50 (length (EventsInSeasonCoordinator.events data))
        /\ (Sensor.events_truncated shown = true <->
            (50 < length (EventsInSeasonCoordinator.events data))%nat)).
Proof.
  split; [|split].
  - intros data s' H shown.
    unfold UpcomingMatchesCoordinator._async_update_data in H. apply try_raise_ok_inv in H.
    do 3 apply bind_ok_inv in H as (? & ? & _ & H). injection H as <- _.
    unfold shown. simpl.
    set (l := Py.sorted _ _).
    destruct (capped_prefix 25 l) as (Hlen & Hmin & Htrue & Happ & Hiff).
    split; [done|]. split; [done|]. split; [exact Hlen|]. split; [by eexists|].
    split; [exact Hiff|]. split; [done|]. split; [exact Hmin | exact Htrue].
  - intros events_coord_data data s' H shown.
    unfold MatchScoresCoordinator._async_update_data in H. apply try_raise_ok_inv in H.
    do 4 apply bind_ok_inv in H as (? & ? & _ & H). injection H as <- _.
    unfold shown. simpl.
    set (l := Py.sorted _ _).
    destruct (capped_prefix 25 l) as (Hlen & Hmin & Htrue & Happ & Hiff).
    split; [done|]. split; [done|]. split; [exact Hlen|]. split; [by eexists|].
    split; [exact Hiff|]. split; [done|]. split; [exact Hmin | exact Htrue].
  - intros season_coord_data data s' H shown.
    unfold EventsInSeasonCoordinator._async_update_data in H. apply try_raise_ok_inv in H.
    do 4 apply bind_ok_inv in H as (? & ? & _ & H). injection H as <- _.
    unfold shown. simpl.
    set (l := Py.sorted _ _).
    destruct (capped_prefix 50 l) as (Hlen & Hmin & Htrue & Happ & Hiff).
    split; [done|]. split; [done|]. split; [done|]. split; [exact Hlen|].
    split; [by eexists|].
    split; [exact Hiff|]. split; [done|]. split; [exact Hmin | exact Htrue].
Qed.

Lemma sensors_show_a_capped_prefix_witness :
  (let env := Scenario.answering Scenario.three_upcoming in
   exists data s',
     UpcomingMatchesCoordinator._async_update_data env ["main"] Scenario.fresh = (Ok data, s')
     /\ Sensor.UpcomingMatchesSensor.native_value (Some data) = 3%nat
     /\ Sensor.matches_truncated (Sensor.UpcomingMatchesSensor.extra_state_attributes (Some data))
        = false
     /\ Sensor.matches (Sensor.UpcomingMatchesSensor.extra_state_attributes (Some data))
        = UpcomingMatchesCoordinator.matches data)
  /\ (let env := Scenario.answering Scenario.many_upcoming in
      exists data s',
        UpcomingMatchesCoordinator._async_update_data env ["main"] Scenario.fresh = (Ok data, s')
        /\ Sensor.UpcomingMatchesSensor.native_value (Some data) = 26%nat
        /\ Sensor.matches_truncated
             (Sensor.UpcomingMatchesSensor.extra_state_attributes (Some data)) = true
        /\ length (Sensor.matches
                     (Sensor.UpcomingMatchesSensor.extra_state_attributes (Some data)))
           = 25%nat
        /\ Sensor.matches (Sensor.UpcomingMatchesSensor.extra_state_attributes (Some data))
           = take 25 (UpcomingMatchesCoordinator.matches data)).
Proof.
  split; intros env.
  - edestruct (proj1 (sensors_show_a_capped_prefix env ["main"] Scenario.fresh))
      as (_ & _ & _ & _ & Hiff & _); [vm_compute; reflexivity|].
    eexists _, _. split; [vm_compute; reflexivity|]. split; [reflexivity|].
    split; [reflexivity|]. by apply Hiff.
  - edestruct (proj1 (sensors_show_a_capped_prefix env ["main"] Scenario.fresh))
      as (_ & _ & _ & _ & _ & Htake & Hmin & Htrue); [vm_compute; reflexivity|].
    eexists _, _. split; [vm_compute; reflexivity|]. split; [reflexivity|].
    split; [apply Htrue; simpl; lia|]. split; [|exact Htake].
    rewrite Hmin. reflexivity.
Defined.

(** ** The calendar of a tour *)

Section CalendarFacts.
Context (env : Env) (cache : PlayerCache)
  (events_data : option EventsInSeasonCoordinator.Data) (tour_code : string).

#[local] Abbreviation entry_of m dt :=
  {| SnookerUpcomingCalendar.summary :=
       Calendar._resolve_player_name cache (UpcomingMatchesCoordinator.Player1ID m)
       +:+ " vs " +:+
       Calendar._resolve_player_name cache (UpcomingMatchesCoordinator.Player2ID m);
     SnookerUpcomingCalendar.start := dt;
     SnookerUpcomingCalendar.end_ := dt + SnookerUpcomingCalendar.timedelta_hours 2;
     SnookerUpcomingCalendar.description :=
       SnookerUpcomingCalendar._event_details events_data (UpcomingMatchesCoordinator.EventID m);
     SnookerUpcomingCalendar.location := "" |}.

Lemma calendar_event_some start_utc end_utc m ev :
  SnookerUpcomingCalendar.calendar_event env cache events_data tour_code start_utc end_utc m
  = Ok (Some ev) <->
  UpcomingMatchesCoordinator.Tour m = tour_code
  /\ UpcomingMatchesCoordinator.ScheduledDate m <> ""
  /\ exists dt,
       parse_datetime env
         (SnookerUpcomingCalendar.replace_space_by_T (UpcomingMatchesCoordinator.ScheduledDate m))
       = Ok (Some dt)
       /\ start_utc <= SnookerUpcomingCalendar.to_utc env dt <= end_utc
       /\ ev = entry_of m (SnookerUpcomingCalendar.to_utc env dt).
Proof.
  unfold SnookerUpcomingCalendar.calendar_event. simpl.
  destruct (String.eqb_spec (UpcomingMatchesCoordinator.Tour m) tour_code) as [Ht|Ht]; simpl;
    [|split; [discriminate | tauto]].
  destruct (String.eqb_spec (UpcomingMatchesCoordinator.ScheduledDate m) "") as [Hd|Hd]; simpl;
    [split; [discriminate | tauto]|].
  destruct (parse_datetime env _) as [[dt|]|e]; simpl.
  - destruct (Z.ltb_spec (SnookerUpcomingCalendar.to_utc env dt) start_utc); simpl.
    { split; [discriminate|]. intros (_ & _ & dt' & [= <-] & Hwin & _). lia. }
    destruct (Z.ltb_spec end_utc (SnookerUpcomingCalendar.to_utc env dt)); simpl.
    { split; [discriminate|]. intros (_ & _ & dt' & [= <-] & Hwin & _). lia. }
    split.
    + intros [= <-]. split; [done|]. split; [done|]. exists dt. split; [done|]. split; [lia | done].
    + intros (_ & _ & dt' & [= <-] & _ & ->). done.
  - split; [discriminate|]. by intros (_ & _ & dt' & [=] & _).
  - split; [discriminate|]. by intros (_ & _ & dt' & [=] & _).
Qed.

Lemma collect_elem start_utc end_utc matches acc events :
  SnookerUpcomingCalendar.collect env cache events_data tour_code start_utc end_utc matches acc
  = Ok events ->
  forall ev,
    ev ∈ events <->
    ev ∈ acc
    \/ exists m, m ∈ matches
                 /\ SnookerUpcomingCalendar.calendar_event env cache events_data tour_code
                      start_utc end_utc m = Ok (Some ev).
Proof.
  revert acc. induction matches as [|m r IH]; intros acc; cbn [SnookerUpcomingCalendar.collect].
  - intros [= <-] ev. split; [by left|]. intros [H|(m & Hm & _)]; [done | by apply elem_of_nil in Hm].
  - destruct (SnookerUpcomingCalendar.calendar_event env cache events_data tour_code
                start_utc end_utc m) as [[event|]|e] eqn:E; cbn [rbind]; [| |discriminate].
    + intros H ev. rewrite (IH _ H ev), elem_of_app, list_elem_of_singleton. split.
      * intros [[Hacc| ->]|(m' & Hm' & Hev)]; [by left | |].
        -- right. exists m. split; [by left | done].
        -- right. exists m'. split; [by right | done].
      * intros [Hacc|(m' & [->|Hm']%elem_of_cons & Hev)]; [by left; left | |].
        -- left. right. congruence.
        -- right. by exists m'.
    + intros H ev. rewrite (IH _ H ev). split.
      * intros [Hacc|(m' & Hm' & Hev)]; [by left|]. right. exists m'. split; [by right | done].
      * intros [Hacc|(m' & [->|Hm']%elem_of_cons & Hev)]; [by left | congruence |].
        right. by exists m'.
Qed.

Lemma by_start_sorted events :
  StronglySorted (fun x y => SnookerUpcomingCalendar.start x <= SnookerUpcomingCalendar.start y)
    (Py.sorted SnookerUpcomingCalendar.by_start events).
Proof.
  eapply StronglySorted_weaken; [intros x y; apply Z.leb_le|].
  apply (sorted_StronglySorted SnookerUpcomingCalendar.by_start); [intros x y; apply Z_leb_total|].
  intros x y z. unfold SnookerUpcomingCalendar.by_start. rewrite !Z.leb_le. lia.
Qed.

(** X17: the calendar of a tour lists, for the window asked for, the
    events of the published matches of that tour whose date is not
    empty, is read by the parser (blanks replaced by [T]), and falls
    within the window, both ends included; an event is listed exactly
    when it is the event of such a match: never a match of another tour,
    never an event outside the window.  Each event lasts two hours, is
    titled with the two names as the cache has them at that moment, and
    the events come in order of their start. *)
Theorem calendar_lists_the_tour_in_the_window
  (data : option UpcomingMatchesCoordinator.Data) (start_date end_date : datetime)
  (events : list SnookerUpcomingCalendar.CalendarEvent) :
  SnookerUpcomingCalendar._collect_events env cache events_data tour_code data
    start_date end_date = Ok events ->
  StronglySorted (fun x y => SnookerUpcomingCalendar.start x <= SnookerUpcomingCalendar.start y)
    events
  /\ forall ev,
       ev ∈ events <->
       exists m dt,
         m ∈ from_option UpcomingMatchesCoordinator.matches [] data
         /\ UpcomingMatchesCoordinator.Tour m = tour_code
         /\ UpcomingMatchesCoordinator.ScheduledDate m <> ""
         /\ parse_datetime env
              (SnookerUpcomingCalendar.replace_space_by_T
                 (UpcomingMatchesCoordinator.ScheduledDate m)) = Ok (Some dt)
         /\ SnookerUpcomingCalendar.to_utc env start_date
            <= SnookerUpcomingCalendar.to_utc env dt
            <= SnookerUpcomingCalendar.to_utc env end_date
         /\ ev = entry_of m (SnookerUpcomingCalendar.to_utc env dt).
Proof.
  unfold SnookerUpcomingCalendar._collect_events.
  destruct (SnookerUpcomingCalendar.collect _ _ _ _ _ _ _ _) as [collected|e] eqn:E;
    [|discriminate]. cbn [rbind]. intros [= <-]. split; [apply by_start_sorted|].
  intros ev. rewrite (sorted_perm SnookerUpcomingCalendar.by_start), (collect_elem _ _ _ _ _ E ev).
  assert (from_option UpcomingMatchesCoordinator.matches [] data
          = match data with Some d => UpcomingMatchesCoordinator.matches d | None => [] end)
    as -> by by destruct data.
  split.
  - intros [H|(m & Hm & Hev)]; [by apply elem_of_nil in H|].
    apply calendar_event_some in Hev as (Ht & Hd & dt & Hp & Hw & ->). by exists m, dt.
  - intros (m & dt & Hm & Ht & Hd & Hp & Hw & ->). right. exists m. split; [done|].
    apply calendar_event_some. split; [done|]. split; [done|]. by exists dt.
Qed.

(** X18: the event the calendar entity shows is, among the events of
    the 365 days from now, one that starts earliest, and none when there
    are no such events. *)
Theorem calendar_shows_the_earliest (data : option UpcomingMatchesCoordinator.Data)
  (shown : option SnookerUpcomingCalendar.CalendarEvent) :
  SnookerUpcomingCalendar.event env cache events_data tour_code data = Ok shown ->
  exists events,
    SnookerUpcomingCalendar._collect_events env cache events_data tour_code data
      (Aware (utcnow env)) (Aware (utcnow env + timedelta_days 365)) = Ok events
    /\ (shown = None <-> events = [])
    /\ forall first,
         shown = Some first ->
         first ∈ events
         /\ utcnow env <= SnookerUpcomingCalendar.start first <= utcnow env + timedelta_days 365
         /\ forall ev, ev ∈ events ->
                       SnookerUpcomingCalendar.start first <= SnookerUpcomingCalendar.start ev.
Proof.
  unfold SnookerUpcomingCalendar.event.
  destruct (SnookerUpcomingCalendar._collect_events _ _ _ _ _ _ _) as [events|e] eqn:E;
    [|discriminate]. cbn [rbind]. intros [= <-]. exists events. split; [done|].
  split; [by destruct events|].
  unfold SnookerUpcomingCalendar._collect_events in E.
  destruct (SnookerUpcomingCalendar.collect _ _ _ _ _ _ _ _) as [collected|e] eqn:Ec;
    [|discriminate]. cbn [rbind] in E. injection E as <-.
  pose proof (by_start_sorted collected) as Hsorted.
  intros first Hfirst.
  destruct (Py.sorted SnookerUpcomingCalendar.by_start collected) as [|ev0 events] eqn:Es;
    [discriminate|].
  injection Hfirst as ->.
  assert (first ∈ collected) as Hin
    by (rewrite <- (sorted_perm SnookerUpcomingCalendar.by_start collected), Es; by left).
  split; [by left|]. split.
  - apply (collect_elem _ _ _ _ _ Ec) in Hin as [Hin|(m & _ & Hev)]; [by apply elem_of_nil in Hin|].
    apply calendar_event_some in Hev as (_ & _ & dt & _ & Hw & ->). done.
  - intros ev [->|Hev]%elem_of_cons; [lia|].
    apply StronglySorted_inv in Hsorted as [_ Hall]. rewrite Forall_forall in Hall.
    by apply Hall.
Qed.
End CalendarFacts.

Lemma calendar_lists_the_tour_in_the_window_witness :
  let env := Scenario.clock 0 (Some 10) in
  let data :=
    {| UpcomingMatchesCoordinator.count := 2;
       UpcomingMatchesCoordinator.matches :=
         [{| UpcomingMatchesCoordinator.Tour := "main";
             UpcomingMatchesCoordinator.EventID := None;
             UpcomingMatchesCoordinator.ScheduledDate := "2024-05-01 10:00:00";
             UpcomingMatchesCoordinator.Player1ID := Some 5;
             UpcomingMatchesCoordinator.Player2ID := None |};
          {| UpcomingMatchesCoordinator.Tour := "seniors";
             UpcomingMatchesCoordinator.EventID := None;
             UpcomingMatchesCoordinator.ScheduledDate := "2024-05-01 11:00:00";
             UpcomingMatchesCoordinator.Player1ID := None;
             UpcomingMatchesCoordinator.Player2ID := None |}] |} in
  exists events,
    SnookerUpcomingCalendar._collect_events env (Scenario.cache_of [(5, "Judd Trump")]) None
      "main" (Some data) (Aware 0) (Aware 20) = Ok events
    /\ SnookerUpcomingCalendar.summary <$> events = ["Judd Trump vs TBD"]
    /\ StronglySorted
         (fun x y => SnookerUpcomingCalendar.start x <= SnookerUpcomingCalendar.start y) events.
Proof.
  intros env data. eexists. split; [vm_compute; reflexivity|]. split; [reflexivity|].
  eapply (calendar_lists_the_tour_in_the_window env (Scenario.cache_of [(5, "Judd Trump")]) None
            "main" (Some data) (Aware 0) (Aware 20)).
  vm_compute; reflexivity.
Defined.

Lemma calendar_shows_the_earliest_witness :
  let env := Scenario.clock 0 (Some 10) in
  let data :=
    {| UpcomingMatchesCoordinator.count := 1;
       UpcomingMatchesCoordinator.matches :=
         [{| UpcomingMatchesCoordinator.Tour := "main";
             UpcomingMatchesCoordinator.EventID := Some 7;
             UpcomingMatchesCoordinator.ScheduledDate := "2024-05-01 10:00:00";
             UpcomingMatchesCoordinator.Player1ID := Some 5;
             UpcomingMatchesCoordinator.Player2ID := Some 9 |}] |} in
  exists first events,
    SnookerUpcomingCalendar.event env Scenario.empty_cache None "main" (Some data)
    = Ok (Some first)
    /\ SnookerUpcomingCalendar.summary first = "#5 vs #9"
    /\ SnookerUpcomingCalendar.description first = "Unknown - Unknown - Unknown - Unknown"
    /\ SnookerUpcomingCalendar._collect_events env Scenario.empty_cache None "main" (Some data)
         (Aware (utcnow env)) (Aware (utcnow env + timedelta_days 365)) = Ok events
    /\ first ∈ events.
Proof.
  intros env data.
  edestruct (calendar_shows_the_earliest env Scenario.empty_cache None "main" (Some data))
    as (events & Hevents & _ & Hfirst); [vm_compute; reflexivity|].
  eexists _, events. split; [vm_compute; reflexivity|]. split; [reflexivity|].
  split; [reflexivity|]. split; [exact Hevents|]. by apply Hfirst.
Defined.

(** ** Requests spared and requests bounded *)

Lemma get_rankings_run env season ranking_type s :
  Api.get_rankings env season ranking_type s
  = (match get_json env [("rt", PStr ranking_type); ("s", PInt season)] with
     | Ok payload => Ok (Api._as_list payload)
     | Raise e => Raise e
     end, after_requests s [[("rt", PStr ranking_type); ("s", PInt season)]]).
Proof.
  unfold Api.get_rankings, bind, Api._get_json, ret, after_requests.
  by destruct (get_json env _).
Qed.

(** X19: with the payload of the Season poller at hand, the Rankings
    poller does not ask for the season again: it sends the money-ranking
    request for the season of that payload and, once that one is
    answered, the one-year request, and nothing else.  Without such a
    payload its first request is the one for the current season. *)
Theorem rankings_reuse_the_season (env : Env) (s : State) :
  (forall d season,
     d <> [] ->
     _extract_season d = Ok season ->
     let money := [("rt", PStr "MoneyRankings"); ("s", PInt season)] in
     let one_year := [("rt", PStr "OneYearMoneyRankings"); ("s", PInt season)] in
     requests (snd (RankingsCoordinator._async_update_data env (Some d) s))
     = (if is_ok (get_json env money) then [one_year; money] else [money]) ++ requests s)
  /\ (forall season_coord_data,
        season_coord_data = None \/ season_coord_data = Some [] ->
        exists later,
          requests (snd (RankingsCoordinator._async_update_data env season_coord_data s))
          = later ++ [("t", PInt 20)] :: requests s).
Proof.
  split.
  - intros d season Hd Hseason money one_year.
    unfold RankingsCoordinator._async_update_data, try_except.
    rewrite (bind_ok _ _ s d s) by (by destruct d).
    rewrite (bind_ok _ _ s season s) by (unfold lift; by rewrite Hseason).
    destruct (get_json env money) as [payload|e] eqn:Em; cbn [is_ok].
    + rewrite (bind_ok _ _ s (Api._as_list payload) (after_requests s [money]))
        by (rewrite get_rankings_run; unfold RANKING_MONEY; fold money; by rewrite Em).
      destruct (get_json env one_year) as [payload'|e] eqn:Eo.
      * rewrite (bind_ok _ _ _ (Api._as_list payload')
                   (after_requests (after_requests s [money]) [one_year]))
          by (rewrite get_rankings_run; unfold RANKING_ONE_YEAR_MONEY; fold one_year; by rewrite Eo).
        unfold bind, get_cache, lift, ret, raise.
        destruct (RankingsCoordinator.decorate _ _); [|reflexivity].
        destruct (RankingsCoordinator.decorate _ _); reflexivity.
      * rewrite (bind_raise _ _ _ e (after_requests (after_requests s [money]) [one_year]))
          by (rewrite get_rankings_run; unfold RANKING_ONE_YEAR_MONEY; fold one_year; by rewrite Eo).
        reflexivity.
    + rewrite (bind_raise _ _ s e (after_requests s [money]))
        by (rewrite get_rankings_run; unfold RANKING_MONEY; fold money; by rewrite Em).
      reflexivity.
  - intros season_coord_data Hnone.
    assert (season_payload_of env season_coord_data = Api.get_current_season env) as Hpayload
      by (destruct Hnone as [-> | ->]; reflexivity).
    unfold RankingsCoordinator._async_update_data. rewrite Hpayload.
    set (rest := fun season_payload : pydict => bind _ _).
    assert (Hrest : forall sp, respects sent_more (rest sp)).
    { intros sp. unfold rest, Api.get_rankings.
      repeat first
        [ apply respects_bind; [apply _ | | intros ?]
        | apply respects_lift; apply _
        | apply respects_get_cache; apply _
        | apply sent_more_get_json
        | apply respects_ret; apply _ ]. }
    unfold try_except, Api.get_current_season.
    unfold bind at 1. unfold bind at 1. unfold Api._get_json at 1.
    destruct (get_json env [("t", PInt 20)]) as [payload|e]; cbn [ret].
    + specialize (Hrest (Api._first_dict payload)
                    {| player_cache := player_cache s; storage := storage s;
                       requests := [("t", PInt 20)] :: requests s |}).
      destruct (rest _ _) as [[data|e] s1]; destruct Hrest as [later Hlater];
        exists later; exact Hlater.
    + by exists [].
Qed.

Lemma rankings_reuse_the_season_witness :
  let env := Scenario.answering (PList [PDict [("PlayerID", PInt 5)]]) in
  requests (snd (RankingsCoordinator._async_update_data env (Some [("Season", PInt 2024)])
                   Scenario.fresh))
  = [[("rt", PStr "OneYearMoneyRankings"); ("s", PInt 2024)];
     [("rt", PStr "MoneyRankings"); ("s", PInt 2024)]].
Proof.
  intros env.
  rewrite (proj1 (rankings_reuse_the_season env Scenario.fresh) [("Season", PInt 2024)] 2024);
    [reflexivity | discriminate | reflexivity].
Defined.

Lemma sends_weaken (n n' : nat) {A} (m : M A) :
  (n <= n')%nat -> sends_at_most n m -> sends_at_most n' m.
Proof. intros Hle H s. specialize (H s). lia. Qed.

Lemma sends_bind (a b : nat) {A B} (m : M A) (k : A -> M B) :
  sends_at_most a m -> (forall x, sends_at_most b (k x)) -> sends_at_most (a + b) (bind m k).
Proof.
  intros Hm Hk s. unfold bind. specialize (Hm s).
  destruct (m s) as [[x|e] s1]; simpl in *; [|lia].
  specialize (Hk x s1). lia.
Qed.

Lemma sends_lift_bind (n : nat) {A B} (r : result A) (k : A -> M B) :
  (forall x, r = Ok x -> sends_at_most n (k x)) -> sends_at_most n (bind (lift r) k).
Proof.
  intros Hk s. unfold bind, lift. destruct r as [x|e]; simpl; [|lia]. by apply Hk.
Qed.

Lemma sends_nothing {A} (m : M A) :
  (forall s, requests (snd (m s)) = requests s) -> sends_at_most 0 m.
Proof. intros H s. rewrite H. lia. Qed.

Lemma sends_one_request env params : sends_at_most 1 (Api._get_json env params).
Proof. intros s. simpl. lia. Qed.

Lemma sends_paced_loop env ids out : sends_at_most (length ids) (Api.paced_loop env ids out).
Proof.
  revert out. induction ids as [|pid ids IH]; intros out; cbn [Api.paced_loop length].
  - by apply sends_nothing.
  - apply (sends_bind 1 (length ids)); [|intros p; apply IH].
    unfold Api.get_player. apply (sends_bind 1 0); [apply sends_one_request|].
    intros payload. by apply sends_nothing.
Qed.

Lemma store_names_requests payload s : requests (snd (store_names payload s)) = requests s.
Proof.
  revert s. induction payload as [|kv payload IH]; intros s; [done|].
  by rewrite store_names_cons, IH.
Qed.

Lemma top_ids_length rows ids : top_ids rows = Ok ids -> (length ids <= length rows)%nat.
Proof.
  revert ids. induction rows as [|r rows IH]; intros ids; cbn [top_ids].
  - intros [= <-]. done.
  - destruct (Py.get_or r "PlayerID" (Py.get r "ID")) as [|b|n|t|l|d|f] eqn:E;
      try (intros H; apply IH in H; simpl; lia);
      (destruct (Py.int _) as [n'|e]; [|discriminate]; cbn [rbind];
       destruct (top_ids rows) as [ids'|e]; [|discriminate]; cbn [rbind];
       intros [= <-]; specialize (IH ids' eq_refl); simpl; lia).
Qed.

(** X20: one monthly refresh makes at most 102 calls of [_get_json],
    whatever the size of the ranking: the season request, the ranking
    request, and one request for each of the ids found in the first
    hundred rows (a call repeats its request while the answer is 403). *)
Theorem monthly_refresh_sends_at_most_102 (env : Env) (s : State) :
  (length (requests (snd (maybe_refresh_player_cache_monthly env s)))
   <= length (requests s) + 102)%nat.
Proof.
  revert s. change (sends_at_most 102 (maybe_refresh_player_cache_monthly env)).
  unfold maybe_refresh_player_cache_monthly, refresh_player_cache.
  apply (sends_bind 0 102); [by apply sends_nothing|]. intros cache.
  apply sends_lift_bind. intros skip _.
  destruct skip; [apply (sends_weaken 0); [lia | by apply sends_nothing]|].
  unfold Api.get_current_season, Api.get_rankings.
  apply (sends_bind 1 101).
  { apply (sends_bind 1 0); [apply sends_one_request | intros; by apply sends_nothing]. }
  intros season_payload. apply sends_lift_bind. intros season _.
  apply (sends_bind 1 100).
  { apply (sends_bind 1 0); [apply sends_one_request | intros; by apply sends_nothing]. }
  intros rankings. apply sends_lift_bind. intros top100_ids Hids.
  apply top_ids_length in Hids. rewrite length_take in Hids.
  apply (sends_weaken (length top100_ids + 0)); [lia|].
  apply sends_bind; [apply sends_paced_loop|]. intros payload.
  apply (sends_bind 0 0); [apply sends_nothing, store_names_requests|]. intros _.
  apply (sends_bind 0 0); [by apply sends_nothing|]. intros _.
  apply (sends_bind 0 0); [by apply sends_nothing|]. intros cache'.
  apply sends_nothing. intros s. apply save_same_requests.
Qed.

(** ** Records that cannot be loaded *)

Lemma load_items_outcome items acc :
  (Forall (fun kv : string * pyobj => is_Some (Py.int_of_str kv.1)) items
   /\ exists ps, load_items items acc = Ok ps)
  \/ (exists k v,
        (k, v) ∈ items /\ Py.int_of_str k = None
        /\ load_items items acc
           = Raise (ValueError ("invalid literal for int() with base 10: "
                                +:+ String.substring 0 200 (Py.repr_str k)))).
Proof.
  revert acc. induction items as [|[k v] items IH]; intros acc.
  - left. split; [constructor | by exists acc].
  - cbn [load_items Py.int]. destruct (Py.int_of_str k) as [n|] eqn:E; cbn [rbind].
    + destruct (IH (<[n := Py.str v]> acc)) as [[Hall Hok]|(k' & v' & Hin & Hk' & Hfail)].
      * left. split; [constructor; [simpl; by rewrite E | exact Hall] | exact Hok].
      * right. exists k', v'. split; [by right | by split].
    + right. exists k, v. split; [by left | by split].
Qed.

(** X21: a persisted record loads exactly when every key of its
    [players] object is an integer literal; the first key that is not
    makes [load_player_cache] raise the [ValueError] of [int()] on that
    key, and no cache is returned.  A [players] field that is not an
    object raises [AttributeError]. *)
Theorem load_needs_integer_keys (s : State) (doc : pydict) :
  storage s = Some (PDict doc) ->
  doc <> [] ->
  (forall items,
     Py.find doc "players" = Some (PDict items) ->
     (Forall (fun kv : string * pyobj => is_Some (Py.int_of_str kv.1)) items <->
      is_ok (fst (load_player_cache s)) = true)
     /\ (is_ok (fst (load_player_cache s)) = false ->
         exists k v,
           (k, v) ∈ items /\ Py.int_of_str k = None
           /\ load_player_cache s
              = (Raise (ValueError ("invalid literal for int() with base 10: "
                                    +:+ String.substring 0 200 (Py.repr_str k))), s)))
  /\ (forall v,
        Py.find doc "players" = Some v ->
        (forall items, v <> PDict items) ->
        load_player_cache s = (Raise AttributeError, s)).
Proof.
  intros Hs Hdoc.
  assert (Py.or_ (default PNone (storage s)) (PDict []) = PDict doc) as Hdata.
  { rewrite Hs. simpl. unfold Py.or_. simpl. by destruct doc. }
  split.
  - intros items Hitems.
    assert (load_player_cache s
            = (let? ps := load_items items ∅ in
               Ok {| players := ps; last_refreshed := Py.get doc "last_refreshed" |}, s)) as Hload.
    { unfold load_player_cache. rewrite Hdata. unfold Py.get_or. by rewrite Hitems. }
    rewrite Hload.
    destruct (load_items_outcome items ∅) as [[Hall [ps Hok]]|(k & v & Hin & Hk & Hfail)].
    + rewrite Hok. simpl. split; [done | discriminate].
    + rewrite Hfail. simpl. split.
      * split; [|discriminate]. intros Hall. rewrite Forall_forall in Hall.
        specialize (Hall (k, v) Hin). simpl in Hall. rewrite Hk in Hall. by destruct Hall.
      * intros _. by exists k, v.
  - intros v Hv Hnot. unfold load_player_cache. rewrite Hdata. unfold Py.get_or. rewrite Hv.
    destruct v; try reflexivity. by destruct (Hnot fields).
Qed.

Lemma load_needs_integer_keys_witness :
  let items := [("5", PStr "Judd Trump"); ("five", PStr "Nobody")] in
  let s := Scenario.stored (PDict [("players", PDict items)]) in
  is_ok (fst (load_player_cache s)) = false
  /\ exists k v,
       (k, v) ∈ items /\ Py.int_of_str k = None
       /\ load_player_cache s
          = (Raise (ValueError ("invalid literal for int() with base 10: "
                                +:+ String.substring 0 200 (Py.repr_str k))), s).
Proof.
  intros items s. split; [reflexivity|].
  destruct (load_needs_integer_keys s [("players", PDict items)] eq_refl) as [Hkeys _];
    [discriminate|].
  destruct (Hkeys items eq_refl) as [_ Hfail]. by apply Hfail.
Defined.

(** ** The season shown and the season used *)

(** X22: when the [Season] field of the Season poller's payload is a
    true value that [int()] accepts, the Season sensor shows that
    field, and the season the Rankings and Events pollers take from the
    same payload is its integer value. *)
Theorem season_shown_is_season_used (payload : pydict) (n : Z) :
  Py.truthy (Py.get payload "Season") = true ->
  Py.int (Py.get payload "Season") = Ok n ->
  Sensor.CurrentSeasonSensor.native_value (Some payload) = Py.get payload "Season"
  /\ _extract_season payload = Ok n.
Proof.
  intros Htrue Hint. split.
  - unfold Sensor.CurrentSeasonSensor.native_value, Py.or_. simpl. by rewrite Htrue.
  - unfold _extract_season. cbn [season_from]. rewrite Hint.
    destruct (Py.get payload "Season") as [|b|k|t|l|d|f]; try discriminate; try reflexivity.
    simpl in Htrue. simpl. by destruct (String.eqb t "").
Qed.

Lemma season_shown_is_season_used_witness :
  Sensor.CurrentSeasonSensor.native_value (Some [("Season", PStr "2024"); ("ID", PInt 9)])
  = PStr "2024"
  /\ _extract_season [("Season", PStr "2024"); ("ID", PInt 9)] = Ok 2024.
Proof.
  apply (season_shown_is_season_used [("Season", PStr "2024"); ("ID", PInt 9)] 2024); reflexivity.
Defined.
